(** * The Hadoop IPC client of yarn-copilot (pkg/yarn/client/ipc/client.go)

    A shallow embedding of the RPC client protocol engine: the framing
    codec, the transport calls made on the TCP connection, the connection
    handshake with its optional SASL exchange, and the call engine.

    The socket is modelled by a [world]: the segments the peer will deliver,
    a script of injected I/O faults, and the log of calls made on the
    socket.  Go's three ways of leaving a function (a value, an error, a
    run-time panic) are the constructors of [outcome]; a loop that never
    terminates is [Diverge].

    Integers are 64-bit [int] unless the source says otherwise.  The calls
    to klog only print and are left out.  The protobuf codec
    (google.golang.org/protobuf) is a parameter, the class [ProtoMessage];
    of its wire helpers the two the client calls, [protowire.AppendVarint]
    and [protowire.ConsumeVarint], are written out. *)

From Stdlib Require Import ZArith List String Lia Bool.
From Stdlib.Strings Require Import Byte.
From stdpp Require Import base option list strings gmap.

Local Open Scope Z_scope.
Import ListNotations.

(** ** Machine integers and bytes *)

Definition byte_val (b : byte) : Z := Z.of_N (Byte.to_N b).

(** Go's conversion [byte(z)]: the low eight bits. *)
Definition byte_of (z : Z) : byte :=
  match Byte.of_N (Z.to_N (z mod 256)) with
  | Some b => b
  | None => Byte.x00
  end.

(** Go's conversions [int32(z)] and [int(z)] (64-bit platform), and the
    value of an unsigned 64-bit integer: two's-complement wrap-around. *)
Definition to_int32 (z : Z) : Z := (z + 2 ^ 31) mod 2 ^ 32 - 2 ^ 31.
Definition to_int (z : Z) : Z := (z + 2 ^ 63) mod 2 ^ 64 - 2 ^ 63.
Definition to_uint64 (z : Z) : Z := z mod 2 ^ 64.

Definition len {A} (l : list A) : Z := Z.of_nat (length l).

(** [make([]byte, n)]: [n] zero bytes. *)
Definition zeros (n : nat) : list byte := repeat Byte.x00 n.

(** The slice expression [s[lo:hi]] on a slice whose capacity equals its
    length (every buffer of the receive path comes from [make([]byte, n)]
    and is only re-sliced up to its end).  [None] is the run-time panic
    "slice bounds out of range". *)
Definition slice_range {A} (s : list A) (lo hi : Z) : option (list A) :=
  if (0 <=? lo) && (lo <=? hi) && (hi <=? len s)
  then Some (take (Z.to_nat (hi - lo)) (drop (Z.to_nat lo) s))
  else None.

(** ** Framing codec *)

(** yarnauth.ConvertFixedToBytes / ConvertBytesToFixed at type int32.

    Modelled from the spec: package yarnauth is not part of the sources at
    hand; the spec fixes the total-length prefix as a 4-byte big-endian
    int32. *)
Definition ConvertFixedToBytes (tLen : Z) : list byte :=
  let u := tLen mod 2 ^ 32 in
  [byte_of (Z.shiftr u 24); byte_of (Z.shiftr u 16); byte_of (Z.shiftr u 8); byte_of u].

Definition be_uint32 (b : list byte) : Z :=
  fold_left (fun acc x => acc * 256 + byte_val x) b 0.

Definition ConvertBytesToFixed (b : list byte) : Z := to_int32 (be_uint32 b).

(** protowire.AppendVarint(nil, v).  The library unrolls the ten size
    classes in a switch on the magnitude of [v]; here the same bytes are
    produced by a loop with one iteration per size class. *)
Fixpoint AppendVarint_loop (classes : nat) (v : Z) : list byte :=
  match classes with
  | O => [byte_of v]
  | S k =>
      if v <? 128 then [byte_of v]
      else byte_of (Z.lor (Z.land v 127) 128) :: AppendVarint_loop k (Z.shiftr v 7)
  end.

Definition AppendVarint (v : Z) : list byte := AppendVarint_loop 9 (to_uint64 v).

(** protowire's negative length codes. *)
Definition errCodeTruncated : Z := -1.
Definition errCodeOverflow : Z := -3.

(** protowire.ConsumeVarint: the value and the number of bytes consumed,
    or [(0, code)] with a negative code.  The library unrolls the ten byte
    positions; [i] is the position of the byte under inspection. *)
Fixpoint ConsumeVarint_loop (i : nat) (v : Z) (b : list byte) : Z * Z :=
  match b with
  | [] => (0, errCodeTruncated)
  | y :: b' =>
      let y := byte_val y in
      if (i =? 9)%nat then
        if y <? 2 then (to_uint64 (v + Z.shiftl y 63), 10) else (0, errCodeOverflow)
      else if y <? 128 then (v + Z.shiftl y (7 * Z.of_nat i), Z.of_nat i + 1)
      else ConsumeVarint_loop (S i) (v + Z.shiftl (y - 128) (7 * Z.of_nat i)) b'
  end.

Definition ConsumeVarint (b : list byte) : Z * Z := ConsumeVarint_loop 0 0 b.

(** [sizeVarint]: the loop [for { n++; x >>= 7; if x == 0 { break } }] on a
    64-bit signed [x].  A non-negative [x] is exhausted after at most nine
    shifts; a negative [x] never reaches zero (the shift is arithmetic), so
    the loop runs for ever: [None]. *)
Fixpoint sizeVarint_loop (fuel : nat) (x n : Z) : option Z :=
  match fuel with
  | O => None
  | S k =>
      let n := n + 1 in
      let x := Z.shiftr x 7 in
      if x =? 0 then Some n else sizeVarint_loop k x n
  end.

Definition sizeVarint (x : Z) : option Z := sizeVarint_loop 64 x 0.

(** ** Values, errors and panics *)

Definition error := string.

Inductive outcome (A : Type) : Type :=
| Ok (a : A)
| Err (e : error)
| Panic (msg : string)
| Diverge.
Arguments Ok {A} a.
Arguments Err {A} e.
Arguments Panic {A} msg.
Arguments Diverge {A}.

Definition nilDeref : string := "invalid memory address or nil pointer dereference".
Definition sliceBounds : string := "slice bounds out of range".
Definition makesliceLen : string := "makeslice: len out of range".

(** A byte slice whose capacity matters: the [sl_data] it shows and the
    [sl_spare] bytes of its backing array beyond its length.  (The decoder
    stores a bytes field as [append(emptyBuf[:], v...)]: a zero-length
    field is a non-nil slice of capacity 0.) *)
Record goslice := GoSlice { sl_data : list byte; sl_spare : list byte }.

Definition cap (s : goslice) : Z := len (sl_data s) + len (sl_spare s).

(** [s[0:hi]] re-slices up to the capacity, not the length. *)
Definition reslice (s : goslice) (hi : Z) : option (list byte) :=
  if (0 <=? hi) && (hi <=? cap s)
  then Some (take (Z.to_nat hi) (sl_data s ++ sl_spare s))
  else None.

#[global] Instance byte_eq_dec : EqDecision byte := Byte.byte_eq_dec.

Definition bytes_Equal (a b : list byte) : bool := bool_decide (a = b).

(** ** Protocol messages (package hadoop_common), with the fields the client
    reads or writes.  A pointer field is an [option]. *)

Inductive RpcStatusProto := SUCCESS | ERROR | FATAL.

Definition RpcStatusProto_String (s : RpcStatusProto) : string :=
  match s with SUCCESS => "SUCCESS" | ERROR => "ERROR" | FATAL => "FATAL" end.

(** [rsp_ErrorDetail] carries the enum by the text its [String()] prints. *)
Record RpcResponseHeaderProto := {
  rsp_Status : option RpcStatusProto;
  rsp_ExceptionClassName : option string;
  rsp_ErrorMsg : option string;
  rsp_ErrorDetail : option string;
  rsp_ClientId : option goslice
}.

Definition emptyResponseHeader : RpcResponseHeaderProto :=
  {| rsp_Status := None; rsp_ExceptionClassName := None; rsp_ErrorMsg := None;
     rsp_ErrorDetail := None; rsp_ClientId := None |}.

Record RpcRequestHeaderProto := {
  req_RpcKind : Z;
  req_RpcOp : Z;
  req_CallId : Z;
  req_ClientId : list byte;
  req_RetryCount : Z
}.

Record UserInformationProto := {
  EffectiveUser : option string;
  RealUser : option string
}.

Record IpcConnectionContextProto := {
  ctx_UserInfo : option UserInformationProto;
  ctx_Protocol : option string
}.

Record RequestHeaderProto := {
  MethodName : option string;
  DeclaringClassProtocolName : option string;
  ClientProtocolVersion : option Z
}.

Inductive SaslState :=
| SaslState_SUCCESS | SaslState_NEGOTIATE | SaslState_INITIATE
| SaslState_CHALLENGE | SaslState_RESPONSE | SaslState_WRAP.

Record SaslAuth := {
  auth_Method : option string;
  auth_Mechanism : option string;
  auth_Protocol : option string;
  auth_ServerId : option string;
  auth_Challenge : list byte
}.

Record RpcSaslProto := {
  sasl_State : option SaslState;
  sasl_Token : list byte;
  sasl_Auths : list SaslAuth
}.

Definition emptyRpcSaslProto : RpcSaslProto :=
  {| sasl_State := None; sasl_Token := []; sasl_Auths := [] |}.

(** Generated getters: the field, or the zero value when it is unset. *)
Definition GetMethod (a : SaslAuth) : string := default "" (auth_Method a).
Definition GetMechanism (a : SaslAuth) : string := default "" (auth_Mechanism a).
Definition GetProtocol (a : SaslAuth) : string := default "" (auth_Protocol a).
Definition GetServerId (a : SaslAuth) : string := default "" (auth_ServerId a).
Definition GetChallenge (a : SaslAuth) : list byte := auth_Challenge a.
Definition GetAuths (m : RpcSaslProto) : list SaslAuth := sasl_Auths m.
Definition GetState (m : RpcSaslProto) : SaslState := default SaslState_SUCCESS (sasl_State m).

Record TokenProto := {
  tok_Identifier : list byte;
  tok_Password : list byte;
  tok_Kind : string;
  tok_Service : string
}.

#[global] Instance SaslState_eq_dec : EqDecision SaslState.
Proof. solve_decision. Defined.
#[global] Instance RpcStatusProto_eq_dec : EqDecision RpcStatusProto.
Proof. solve_decision. Defined.

(** proto.Message: what [proto.Marshal] and [proto.Unmarshal] do for a
    message type.  [Unmarshal b m] is the message after the in-place
    decoding of [b] into [m], and the error if there is one. *)
Class ProtoMessage (T : Type) := {
  Marshal : T -> outcome (list byte);
  Unmarshal : list byte -> T -> T * option error
}.

(** ** The client's data *)

(** gouuid.UUID is [16]byte. *)
Record UUID := { uuid_bytes : list byte; uuid_len : length uuid_bytes = 16%nat }.

Record Client := {
  c_ClientId : option UUID;
  c_Ugi : option UserInformationProto;
  c_ServerAddress : string;
  c_TCPNoDelay : bool
}.

(** The handle of the one TCP connection of a call; the socket's state is
    in the [world]. *)
Inductive connection := TCPConn.

Record connection_id := {
  cid_user : string;
  cid_protocol : string;
  cid_address : string;
  cid_ClientId : UUID
}.

Inductive AuthProtocol := AUTH_PROTOCOL_NONE | AUTH_PROTOCOL_SASL.

#[global] Instance AuthProtocol_eq_dec : EqDecision AuthProtocol.
Proof. solve_decision. Defined.

Definition connDefaultTimeout : Z := 10.
Definition rwDefaultTimeout : Z := 5.

Definition SASL_RPC_DUMMY_CLIENT_ID : list byte := [].
Definition SASL_RPC_CALL_ID : Z := -33.
Definition SASL_RPC_INVALID_RETRY_COUNT : Z := -1.

(** What the client takes from packages yarnauth and security, which are
    not among the sources at hand: the constants of the connection header
    and of the request headers, the user's tokens by service, and the
    DIGEST-MD5 response.  [RPC_SERVICE_CLASS] and [AuthProtocol_bytes] are
    the bytes [ConvertFixedToBytes] yields for the service class and for the
    auth protocol; a token map entry whose value is nil counts as absent. *)
Record Externals := {
  RPC_HEADER : list byte;
  VERSION : list byte;
  RPC_SERVICE_CLASS : list byte;
  AuthProtocol_bytes : AuthProtocol -> list byte;
  RPC_PROTOCOL_BUFFFER : Z;
  RPC_FINAL_PACKET : Z;
  RPC_DEFAULT_RETRY_COUNT : Z;
  CreateSimpleUGIProto : option UserInformationProto;
  GetUserTokens : gmap string TokenProto;
  GetDigestMD5ChallengeResponse :
    string -> string -> list byte -> option TokenProto -> outcome (list byte)
}.

(** ** The socket *)

Inductive event :=
| EvDial (address : string) (timeout : Z)
| EvSetNoDelay (flag : bool)
| EvSetDeadline (seconds : Z)
| EvWrite (data : list byte)
| EvRead (want : nat) (got : list byte)
| EvClose.

(** The state of the socket during one call, and the caller's response
    message, which the call fills in place.  [inbox] holds the segments the
    peer delivers, in order; one [Read] returns bytes of the first segment
    only.  [faults] is consumed one entry per call made on the socket:
    [Some e] makes that call fail with [e].  [log] records the calls. *)
Record world (Resp : Type) := World {
  inbox : list (list byte);
  faults : list (option error);
  log : list event;
  response : Resp
}.
Arguments World {Resp} _ _ _ _.
Arguments inbox {Resp} _.
Arguments faults {Resp} _.
Arguments log {Resp} _.
Arguments response {Resp} _.

Definition M (Resp A : Type) : Type := world Resp -> outcome A * world Resp.

Definition ret {Resp A} (a : A) : M Resp A := fun w => (Ok a, w).

Definition lift {Resp A} (o : outcome A) : M Resp A := fun w => (o, w).

Definition fail {Resp A} (e : error) : M Resp A := lift (Err e).

Definition panic {Resp A} (msg : string) : M Resp A := lift (Panic msg).

Definition bind {Resp A B} (m : M Resp A) (f : A -> M Resp B) : M Resp B :=
  fun w =>
    match m w with
    | (Ok a, w') => f a w'
    | (Err e, w') => (Err e, w')
    | (Panic msg, w') => (Panic msg, w')
    | (Diverge, w') => (Diverge, w')
    end.

Declare Scope go_scope.
Delimit Scope go_scope with go.
Notation "x <- m ;; k" := (bind m (fun x => k))
  (at level 20, m at level 99, k at level 200, only parsing) : go_scope.
Notation "m ;; k" := (bind m (fun _ => k))
  (at level 100, k at level 200, only parsing, right associativity) : go_scope.
Local Open Scope go_scope.

(** [err = f(...)] kept in a variable instead of returned at once. *)
Definition attempt {Resp A} (m : M Resp A) : M Resp (option error) :=
  fun w =>
    match m w with
    | (Ok _, w') => (Ok None, w')
    | (Err e, w') => (Ok (Some e), w')
    | (Panic msg, w') => (Panic msg, w')
    | (Diverge, w') => (Diverge, w')
    end.

(** Dereferencing a pointer. *)
Definition deref {Resp A} (p : option A) : M Resp A :=
  match p with
  | Some a => ret a
  | None => panic nilDeref
  end.

Definition injected {Resp} (w : world Resp) : option error :=
  match faults w with
  | Some e :: _ => Some e
  | _ => None
  end.

Definition step {Resp} (ev : event) (inbox' : list (list byte)) (w : world Resp) : world Resp :=
  {| inbox := inbox'; faults := tail (faults w); log := log w ++ [ev]; response := response w |}.

(** A call on the socket that carries no data back: Dial, SetNoDelay,
    SetDeadline, Write. *)
Definition conn_call {Resp} (ev : event) : M Resp unit :=
  fun w =>
    (match injected w with Some e => Err e | None => Ok tt end, step ev (inbox w) w).

(** [conn.con.Close()], whose result the client drops. *)
Definition conn_Close {Resp} : M Resp unit :=
  fun w => (Ok tt, step EvClose (inbox w) w).

(** [conn.con.Read(buf)] with [len(buf) = n]: the bytes it stored at the
    front of [buf].  It returns what the first segment has, at most [n]
    bytes; a read of nothing returns at once; no segment left (or an empty
    one) is end of file. *)
Definition conn_Read {Resp} (n : nat) : M Resp (list byte) :=
  fun w =>
    match injected w with
    | Some e => (Err e, step (EvRead n []) (inbox w) w)
    | None =>
        match n, inbox w with
        | O, _ => (Ok [], step (EvRead n []) (inbox w) w)
        | _, [] => (Err "EOF", step (EvRead n []) (inbox w) w)
        | _, [] :: _ => (Err "EOF", step (EvRead n []) (inbox w) w)
        | _, seg :: rest =>
            let got := take n seg in
            let inbox' := match drop n seg with [] => rest | more => more :: rest end in
            (Ok got, step (EvRead n got) inbox' w)
        end
    end.

(** The buffer [buf] after a read stored [got] at its front. *)
Definition stored (got buf : list byte) : list byte := got ++ drop (length got) buf.

(** [io.ReadFull(bufio.NewReader(conn.con), buf)] with [len(buf) = min]:
    reads until [min] bytes are there or a read fails.  The buffered reader
    asks the socket for its buffer size (4096) or for what is still missing
    if that is more, and hands over at most what is missing.  Every
    successful read brings at least one byte, so [min] rounds suffice. *)
Definition bufioSize : nat := 4096.

Fixpoint ReadFull_loop {Resp} (rounds min : nat) (buf : list byte) : M Resp (list byte) :=
  if (min <=? length buf)%nat then ret buf
  else
    match rounds with
    | O => lift Diverge
    | S k =>
        let missing := (min - length buf)%nat in
        fun w =>
          match conn_Read (Nat.max missing bufioSize) w with
          | (Ok got, w') => ReadFull_loop k min (buf ++ take missing got) w'
          | (Err e, w') =>
              (Err (if (0 <? length buf)%nat && String.eqb e "EOF"
                    then "unexpected EOF" else e), w')
          | (Panic msg, w') => (Panic msg, w')
          | (Diverge, w') => (Diverge, w')
          end
    end.

Definition ReadFull {Resp} (n : nat) : M Resp (list byte) := ReadFull_loop n n [].

(** [readDelimited(rawData, msg)]: the offset behind the delimited message
    and the message after decoding. *)
Definition readDelimited {T} `{!ProtoMessage T} (rawData : list byte) (msg : T)
  : outcome Z * T :=
  let '(headerLength, off) := ConsumeVarint rawData in
  if off =? 0 then (Ok (-1), msg)
  else
    let high := to_int (off + to_int headerLength) in
    match slice_range rawData off high with
    | None => (Panic sliceBounds, msg)
    | Some b =>
        match Unmarshal b msg with
        | (msg', Some err) => (Err err, msg')
        | (msg', None) => (Ok high, msg')
        end
    end.

(** The four-element array [errorDetails] that [readResponse] and
    [receiveSaslMessage] fill, in the same words, for a status other than
    SUCCESS. *)
Definition errorDetails (h : RpcResponseHeaderProto) (status : RpcStatusProto) : list string :=
  let d := [RpcStatusProto_String status; "ServerDidNotSetExceptionClassName";
            "ServerDidNotSetErrorMsg"; "ServerDidNotSetErrorDetail"] in
  let d := match rsp_ExceptionClassName h with Some s => <[0%nat := s]> d | None => d end in
  let d := match rsp_ErrorMsg h with Some s => <[1%nat := s]> d | None => d end in
  match rsp_ErrorDetail h with Some s => <[2%nat := s]> d | None => d end.

Definition strings_Join (l : list string) (sep : string) : string := String.concat sep l.

Record call (Req : Type) := {
  callId : Z;
  procedure : RequestHeaderProto;
  request : Req;
  retryCount : Z
}.
Arguments callId {Req} _.
Arguments procedure {Req} _.
Arguments request {Req} _.
Arguments retryCount {Req} _.

(** ** The client *)

Section Engine.
Context {Req Resp : Type}.
Context `{!ProtoMessage RpcRequestHeaderProto,
          !ProtoMessage IpcConnectionContextProto,
          !ProtoMessage RequestHeaderProto,
          !ProtoMessage RpcSaslProto,
          !ProtoMessage RpcResponseHeaderProto,
          !ProtoMessage Req,
          !ProtoMessage Resp}.
Variable ext : Externals.

Local Abbreviation M := (M Resp).

(** [sizeVarint] at a call site. *)
Definition sizeVarintM (x : Z) : M Z :=
  match sizeVarint x with
  | Some n => ret n
  | None => lift Diverge
  end.

Definition SetDeadline (seconds : Z) : M unit := conn_call (EvSetDeadline seconds).
Definition Write (data : list byte) : M unit := conn_call (EvWrite data).

Definition findUsableTokenForService (service : string) : option TokenProto * bool :=
  let userTokens := GetUserTokens ext in
  if decide (size userTokens = 0%nat) then (None, false)
  else
    match userTokens !! service with
    | Some token => (Some token, true)
    | None => (None, false)
    end.

(** [net.Dialer{Timeout}.Dial("tcp", address)] and [SetNoDelay]; a dial on
    network "tcp" yields a [*net.TCPConn], so the type assertion holds. *)
Definition setupConnection (c : Client) : M connection :=
  conn_call (EvDial (c_ServerAddress c) connDefaultTimeout);;
  conn_call (EvSetNoDelay (c_TCPNoDelay c));;
  ret TCPConn.

Definition writeConnectionHeader (conn : connection) (authProtocol : AuthProtocol) : M unit :=
  SetDeadline rwDefaultTimeout;;
  Write (RPC_HEADER ext);;
  Write (VERSION ext);;
  Write (RPC_SERVICE_CLASS ext);;
  Write (AuthProtocol_bytes ext authProtocol).

Definition writeDelimitedBytes (conn : connection) (data : list byte) : M unit :=
  Write (AppendVarint (len data));;
  Write data.

Definition writeConnectionContext (c : Client) (conn : connection)
    (connectionId : connection_id) (authProtocol : AuthProtocol) : M unit :=
  SetDeadline rwDefaultTimeout;;
  let ugi := CreateSimpleUGIProto ext in
  let ipcCtxProto :=
    {| ctx_UserInfo := ugi; ctx_Protocol := Some (cid_protocol connectionId) |} in
  let callId := -3 in
  clientId <- deref (c_ClientId c);;
  let rpcReqHeaderProto :=
    {| req_RpcKind := RPC_PROTOCOL_BUFFFER ext; req_RpcOp := RPC_FINAL_PACKET ext;
       req_CallId := callId; req_ClientId := uuid_bytes clientId;
       req_RetryCount := RPC_DEFAULT_RETRY_COUNT ext |} in
  rpcReqHeaderProtoBytes <- lift (Marshal rpcReqHeaderProto);;
  ipcCtxProtoBytes <- lift (Marshal ipcCtxProto);;
  s0 <- sizeVarintM (len rpcReqHeaderProtoBytes);;
  s1 <- sizeVarintM (len ipcCtxProtoBytes);;
  let totalLength := to_int (len rpcReqHeaderProtoBytes + s0 + len ipcCtxProtoBytes + s1) in
  let tLen := to_int32 totalLength in
  Write (ConvertFixedToBytes tLen);;
  writeDelimitedBytes conn rpcReqHeaderProtoBytes;;
  writeDelimitedBytes conn ipcCtxProtoBytes.

Definition sendRequest (c : Client) (conn : connection) (rpcCall : call Req) : M unit :=
  SetDeadline rwDefaultTimeout;;
  clientId <- deref (c_ClientId c);;
  let rpcReqHeaderProto :=
    {| req_RpcKind := RPC_PROTOCOL_BUFFFER ext; req_RpcOp := RPC_FINAL_PACKET ext;
       req_CallId := callId rpcCall; req_ClientId := uuid_bytes clientId;
       req_RetryCount := retryCount rpcCall |} in
  rpcReqHeaderProtoBytes <- lift (Marshal rpcReqHeaderProto);;
  requestHeaderProtoBytes <- lift (Marshal (procedure rpcCall));;
  paramProtoBytes <- lift (Marshal (request rpcCall));;
  s0 <- sizeVarintM (len rpcReqHeaderProtoBytes);;
  s1 <- sizeVarintM (len requestHeaderProtoBytes);;
  s2 <- sizeVarintM (len paramProtoBytes);;
  let totalLength :=
    to_int (len rpcReqHeaderProtoBytes + s0 + len requestHeaderProtoBytes + s1
            + len paramProtoBytes + s2) in
  let tLen := to_int32 totalLength in
  Write (ConvertFixedToBytes tLen);;
  writeDelimitedBytes conn rpcReqHeaderProtoBytes;;
  writeDelimitedBytes conn requestHeaderProtoBytes;;
  writeDelimitedBytes conn paramProtoBytes.

(** [checkRpcHeader]: [callClientId[0:16]] is the whole array;
    [headerClientId[0:16]] re-slices the header's field. *)
Definition checkRpcHeader (c : Client) (rpcResponseHeaderProto : RpcResponseHeaderProto)
  : M unit :=
  callClientId <- deref (c_ClientId c);;
  match rsp_ClientId rpcResponseHeaderProto with
  | Some headerClientId =>
      match reslice headerClientId 16 with
      | None => panic sliceBounds
      | Some header16 =>
          if negb (bytes_Equal (take 16 (uuid_bytes callClientId)) header16)
          then fail "Incorrect clientId"
          else ret tt
      end
  | None => ret tt
  end.

(** [readDelimited(rawData, rpcCall.response)]: decodes into the caller's
    message. *)
Definition readDelimited_response (rawData : list byte) : M Z :=
  fun w =>
    let '(r, msg) := readDelimited rawData (response w) in
    (r, {| inbox := inbox w; faults := faults w; log := log w; response := msg |}).

(** [readResponse].  The prefix is read with one [Read] into a zeroed
    four-byte array; a negative total length makes [make] panic; the body is
    read with [io.ReadFull].  [responseBytes[0:totalLength]] is the whole
    buffer.  (The values printed in the message of the length test are left
    out.) *)
Definition readResponse (c : Client) (conn : connection) (rpcCall : call Req) : M unit :=
  got <- conn_Read 4;;
  let totalLengthBytes := stored got (zeros 4) in
  let totalLength := ConvertBytesToFixed totalLengthBytes in
  if totalLength <? 0 then panic makesliceLen
  else
    responseBytes <- ReadFull (Z.to_nat totalLength);;
    if negb (to_int32 (len responseBytes) =? totalLength)
    then fail "actural read length does not match the total length"
    else
      let '(r, rpcResponseHeaderProto) := readDelimited responseBytes emptyResponseHeader in
      off <- lift r;;
      checkRpcHeader c rpcResponseHeaderProto;;
      status <- deref (rsp_Status rpcResponseHeaderProto);;
      if decide (status = SUCCESS) then
        match slice_range responseBytes off (len responseBytes) with
        | None => panic sliceBounds
        | Some rest => _ <- readDelimited_response rest;; ret tt
        end
      else
        fail (strings_Join (errorDetails rpcResponseHeaderProto status) ":").

Definition sendSaslMessage (c : Client) (conn : connection) (message : RpcSaslProto)
  : M unit :=
  let saslRpcHeaderProto :=
    {| req_RpcKind := RPC_PROTOCOL_BUFFFER ext; req_RpcOp := RPC_FINAL_PACKET ext;
       req_CallId := SASL_RPC_CALL_ID; req_ClientId := SASL_RPC_DUMMY_CLIENT_ID;
       req_RetryCount := SASL_RPC_INVALID_RETRY_COUNT |} in
  saslRpcHeaderProtoBytes <- lift (Marshal saslRpcHeaderProto);;
  saslRpcMessageProtoBytes <- lift (Marshal message);;
  s0 <- sizeVarintM (len saslRpcHeaderProtoBytes);;
  s1 <- sizeVarintM (len saslRpcMessageProtoBytes);;
  let totalLength :=
    to_int (len saslRpcHeaderProtoBytes + s0 + len saslRpcMessageProtoBytes + s1) in
  let tLen := to_int32 totalLength in
  SetDeadline rwDefaultTimeout;;
  Write (ConvertFixedToBytes tLen);;
  writeDelimitedBytes conn saslRpcHeaderProtoBytes;;
  writeDelimitedBytes conn saslRpcMessageProtoBytes.

Definition checkSaslRpcHeader (rpcResponseHeaderProto : RpcResponseHeaderProto) : M unit :=
  match rsp_ClientId rpcResponseHeaderProto with
  | Some headerClientId =>
      if negb (bytes_Equal SASL_RPC_DUMMY_CLIENT_ID (sl_data headerClientId))
      then fail "Incorrect clientId"
      else ret tt
  | None => ret tt
  end.

(** [receiveSaslMessage].  Prefix and body are each read with one [Read],
    whose byte count is dropped; what a read does not fill stays zero. *)
Definition receiveSaslMessage (c : Client) (conn : connection) : M RpcSaslProto :=
  SetDeadline rwDefaultTimeout;;
  got <- conn_Read 4;;
  let totalLengthBytes := stored got (zeros 4) in
  let totalLength := ConvertBytesToFixed totalLengthBytes in
  if totalLength <? 0 then panic makesliceLen
  else
    got <- conn_Read (Z.to_nat totalLength);;
    let responseBytes := stored got (zeros (Z.to_nat totalLength)) in
    let '(r, rpcResponseHeaderProto) := readDelimited responseBytes emptyResponseHeader in
    off <- lift r;;
    checkSaslRpcHeader rpcResponseHeaderProto;;
    status <- deref (rsp_Status rpcResponseHeaderProto);;
    if decide (status = SUCCESS) then
      match slice_range responseBytes off (len responseBytes) with
      | None => panic sliceBounds
      | Some rest =>
          let '(r, saslRpcMessage) := readDelimited rest emptyRpcSaslProto in
          _ <- lift r;;
          ret saslRpcMessage
      end
    else
      fail (strings_Join (errorDetails rpcResponseHeaderProto status) ":").

Definition negotiateSimpleTokenAuth (client : Client) (con : connection) : M unit :=
  let saslNegotiateMessage :=
    {| sasl_State := Some SaslState_NEGOTIATE; sasl_Token := []; sasl_Auths := [] |} in
  sendSaslMessage client con saslNegotiateMessage;;
  saslResponseMessage <- receiveSaslMessage client con;;
  let auths := GetAuths saslResponseMessage in
  if len auths <=? 0 then fail "No supported auth mechanisms!"
  else
    match auths !! 0%nat with
    | None => panic "index out of range"
    | Some auth =>
        if negb (String.eqb (GetMethod auth) "TOKEN"
                 && String.eqb (GetMechanism auth) "DIGEST-MD5")
        then fail "yarnauth only supports TOKEN/DIGEST-MD5 auth!"
        else
          let method := GetMethod auth in
          let mechanism := GetMechanism auth in
          let protocol := GetProtocol auth in
          let serverId := GetServerId auth in
          let challenge := GetChallenge auth in
          let userToken := fst (findUsableTokenForService (c_ServerAddress client)) in
          response <- lift (GetDigestMD5ChallengeResponse ext protocol serverId
                              challenge userToken);;
          let authSend :=
            {| auth_Method := Some method; auth_Mechanism := Some mechanism;
               auth_Protocol := Some protocol; auth_ServerId := Some serverId;
               auth_Challenge := [] |} in
          let saslInitiateMessage :=
            {| sasl_State := Some SaslState_INITIATE; sasl_Token := response;
               sasl_Auths := [authSend] |} in
          sendSaslMessage client con saslInitiateMessage;;
          saslResponseMessage <- receiveSaslMessage client con;;
          if negb (bool_decide (GetState saslResponseMessage = SaslState_SUCCESS))
          then fail "expected SASL SUCCESS response!"
          else ret tt
    end.

Definition getConnection (c : Client) (connectionId : connection_id) : M connection :=
  con <- setupConnection c;;
  let authProtocol :=
    if snd (findUsableTokenForService (c_ServerAddress c))
    then AUTH_PROTOCOL_SASL else AUTH_PROTOCOL_NONE in
  writeConnectionHeader con authProtocol;;
  (if decide (authProtocol = AUTH_PROTOCOL_SASL)
   then negotiateSimpleTokenAuth c con
   else ret tt);;
  writeConnectionContext c con connectionId authProtocol;;
  ret con.

(** [Client.Call].  [rpcResponse], the caller's message, is the [response]
    of the world.  The composite literal dereferences [c.Ugi.RealUser],
    [rpc.DeclaringClassProtocolName] and [c.ClientId] before anything is
    done on the network. *)
Definition Call (c : Client) (rpc : option RequestHeaderProto) (rpcRequest : Req) : M unit :=
  ugi <- deref (c_Ugi c);;
  user <- deref (RealUser ugi);;
  rpc <- deref rpc;;
  protocol <- deref (DeclaringClassProtocolName rpc);;
  clientId <- deref (c_ClientId c);;
  let connectionId :=
    {| cid_user := user; cid_protocol := protocol; cid_address := c_ServerAddress c;
       cid_ClientId := clientId |} in
  conn <- getConnection c connectionId;;
  let rpcCall := {| callId := 0; procedure := rpc; request := rpcRequest; retryCount := 0 |} in
  sendRequest c conn rpcCall;;
  err <- attempt (readResponse c conn rpcCall);;
  conn_Close;;
  match err with
  | Some e => fail e
  | None => ret tt
  end.

End Engine.

(** ** A small stand-in for the protobuf codec and the collaborators

    The statements below hold for every codec; the closed examples run the
    client against this one.  A response header is coded as a status byte,
    a flag byte (1: exception class set, 2: error message set, 4: error
    detail set, 8: client id set) and the client id; a SASL message as a
    state byte and one byte per offered mechanism. *)
Module Demo.

Definition status_of (b : byte) : option RpcStatusProto :=
  match byte_val b with
  | 0 => Some SUCCESS
  | 1 => Some ERROR
  | 2 => Some FATAL
  | _ => None
  end.

Definition flag (bit : Z) (b : byte) : bool := Z.testbit (byte_val b) bit.

Definition header_of (b : list byte) : RpcResponseHeaderProto * option error :=
  match b with
  | s :: f :: id =>
      match status_of s with
      | Some st =>
          ({| rsp_Status := Some st;
              rsp_ExceptionClassName :=
                if flag 0 f then Some "java.io.IOException" else None;
              rsp_ErrorMsg := if flag 1 f then Some "disk full" else None;
              rsp_ErrorDetail := if flag 2 f then Some "ERROR_APPLICATION" else None;
              rsp_ClientId := if flag 3 f then Some (GoSlice id []) else None |}, None)
      | None => (emptyResponseHeader, Some "proto: invalid status")
      end
  | _ => (emptyResponseHeader, Some "proto: required field not set")
  end.

Definition state_of (b : byte) : option SaslState :=
  match byte_val b with
  | 0 => Some SaslState_SUCCESS
  | 1 => Some SaslState_NEGOTIATE
  | 2 => Some SaslState_INITIATE
  | 3 => Some SaslState_CHALLENGE
  | _ => None
  end.

Definition state_code (s : SaslState) : byte :=
  match s with
  | SaslState_SUCCESS => x00
  | SaslState_NEGOTIATE => x01
  | SaslState_INITIATE => x02
  | SaslState_CHALLENGE => x03
  | SaslState_RESPONSE => x04
  | SaslState_WRAP => x05
  end.

Definition auth_of (b : byte) : SaslAuth :=
  match byte_val b with
  | 1 => {| auth_Method := Some "TOKEN"; auth_Mechanism := Some "DIGEST-MD5";
            auth_Protocol := Some ""; auth_ServerId := Some "default";
            auth_Challenge := [x63] |}
  | 2 => {| auth_Method := Some "KERBEROS"; auth_Mechanism := Some "GSSAPI";
            auth_Protocol := Some "rm"; auth_ServerId := Some "host";
            auth_Challenge := [] |}
  | _ => {| auth_Method := Some "SIMPLE"; auth_Mechanism := None;
            auth_Protocol := None; auth_ServerId := None; auth_Challenge := [] |}
  end.

Definition sasl_of (b : list byte) : RpcSaslProto * option error :=
  match b with
  | s :: auths =>
      match state_of s with
      | Some st =>
          ({| sasl_State := Some st; sasl_Token := []; sasl_Auths := map auth_of auths |},
           None)
      | None => (emptyRpcSaslProto, Some "proto: invalid state")
      end
  | [] => (emptyRpcSaslProto, Some "proto: required field not set")
  end.

#[local] Instance requestHeader : ProtoMessage RpcRequestHeaderProto :=
  {| Marshal h := Ok (byte_of (req_CallId h) :: req_ClientId h);
     Unmarshal _ m := (m, Some "not decoded by the client") |}.

#[local] Instance connectionContext : ProtoMessage IpcConnectionContextProto :=
  {| Marshal _ := Ok [x0a; x00];
     Unmarshal _ m := (m, Some "not decoded by the client") |}.

#[local] Instance procedureHeader : ProtoMessage RequestHeaderProto :=
  {| Marshal _ := Ok [x0a; x01; x6d];
     Unmarshal _ m := (m, Some "not decoded by the client") |}.

#[local] Instance sasl : ProtoMessage RpcSaslProto :=
  {| Marshal m := Ok (state_code (GetState m) :: sasl_Token m);
     Unmarshal b _ := sasl_of b |}.

#[local] Instance responseHeader : ProtoMessage RpcResponseHeaderProto :=
  {| Marshal _ := Err "not encoded by the client";
     Unmarshal b _ := header_of b |}.

(** Application messages: raw bytes. *)
#[local] Instance payload : ProtoMessage (list byte) :=
  {| Marshal m := Ok m;
     Unmarshal b _ := (b, None) |}.

Definition token : TokenProto :=
  {| tok_Identifier := [x01]; tok_Password := [x02]; tok_Kind := "RM_DELEGATION_TOKEN";
     tok_Service := "rm:8032" |}.

Definition externals (tokens : gmap string TokenProto) : Externals :=
  {| RPC_HEADER := [x68; x72; x70; x63];
     VERSION := [x09];
     RPC_SERVICE_CLASS := [x00];
     AuthProtocol_bytes a :=
       match a with AUTH_PROTOCOL_NONE => [x00] | AUTH_PROTOCOL_SASL => [xdf] end;
     RPC_PROTOCOL_BUFFFER := 2;
     RPC_FINAL_PACKET := 0;
     RPC_DEFAULT_RETRY_COUNT := -1;
     CreateSimpleUGIProto := Some {| EffectiveUser := Some "yarn"; RealUser := None |};
     GetUserTokens := tokens;
     GetDigestMD5ChallengeResponse _ _ challenge _ := Ok (x72 :: challenge) |}.

Definition anonymous : Externals := externals ∅.
Definition withToken : Externals := externals {[ "rm:8032" := token ]}.

Definition clientId : UUID :=
  {| uuid_bytes := [x00; x01; x02; x03; x04; x05; x06; x07;
                    x08; x09; x0a; x0b; x0c; x0d; x0e; x0f];
     uuid_len := eq_refl |}.

Definition ugi : UserInformationProto :=
  {| EffectiveUser := Some "yarn"; RealUser := Some "yarn" |}.

Definition client : Client :=
  {| c_ClientId := Some clientId;
     c_Ugi := Some ugi;
     c_ServerAddress := "rm:8032";
     c_TCPNoDelay := true |}.

Definition header : RequestHeaderProto :=
  {| MethodName := Some "getClusterMetrics";
     DeclaringClassProtocolName := Some "ApplicationClientProtocol";
     ClientProtocolVersion := Some 1 |}.

Definition rpc : option RequestHeaderProto := Some header.

Definition connectionId : connection_id :=
  {| cid_user := "yarn"; cid_protocol := "ApplicationClientProtocol";
     cid_address := "rm:8032"; cid_ClientId := clientId |}.

Definition rpcCall (req : list byte) : call (list byte) :=
  {| callId := 0; procedure := header; request := req; retryCount := 0 |}.

(** A world with the given segments to deliver and faults to inject, an
    empty log and the caller's response message [resp]. *)
Definition start (segments : list (list byte)) (fs : list (option error))
    (resp : list byte) : world (list byte) :=
  World segments fs [] resp.

Definition call_anonymous := Call (Req := list byte) (Resp := list byte) anonymous.
Definition call_withToken := Call (Req := list byte) (Resp := list byte) withToken.

(** What the stand-in codec makes of the request header of a call and of
    the procedure header. *)
Definition requestHeaderBytes : list byte := x00 :: uuid_bytes clientId.
Definition procedureBytes : list byte := [x0a; x01; x6d].

(** Scenarios.  The peer answers a call with a header (status SUCCESS, no
    flags) and the payload 07 07. *)
Definition echo : world (list byte) :=
  start [[x00; x00; x00; x06]; [x02; x00; x00; x02; x07; x07]] [] [].

(** The fifteenth call on the socket, the write of the request's length
    field, fails. *)
Definition writeFails : world (list byte) :=
  start [] (repeat None 14 ++ [Some "write: broken pipe"]) [].

(** The peer answers with an empty frame. *)
Definition emptyFrame : world (list byte) :=
  start [[x00; x00; x00; x00]] [] [].

(** The first two bytes of the prefix arrive on their own. *)
Definition shortPrefix : world (list byte) :=
  start [[x00; x00]; [x00; x06]; [x02; x00; x00; x02; x07; x07]] [] [].

(** The response header carries the caller's client id and one byte more. *)
Definition id17 : list byte := uuid_bytes clientId ++ [x10].
Definition frame17 : list byte := x13 :: x00 :: x08 :: id17 ++ [x02; x07; x07].
Definition longerId : world (list byte) :=
  start [[x00; x00; x00; x17]; frame17] [] [].

(** Status ERROR with exception class and message set; the caller's
    response message holds 09. *)
Definition ioException : world (list byte) :=
  start [[x00; x00; x00; x03]; [x02; x01; x03]] [] [x09].

(** NEGOTIATE responses: no mechanism; KERBEROS first and TOKEN second. *)
Definition noOffer : world (list byte) :=
  start [[x00; x00; x00; x05]; [x02; x00; x00; x01; x01]] [] [].
Definition kerberosFirst : world (list byte) :=
  start [[x00; x00; x00; x07]; [x02; x00; x00; x03; x01; x02; x01]] [] [].

(** A SASL response of six bytes whose last byte is still on its way. *)
Definition partialSasl : world (list byte) :=
  start [[x00; x00; x00; x06]; [x02; x00; x00; x02; x01]; [x01]] [] [].

(** Payloads of 128 bytes and of 2^32 bytes. *)
Definition payload128 : list byte := repeat x61 128.
Definition payload4GiB : list byte := repeat x00 (Z.to_nat (2 ^ 32)).

End Demo.

(** ** Vocabulary of the statements *)

(** The spec's total length of a frame: the sum over its parts of the size
    of the varint that prefixes the part and the length of the part. *)
Definition exactTotalLength (parts : list (list byte)) : Z :=
  fold_right (fun part acc => len (AppendVarint (len part)) + len part + acc) 0 parts.

(** The bytes that follow the total-length field on the wire. *)
Definition delimitedParts (parts : list (list byte)) : list byte :=
  concat (map (fun part => AppendVarint (len part) ++ part) parts).

(** The parts of a frame, each behind the varint of its length, as the send
    functions write them. *)
Fixpoint writeParts {Resp} (conn : connection) (parts : list (list byte)) : M Resp unit :=
  match parts with
  | [] => ret tt
  | [part] => writeDelimitedBytes conn part
  | part :: parts => writeDelimitedBytes conn part;; writeParts conn parts
  end.

(** [emits P m]: whatever [m] does, the calls it adds to the log all
    satisfy [P], and it only adds to the log. *)
Definition emits {Resp A} (P : event -> Prop) (m : M Resp A) : Prop :=
  forall w, exists evs, log (snd (m w)) = log w ++ evs /\ Forall P evs.

(** A computation that leaves the world alone. *)
Definition pure {Resp A} (m : M Resp A) : Prop := exists o, forall w, m w = (o, w).

(** The payloads of the writes in a log. *)
Definition written (l : list event) : list (list byte) :=
  flat_map (fun ev => match ev with EvWrite data => [data] | _ => [] end) l.

Definition no_close (ev : event) : Prop := ev <> EvClose.
Definition no_deadline (ev : event) : Prop := forall seconds, ev <> EvSetDeadline seconds.
Definition is_write (ev : event) : Prop := exists data, ev = EvWrite data.

(** The first message of the SASL exchange. *)
Definition saslNegotiateMessage : RpcSaslProto :=
  {| sasl_State := Some SaslState_NEGOTIATE; sasl_Token := []; sasl_Auths := [] |}.

(** What [receiveSaslMessage] does with its buffer once the buffer is
    filled: the rest of its body, word for word. *)
Definition saslFrame {Resp} `{!ProtoMessage RpcSaslProto, !ProtoMessage RpcResponseHeaderProto}
    (responseBytes : list byte) : M Resp RpcSaslProto :=
  let '(r, rpcResponseHeaderProto) := readDelimited responseBytes emptyResponseHeader in
  off <- lift r;;
  checkSaslRpcHeader rpcResponseHeaderProto;;
  status <- deref (rsp_Status rpcResponseHeaderProto);;
  if decide (status = SUCCESS) then
    match slice_range responseBytes off (len responseBytes) with
    | None => panic sliceBounds
    | Some rest =>
        let '(r, saslRpcMessage) := readDelimited rest emptyRpcSaslProto in
        _ <- lift r;;
        ret saslRpcMessage
    end
  else
    fail (strings_Join (errorDetails rpcResponseHeaderProto status) ":").

(** ** Vocabulary of the further properties *)

Definition is_read (ev : event) : Prop := exists want got, ev = EvRead want got.
Definition no_read (ev : event) : Prop := forall want got, ev <> EvRead want got.

(** A stretch of the fault script that injects nothing. *)
Definition clean (fs : list (option error)) : Prop := Forall (fun f => f = None) fs.

(** [failstop m]: every call [m] makes on the socket takes one entry of the
    fault script; no entry taken before the last call injected a fault, so
    nothing follows a failed call; and a run that returns a value met no
    fault at all. *)
Definition failstop {Resp A} (m : M Resp A) : Prop :=
  forall w, exists evs,
    log (snd (m w)) = log w ++ evs
    /\ faults (snd (m w)) = drop (length evs) (faults w)
    /\ clean (take (length evs - 1) (faults w))
    /\ (forall a, fst (m w) = Ok a -> clean (take (length evs) (faults w))).


(** The INITIATE message that answers the offer [auth] with the challenge
    response [token]. *)
Definition saslInitiateMessage (auth : SaslAuth) (token : list byte) : RpcSaslProto :=
  {| sasl_State := Some SaslState_INITIATE; sasl_Token := token;
     sasl_Auths :=
       [{| auth_Method := Some (GetMethod auth); auth_Mechanism := Some (GetMechanism auth);
           auth_Protocol := Some (GetProtocol auth);
           auth_ServerId := Some (GetServerId auth); auth_Challenge := [] |}] |}.

(** Further scenarios for the stand-in codec of [Demo]. *)
Module Scenarios.

(** A header with status SUCCESS and no flags; the payload 07 07; a
    NEGOTIATE message that offers TOKEN with DIGEST-MD5; the message with
    state SUCCESS. *)
Definition okHeader : list byte := [x00; x00].
Definition payload : list byte := [x07; x07].
Definition tokenOffer : list byte := [x01; x01].
Definition saslSuccess : list byte := [x00].

(** The response frame of [Demo.echo] cut into three segments. *)
Definition threeSegments : list (list byte) := [[x02]; [x00; x00; x02; x07]; [x07]].

(** The peer offers TOKEN with DIGEST-MD5 and answers the INITIATE message
    with SUCCESS. *)
Definition tokenHandshake : world (list byte) :=
  Demo.start [[x00; x00; x00; x06]; [x02; x00; x00; x02; x01; x01];
              [x00; x00; x00; x05]; [x02; x00; x00; x01; x00]] [] [].

(** A response header that carries exactly the caller's client id. *)
Definition ownIdHeader : RpcResponseHeaderProto :=
  fst (Demo.header_of (x00 :: x08 :: uuid_bytes Demo.clientId)).

End Scenarios.

(** * The copilot agent: killing a container
    (pkg/yarn/copilot/nm/nm.go and pkg/copilot-agent/server/server.go)

    The handler of [POST /v1/killContainer] looks the container up in the
    listing of the NodeManager and signals the process group of its cpu
    cgroup.  A run of the handler makes at most one call of each kind on
    the machine, so the machine is a snapshot: what each call would answer.
    The signals sent are returned beside the result, in order. *)

Inductive Signal := SIGKILL.

Module nm.

Record NodeMangerOperator := {
  CgroupRoot : string;
  CgroupPath : string
}.

(** [YarnContainer] is declared in a file of package nm that is not among
    the sources at hand; [Id] is the field this path reads. *)
Record YarnContainer := { Id : string }.

Record Containers := { Items : list YarnContainer }.

(** A response of the REST client, and what the path takes from the
    machine and from packages that are not among the sources at hand:
    [filepath.Join], [utils.GetPids] (the pids listed in a cgroup
    directory), the GET of the REST client with the value it decoded into the
    result, and [syscall.Kill]. *)
Record Response := { StatusCode : Z }.

Record Platform := {
  filepath_Join : list string -> string;
  GetPids : string -> list Z * option error;
  Get : string -> Response * Containers * option error;
  Kill : Z -> Signal -> option error
}.

(** [Response.IsSuccess] of the REST client: a status above 199 and below 300. *)
Definition IsSuccess (r : Response) : bool := (199 <? StatusCode r) && (StatusCode r <? 300).

(** [ListContainers]: each return statement gives either the listing or
    an error. *)
Definition ListContainers (p : Platform) (n : NodeMangerOperator) : Containers + error :=
  let '(resp, res, err) := Get p "/ws/v1/node/containers" in
  match err with
  | Some err => inr err
  | None =>
      if negb (IsSuccess resp)
      then inr (String.append "code for ListContainer is " (pretty.pretty (StatusCode resp)))
      else inl res
  end.

Fixpoint GetContainer_loop (items : list YarnContainer) (containerID : string)
  : option YarnContainer :=
  match items with
  | [] => None
  | c :: rest =>
      if String.eqb (Id c) containerID then Some c else GetContainer_loop rest containerID
  end.

Definition GetContainer (p : Platform) (n : NodeMangerOperator) (containerID : string)
  : YarnContainer + error :=
  match ListContainers p n with
  | inr err => inr err
  | inl listContainers =>
      match GetContainer_loop (Items listContainers) containerID with
      | Some c => inl c
      | None => inr "container Not Found"
      end
  end.

Definition getProcessGroupID (p : Platform) (n : NodeMangerOperator) (containerID : string)
  : Z :=
  let containerCgroupPath :=
    filepath_Join p [CgroupRoot n; "cpu"; CgroupPath n; containerID] in
  match GetPids p containerCgroupPath with
  | (_, Some err) => 0
  | (pids, None) =>
      match pids with
      | [] => 0
      | pid :: _ => pid
      end
  end.

(** [KillContainer]: the error it returns and the signals it sent. *)
Definition KillContainer (p : Platform) (n : NodeMangerOperator) (containerID : string)
  : option error * list (Z * Signal) :=
  let processGroupID := getProcessGroupID p n containerID in
  if processGroupID <=? 1
  then (Some (String.append "invalid process group pid("
                (String.append (pretty.pretty processGroupID)
                   (String.append ") for container " containerID))), [])
  else (Kill p (to_int (- processGroupID)) SIGKILL, [(to_int (- processGroupID), SIGKILL)]).

End nm.

Module server.

Record YarnCopilotServer := {
  mgr : nm.NodeMangerOperator;
  unixPath : string
}.

Record KillRequest := { ContainerID : string }.

Section Handlers.
(** [ContainerInfo] has fields of Kubernetes types, and [ParseContainerInfo]
    is declared in a file of package server that is not among the sources
    at hand. *)
Context {ContainerInfo : Type}.
Variable ParseContainerInfo : nm.YarnContainer -> nm.NodeMangerOperator -> ContainerInfo.

(** What a handler hands to [ctx.JSON]: the status and an error or a
    [KillInfo]. *)
Inductive Body :=
  | ErrorBody (err : error)
  | KillInfo (Items : list ContainerInfo).

Record Reply := { code : Z; body : Body }.

Definition StatusOK : Z := 200.
Definition StatusBadRequest : Z := 400.

(** [KillContainer]; [bound] is what [ctx.BindJSON(&kr)] made of the
    request body. *)
Definition KillContainer (p : nm.Platform) (y : YarnCopilotServer)
    (bound : KillRequest + error) : Reply * list (Z * Signal) :=
  match bound with
  | inr err => ({| code := StatusBadRequest; body := ErrorBody err |}, [])
  | inl kr =>
      match nm.GetContainer p (mgr y) (ContainerID kr) with
      | inr err => ({| code := StatusBadRequest; body := ErrorBody err |}, [])
      | inl container =>
          match nm.KillContainer p (mgr y) (ContainerID kr) with
          | (Some err, sent) => ({| code := StatusBadRequest; body := ErrorBody err |}, sent)
          | (None, sent) =>
              ({| code := StatusOK;
                  body := KillInfo [ParseContainerInfo container (mgr y)] |}, sent)
          end
      end
  end.

End Handlers.

End server.

(** A machine for the closed examples: two containers are listed, the
    cgroup of the first holds the pids 4711 and 4712, that of the second
    is empty. *)
Module CopilotDemo.

Definition operator : nm.NodeMangerOperator :=
  {| nm.CgroupRoot := "/sys/fs/cgroup"; nm.CgroupPath := "hadoop-yarn" |}.


Definition platform : nm.Platform :=
  {| nm.filepath_Join := fun parts => String.concat "/" parts;
     nm.GetPids := fun path =>
       if String.eqb path "/sys/fs/cgroup/cpu/hadoop-yarn/container_1"
       then ([4711; 4712], None)
       else if String.eqb path "/sys/fs/cgroup/cpu/hadoop-yarn/container_2"
       then ([], None)
       else ([], Some "no such file or directory");
     nm.Get := fun url =>
       ({| nm.StatusCode := 200 |},
        {| nm.Items := [{| nm.Id := "container_1" |}; {| nm.Id := "container_2" |}] |},
        None);
     nm.Kill := fun pid sig => None |}.



End CopilotDemo.

(** * Properties *)

(** ** The framing codec *)

Lemma byte_val_range (b : byte) : 0 <= byte_val b < 256.
Proof.
  unfold byte_val. pose proof (Byte.to_N_bounded b). lia.
Qed.

Lemma to_uint64_small (z : Z) : 0 <= z < 2 ^ 64 -> to_uint64 z = z.
Proof. intros. unfold to_uint64. apply Z.mod_small. lia. Qed.

Lemma to_int_small (z : Z) : - 2 ^ 63 <= z < 2 ^ 63 -> to_int z = z.
Proof. intros. unfold to_int. rewrite Z.mod_small; lia. Qed.

Lemma to_int32_small (z : Z) : - 2 ^ 31 <= z < 2 ^ 31 -> to_int32 z = z.
Proof. intros. unfold to_int32. rewrite Z.mod_small; lia. Qed.

Lemma len_nonneg {A} (l : list A) : 0 <= len l.
Proof. unfold len. lia. Qed.

Lemma len_app {A} (l k : list A) : len (l ++ k) = len l + len k.
Proof. unfold len. rewrite length_app. lia. Qed.

Lemma len_cons {A} (x : A) (l : list A) : len (x :: l) = 1 + len l.
Proof. unfold len. simpl length. lia. Qed.

(** A failed [ConsumeVarint] reports value 0 and one of the two negative
    codes; it never reports length 0. *)
Lemma ConsumeVarint_loop_error (b : list byte) :
  forall i v, snd (ConsumeVarint_loop i v b) < 0 ->
    ConsumeVarint_loop i v b = (0, errCodeTruncated)
    \/ ConsumeVarint_loop i v b = (0, errCodeOverflow).
Proof.
  induction b as [|y b IH]; intros i v Hneg; simpl in *.
  - now left.
  - destruct (i =? 9)%nat.
    + destruct (byte_val y <? 2); simpl in Hneg; [lia | now right].
    + destruct (byte_val y <? 128); simpl in Hneg; [lia | now apply IH].
Qed.

Lemma ConsumeVarint_loop_nonzero (b : list byte) :
  forall i v, snd (ConsumeVarint_loop i v b) <> 0.
Proof.
  induction b as [|y b IH]; intros i v; simpl.
  - unfold errCodeTruncated. lia.
  - destruct (i =? 9)%nat.
    + destruct (byte_val y <? 2); simpl; unfold errCodeOverflow; lia.
    + destruct (byte_val y <? 128); simpl; [lia | apply IH].
Qed.

(** A varint spans at most ten bytes.  A buffer whose first ten bytes (all
    of them, if it has fewer) have the continuation bit set holds no complete
    varint. *)
Lemma ConsumeVarint_loop_unterminated (b : list byte) :
  forall i v, (i <= 9)%nat ->
    Forall (fun y => 128 <= byte_val y) (take (10 - i) b) ->
    snd (ConsumeVarint_loop i v b) < 0.
Proof.
  induction b as [|y b IH]; intros i v Hi Hall; simpl.
  - unfold errCodeTruncated. lia.
  - replace (10 - i)%nat with (S (9 - i)) in Hall by lia.
    simpl in Hall. apply Forall_cons in Hall as [Hy Hall].
    destruct (Nat.eqb_spec i 9) as [->|Hne].
    + destruct (Z.ltb_spec (byte_val y) 2); [lia | simpl; unfold errCodeOverflow; lia].
    + destruct (Z.ltb_spec (byte_val y) 128); [lia|].
      apply IH; [lia|]. replace (10 - S i)%nat with (9 - i)%nat by lia. exact Hall.
Qed.

Lemma slice_range_negative {A} (s : list A) (lo hi : Z) :
  lo < 0 -> slice_range s lo hi = None.
Proof.
  intros Hlo. unfold slice_range.
  destruct (Z.leb_spec 0 lo); [lia | reflexivity].
Qed.

(** [readDelimited] on a buffer whose varint does not decode: the guard
    [off == 0] is not taken and the slice expression panics. *)
Lemma readDelimited_undecodable {T} `{!ProtoMessage T} (rawData : list byte) (msg : T) :
  snd (ConsumeVarint rawData) < 0 ->
  readDelimited rawData msg = (Panic sliceBounds, msg).
Proof.
  intros Hneg. unfold readDelimited, ConsumeVarint in *.
  destruct (ConsumeVarint_loop_error _ _ _ Hneg) as [E|E]; rewrite E; reflexivity.
Qed.

(** [sizeVarint] against the bytes [AppendVarint] writes. *)
Lemma sizeVarint_loop_AppendVarint (k : nat) :
  forall fuel x n, (k < fuel)%nat -> 0 <= x < 2 ^ (7 * (Z.of_nat k + 1)) ->
    sizeVarint_loop fuel x n = Some (n + len (AppendVarint_loop k x)).
Proof.
  induction k as [|k IH]; intros fuel x n Hfuel Hx;
    (destruct fuel as [|fuel]; [lia|]).
  - simpl. replace (Z.shiftr x 7) with 0.
    + reflexivity.
    + rewrite Z.shiftr_div_pow2 by lia. symmetry. apply Z.div_small.
      change (2 ^ (7 * (Z.of_nat 0 + 1))) with (2 ^ 7) in Hx. lia.
  - cbn [sizeVarint_loop AppendVarint_loop].
    rewrite Z.shiftr_div_pow2 by lia.
    destruct (Z.ltb_spec x 128) as [Hlt|Hge].
    + rewrite Z.div_small by (change (2 ^ 7) with 128; lia). reflexivity.
    + assert (Hq : 0 < x / 2 ^ 7).
      { apply Z.div_str_pos. change (2 ^ 7) with 128. lia. }
      destruct (Z.eqb_spec (x / 2 ^ 7) 0) as [E|_]; [lia|].
      rewrite IH.
      * rewrite len_cons. f_equal. lia.
      * lia.
      * split; [lia|].
        apply Z.div_lt_upper_bound; [lia|].
        rewrite <- Z.pow_add_r by lia.
        replace (7 + 7 * (Z.of_nat k + 1)) with (7 * (Z.of_nat (S k) + 1)) by lia.
        lia.
Qed.

Lemma sizeVarint_AppendVarint (x : Z) :
  0 <= x < 2 ^ 63 -> sizeVarint x = Some (len (AppendVarint x)).
Proof.
  intros Hx. unfold sizeVarint, AppendVarint.
  rewrite to_uint64_small by lia.
  rewrite (sizeVarint_loop_AppendVarint 9); [reflexivity | lia |].
  change (2 ^ (7 * (Z.of_nat 9 + 1))) with (2 ^ 70). lia.
Qed.

Lemma byte_val_byte_of (z : Z) : byte_val (byte_of z) = z mod 256.
Proof.
  unfold byte_val, byte_of.
  assert (Hr : 0 <= z mod 256 < 256) by (apply Z.mod_pos_bound; lia).
  destruct (Byte.of_N (Z.to_N (z mod 256))) as [b|] eqn:E.
  - apply Byte.to_of_N in E. rewrite E. lia.
  - apply Byte.of_N_None_iff in E. lia.
Qed.

Lemma be_uint32_ConvertFixedToBytes (z : Z) :
  be_uint32 (ConvertFixedToBytes z) = z mod 2 ^ 32.
Proof.
  unfold be_uint32, ConvertFixedToBytes. cbn [fold_left].
  rewrite !byte_val_byte_of, !Z.shiftr_div_pow2 by lia.
  assert (Hu : 0 <= z mod 2 ^ 32 < 2 ^ 32) by (apply Z.mod_pos_bound; lia).
  generalize dependent (z mod 2 ^ 32). intros u Hu.
  change (2 ^ 24) with 16777216. change (2 ^ 16) with 65536.
  change (2 ^ 8) with 256. change (2 ^ 32) with 4294967296 in Hu.
  Z.div_mod_to_equations. lia.
Qed.

(** Writing a length that fits a signed 32-bit integer and reading it back. *)
Lemma ConvertBytesToFixed_ConvertFixedToBytes (z : Z) :
  ConvertBytesToFixed (ConvertFixedToBytes z) = to_int32 z.
Proof.
  unfold ConvertBytesToFixed. rewrite be_uint32_ConvertFixedToBytes.
  unfold to_int32. rewrite Zplus_mod_idemp_l. reflexivity.
Qed.

(** ** Reasoning about runs *)

Lemma bind_Ok {Resp A B} (m : M Resp A) (f : A -> M Resp B) w a w' :
  m w = (Ok a, w') -> bind m f w = f a w'.
Proof. intros E. unfold bind. now rewrite E. Qed.

Lemma bind_Err {Resp A B} (m : M Resp A) (f : A -> M Resp B) w e w' :
  m w = (Err e, w') -> bind m f w = (Err e, w').
Proof. intros E. unfold bind. now rewrite E. Qed.

Lemma bind_Panic {Resp A B} (m : M Resp A) (f : A -> M Resp B) w msg w' :
  m w = (Panic msg, w') -> bind m f w = (Panic msg, w').
Proof. intros E. unfold bind. now rewrite E. Qed.

Lemma bind_ext {Resp A B} (m : M Resp A) (f g : A -> M Resp B) w :
  (forall a w', f a w' = g a w') -> bind m f w = bind m g w.
Proof.
  intros E. unfold bind. destruct (m w) as [[a|e|msg|] w']; auto.
Qed.


Section Emits.
Context {Resp : Type} (P : event -> Prop).

Lemma emits_lift {A} (o : outcome A) : emits P (lift (Resp := Resp) o).
Proof. intros w. exists []. simpl. now rewrite app_nil_r. Qed.

Lemma emits_ret {A} (a : A) : emits P (ret (Resp := Resp) a).
Proof. apply emits_lift. Qed.

Lemma emits_bind {A B} (m : M Resp A) (f : A -> M Resp B) :
  emits P m -> (forall a, emits P (f a)) -> emits P (bind m f).
Proof.
  intros Hm Hf w. unfold bind.
  destruct (Hm w) as (evs & E & HP).
  destruct (m w) as [[a|e|msg|] w'] eqn:Em; simpl in E; eauto.
  destruct (Hf a w') as (evs' & E' & HP').
  exists (evs ++ evs'). rewrite E', E, app_assoc. split; [reflexivity|].
  apply Forall_app; auto.
Qed.

Lemma emits_attempt {A} (m : M Resp A) : emits P m -> emits P (attempt m).
Proof.
  intros Hm w. unfold attempt.
  destruct (Hm w) as (evs & E & HP).
  destruct (m w) as [[a|e|msg|] w']; simpl in *; eauto.
Qed.

Lemma emits_step {A} (ev : event) (o : outcome A) (w : world Resp) ib :
  P ev -> exists evs, log (snd (o, step ev ib w)) = log w ++ evs /\ Forall P evs.
Proof. intros HP. exists [ev]. simpl. auto. Qed.

Lemma emits_conn_call (ev : event) : P ev -> emits P (conn_call (Resp := Resp) ev).
Proof. intros HP w. unfold conn_call. now apply emits_step. Qed.

Lemma emits_conn_Close : P EvClose -> emits P (conn_Close (Resp := Resp)).
Proof. intros HP w. unfold conn_Close. now apply emits_step. Qed.

Lemma emits_conn_Read (n : nat) :
  (forall k got, P (EvRead k got)) -> emits P (conn_Read (Resp := Resp) n).
Proof.
  intros HP w. unfold conn_Read.
  destruct (injected w); [now apply emits_step|].
  destruct n; [now apply emits_step|].
  destruct (inbox w) as [|[|x seg] rest]; now apply emits_step.
Qed.

Lemma emits_ReadFull_loop (rounds min : nat) :
  (forall k got, P (EvRead k got)) ->
  forall buf, emits P (ReadFull_loop (Resp := Resp) rounds min buf).
Proof.
  intros HP. induction rounds as [|k IH]; intros buf; simpl.
  - destruct (min <=? length buf)%nat; [apply emits_ret | apply emits_lift].
  - destruct (min <=? length buf)%nat; [apply emits_ret|].
    intros w.
    destruct (emits_conn_Read (Nat.max (min - length buf) bufioSize) HP w)
      as (evs & E & HPs).
    destruct (conn_Read _ w) as [[got|e|msg|] w']; simpl in E; eauto.
    destruct (IH (buf ++ take (min - length buf) got) w') as (evs' & E' & HP').
    exists (evs ++ evs'). rewrite E', E, app_assoc. split; [reflexivity|].
    apply Forall_app; auto.
Qed.

Lemma emits_deref {A} (p : option A) : emits P (deref (Resp := Resp) p).
Proof. destruct p; apply emits_lift. Qed.

End Emits.

Ltac emits_tac :=
  lazymatch goal with
  | |- emits _ (bind _ _) => apply emits_bind; [|intros ?]
  | |- emits _ (ret _) => apply emits_ret
  | |- emits _ (lift _) => apply emits_lift
  | |- emits _ (fail _) => apply emits_lift
  | |- emits _ (panic _) => apply emits_lift
  | |- emits _ (deref _) => apply emits_deref
  | |- emits _ (attempt _) => apply emits_attempt
  | |- emits _ (conn_call _) => apply emits_conn_call; auto
  | |- emits _ conn_Close => apply emits_conn_Close; auto
  | |- emits _ (conn_Read _) => apply emits_conn_Read; auto
  | |- emits _ (ReadFull_loop _ _ _) => apply emits_ReadFull_loop; auto
  | |- emits _ (match ?x with _ => _ end) => destruct x
  end.

Section EngineEmits.
Context {Req Resp : Type}.
Context `{!ProtoMessage RpcRequestHeaderProto,
          !ProtoMessage IpcConnectionContextProto,
          !ProtoMessage RequestHeaderProto,
          !ProtoMessage RpcSaslProto,
          !ProtoMessage RpcResponseHeaderProto,
          !ProtoMessage Req,
          !ProtoMessage Resp}.
Variable ext : Externals.
Variable P : event -> Prop.

Let deadline := P (EvSetDeadline rwDefaultTimeout).
Let writes := forall data, P (EvWrite data).
Let reads := forall k got, P (EvRead k got).

Lemma emits_sizeVarintM (x : Z) : emits P (sizeVarintM (Resp := Resp) x).
Proof. unfold sizeVarintM. repeat emits_tac. Qed.

Lemma emits_writeDelimitedBytes conn data :
  writes -> emits P (writeDelimitedBytes (Resp := Resp) conn data).
Proof. intros Hw. unfold writeDelimitedBytes, Write. repeat emits_tac. Qed.

Lemma emits_writeConnectionHeader conn a :
  deadline -> writes -> emits P (writeConnectionHeader (Resp := Resp) ext conn a).
Proof.
  intros Hd Hw. unfold writeConnectionHeader, SetDeadline, Write. repeat emits_tac.
Qed.

Lemma emits_writeConnectionContext c conn cid a :
  deadline -> writes -> emits P (writeConnectionContext (Resp := Resp) ext c conn cid a).
Proof.
  intros Hd Hw. unfold writeConnectionContext, SetDeadline, Write.
  repeat first [apply emits_sizeVarintM | apply emits_writeDelimitedBytes; assumption
               | emits_tac].
Qed.

Lemma emits_sendRequest c conn (rpcCall : call Req) :
  deadline -> writes -> emits P (sendRequest (Resp := Resp) ext c conn rpcCall).
Proof.
  intros Hd Hw. unfold sendRequest, SetDeadline, Write.
  repeat first [apply emits_sizeVarintM | apply emits_writeDelimitedBytes; assumption
               | emits_tac].
Qed.

Lemma emits_sendSaslMessage c conn m :
  deadline -> writes -> emits P (sendSaslMessage (Resp := Resp) ext c conn m).
Proof.
  intros Hd Hw. unfold sendSaslMessage, SetDeadline, Write.
  repeat first [apply emits_sizeVarintM | apply emits_writeDelimitedBytes; assumption
               | emits_tac].
Qed.

Lemma emits_checkRpcHeader c h : emits P (checkRpcHeader (Resp := Resp) c h).
Proof. unfold checkRpcHeader. repeat emits_tac. Qed.

Lemma emits_checkSaslRpcHeader h : emits P (checkSaslRpcHeader (Resp := Resp) h).
Proof. unfold checkSaslRpcHeader. repeat emits_tac. Qed.

Lemma emits_readDelimited_response raw :
  emits P (readDelimited_response (Resp := Resp) raw).
Proof.
  intros w. exists []. unfold readDelimited_response.
  destruct (readDelimited raw (response w)). simpl. now rewrite app_nil_r.
Qed.

Lemma emits_readResponse c conn (rpcCall : call Req) :
  reads -> emits P (readResponse (Resp := Resp) c conn rpcCall).
Proof.
  intros Hr. unfold readResponse, ReadFull.
  repeat first [apply emits_checkRpcHeader | apply emits_readDelimited_response
               | emits_tac].
Qed.

Lemma emits_receiveSaslMessage c conn :
  deadline -> reads -> emits P (receiveSaslMessage (Resp := Resp) c conn).
Proof.
  intros Hd Hr. unfold receiveSaslMessage, SetDeadline.
  repeat first [apply emits_checkSaslRpcHeader | emits_tac].
Qed.

Lemma emits_negotiateSimpleTokenAuth c conn :
  deadline -> writes -> reads ->
  emits P (negotiateSimpleTokenAuth (Resp := Resp) ext c conn).
Proof.
  intros Hd Hw Hr. unfold negotiateSimpleTokenAuth.
  repeat first [apply emits_sendSaslMessage; assumption
               | apply emits_receiveSaslMessage; assumption
               | emits_tac].
Qed.

Lemma emits_setupConnection c :
  (forall a t, P (EvDial a t)) -> (forall b, P (EvSetNoDelay b)) ->
  emits P (setupConnection (Resp := Resp) c).
Proof. intros Hdial Hnd. unfold setupConnection. repeat emits_tac. Qed.

Lemma emits_getConnection c cid :
  (forall a t, P (EvDial a t)) -> (forall b, P (EvSetNoDelay b)) ->
  deadline -> writes -> reads ->
  emits P (getConnection (Resp := Resp) ext c cid).
Proof.
  intros Hdial Hnd Hd Hw Hr. unfold getConnection.
  repeat first [apply emits_setupConnection; assumption
               | apply emits_writeConnectionHeader; assumption
               | apply emits_writeConnectionContext; assumption
               | apply emits_negotiateSimpleTokenAuth; assumption
               | emits_tac].
Qed.

End EngineEmits.

Lemma bind_inv_Ok {Resp A B} (m : M Resp A) (f : A -> M Resp B) w b w' :
  bind m f w = (Ok b, w') -> exists a w0, m w = (Ok a, w0) /\ f a w0 = (Ok b, w').
Proof.
  unfold bind. destruct (m w) as [[a|e|msg|] w0]; intros E; try discriminate. eauto.
Qed.

Lemma ReadFull_loop_length {Resp} (rounds min : nat) :
  forall buf (w w' : world Resp) bs,
    (length buf <= min)%nat ->
    ReadFull_loop rounds min buf w = (Ok bs, w') -> length bs = min.
Proof.
  induction rounds as [|k IH]; intros buf w w' bs Hle; simpl.
  - destruct (Nat.leb_spec min (length buf)); intros E; inversion E; subst; lia.
  - destruct (Nat.leb_spec min (length buf)).
    + intros E; inversion E; subst; lia.
    + destruct (conn_Read _ w) as [[got|e|msg|] w0]; try discriminate.
      apply IH. rewrite length_app, length_take. lia.
Qed.

Lemma ReadFull_length {Resp} (n : nat) (w w' : world Resp) bs :
  ReadFull n w = (Ok bs, w') -> length bs = n.
Proof. apply ReadFull_loop_length. simpl. lia. Qed.

(** A read of at least one byte returns at least one byte or fails, and
    [ReadFull] always returns: its rounds suffice. *)
Lemma conn_Read_outcome {Resp} (n : nat) (w : world Resp) :
  (exists got, fst (conn_Read n w) = Ok got /\ ((0 < n)%nat -> got <> []))
  \/ (exists e, fst (conn_Read n w) = Err e).
Proof.
  unfold conn_Read. destruct (injected w); [right; eauto|].
  destruct n; [left; eexists; split; [reflexivity | lia]|].
  destruct (inbox w) as [|[|x seg] rest]; [right; eauto | right; eauto |].
  left. eexists. split; [reflexivity | discriminate].
Qed.

Lemma ReadFull_loop_returns {Resp} (rounds min : nat) :
  forall buf (w : world Resp),
    (min - length buf <= rounds)%nat ->
    fst (ReadFull_loop rounds min buf w) <> Diverge.
Proof.
  induction rounds as [|k IH]; intros buf w Hle; simpl;
    destruct (Nat.leb_spec min (length buf)); try discriminate; [lia|].
  destruct (conn_Read_outcome (Nat.max (min - length buf) bufioSize) w)
    as [(got & E & Hgot)|(e & E)];
    destruct (conn_Read _ w) as [[got'|e'|msg|] w0]; simpl in E; try discriminate.
  inversion E; subst got'. apply IH.
  assert (got <> []) by (apply Hgot; unfold bufioSize; lia).
  rewrite length_app, length_take. destruct got; [congruence | simpl; lia].
Qed.

Lemma ReadFull_returns {Resp} (n : nat) (w : world Resp) :
  fst (ReadFull n w) <> Diverge.
Proof. apply ReadFull_loop_returns. simpl. lia. Qed.

(** The buffered reads leave the caller's response message alone. *)
Lemma conn_Read_response {Resp} (n : nat) (w : world Resp) :
  response (snd (conn_Read n w)) = response w.
Proof.
  unfold conn_Read. destruct (injected w); [reflexivity|].
  destruct n; [reflexivity|]. destruct (inbox w) as [|[|x seg] rest]; reflexivity.
Qed.

Lemma ReadFull_loop_response {Resp} (rounds min : nat) :
  forall buf (w : world Resp),
    response (snd (ReadFull_loop rounds min buf w)) = response w.
Proof.
  induction rounds as [|k IH]; intros buf w; simpl.
  - destruct (min <=? length buf)%nat; reflexivity.
  - destruct (min <=? length buf)%nat; [reflexivity|].
    pose proof (conn_Read_response (Nat.max (min - length buf) bufioSize) w) as E.
    destruct (conn_Read _ w) as [[got|e|msg|] w0]; simpl in *; try assumption.
    now rewrite IH.
Qed.

Lemma ConvertBytesToFixed_range (b : list byte) :
  - 2 ^ 31 <= ConvertBytesToFixed b < 2 ^ 31.
Proof.
  unfold ConvertBytesToFixed, to_int32.
  pose proof (Z.mod_pos_bound (be_uint32 b + 2 ^ 31) (2 ^ 32)). lia.
Qed.

Section Receive.
Context {Req Resp : Type}.
Context `{!ProtoMessage RpcResponseHeaderProto, !ProtoMessage Resp}.

(** [readResponse] once the frame is in and its header is decoded: what is
    left is the check of the header and the dispatch on its status. *)
Lemma readResponse_header (c : Client) conn (rpcCall : call Req)
    (w w1 w2 : world Resp) got bs off hdr :
  conn_Read 4 w = (Ok got, w1) ->
  0 <= ConvertBytesToFixed (stored got (zeros 4)) ->
  ReadFull (Z.to_nat (ConvertBytesToFixed (stored got (zeros 4)))) w1 = (Ok bs, w2) ->
  readDelimited bs emptyResponseHeader = (Ok off, hdr) ->
  readResponse c conn rpcCall w =
    (checkRpcHeader c hdr;;
     status <- deref (rsp_Status hdr);;
     if decide (status = SUCCESS) then
       match slice_range bs off (len bs) with
       | None => panic sliceBounds
       | Some rest => _ <- readDelimited_response rest;; ret tt
       end
     else fail (strings_Join (errorDetails hdr status) ":")) w2.
Proof.
  intros Hread Hnn Hfull Hdec. unfold readResponse.
  rewrite (bind_Ok _ _ _ _ _ Hread).
  destruct (Z.ltb_spec (ConvertBytesToFixed (stored got (zeros 4))) 0) as [|_]; [lia|].
  rewrite (bind_Ok _ _ _ _ _ Hfull).
  pose proof (ReadFull_length _ _ _ _ Hfull) as Hlen.
  pose proof (ConvertBytesToFixed_range (stored got (zeros 4))) as Hrange.
  assert (Hl : to_int32 (len bs) = ConvertBytesToFixed (stored got (zeros 4))).
  { unfold len. rewrite Hlen, Z2Nat.id by lia. apply to_int32_small. lia. }
  rewrite Hl, Z.eqb_refl. simpl negb. cbv iota.
  rewrite Hdec. reflexivity.
Qed.

End Receive.

(** ** Receiving a response *)

Section ReceiveClaims.
Context {Req Resp : Type}.
Context `{!ProtoMessage RpcResponseHeaderProto, !ProtoMessage Resp}.

(** C2. The claim: a total-length prefix of exactly 0 is handled without
    a panic and yields a framing error.  The code: the empty frame is
    passed to [readDelimited], where [ConsumeVarint] reports length -1,
    the guard [off == 0] does not apply, and [rawData[-1:-1]] panics.
    So whenever the prefix read by [readResponse] decodes to 0, the call
    ends in the panic "slice bounds out of range", not in an error. *)
Theorem readResponse_empty_frame_panics (c : Client) conn (rpcCall : call Req)
    (w w1 : world Resp) got :
  conn_Read 4 w = (Ok got, w1) ->
  ConvertBytesToFixed (stored got (zeros 4)) = 0 ->
  readResponse c conn rpcCall w = (Panic sliceBounds, w1).
Proof.
  intros Hread Hzero. unfold readResponse.
  rewrite (bind_Ok _ _ _ _ _ Hread), Hzero. reflexivity.
Qed.

(** C4. The claim: a present client id that differs from the caller's is
    always rejected and the payload is not decoded.  The code compares
    only [headerClientId[0:16]]: a client id that continues past the
    caller's sixteen bytes passes the check, and with status SUCCESS the
    payload is decoded into the caller's response message. *)
Theorem readResponse_accepts_longer_clientId (c : Client) conn (rpcCall : call Req)
    (w w1 w2 : world Resp) got bs off hdr u s extra rest :
  conn_Read 4 w = (Ok got, w1) ->
  0 <= ConvertBytesToFixed (stored got (zeros 4)) ->
  ReadFull (Z.to_nat (ConvertBytesToFixed (stored got (zeros 4)))) w1 = (Ok bs, w2) ->
  readDelimited bs emptyResponseHeader = (Ok off, hdr) ->
  c_ClientId c = Some u ->
  rsp_ClientId hdr = Some s ->
  sl_data s = uuid_bytes u ++ extra ->
  extra <> [] ->
  rsp_Status hdr = Some SUCCESS ->
  slice_range bs off (len bs) = Some rest ->
  sl_data s <> uuid_bytes u
  /\ checkRpcHeader c hdr w2 = (Ok tt, w2)
  /\ readResponse c conn rpcCall w = (_ <- readDelimited_response rest;; ret tt) w2.
Proof.
  intros Hread Hnn Hfull Hdec Hc Hid Hs Hextra Hst Hrest.
  assert (Hcheck : checkRpcHeader c hdr w2 = (Ok tt, w2)).
  { unfold checkRpcHeader. rewrite Hc, Hid. cbn [deref].
    unfold bind at 1. cbn [ret].
    unfold reslice, cap. rewrite Hs, len_app.
    pose proof (uuid_len u) as Hu. pose proof (len_nonneg extra).
    pose proof (len_nonneg (sl_spare s)).
    assert (Hlu : len (uuid_bytes u) = 16) by (unfold len; rewrite Hu; reflexivity).
    rewrite Hlu.
    destruct (Z.leb_spec 16 (16 + len extra + len (sl_spare s))); [|lia].
    cbn [andb Z.leb Z.compare].
    change (Z.to_nat 16) with 16%nat.
    rewrite <- app_assoc, take_app_length' by (symmetry; exact Hu).
    rewrite firstn_all2 by lia.
    unfold bytes_Equal. rewrite bool_decide_eq_true_2 by reflexivity.
    reflexivity. }
  split; [|split].
  - rewrite Hs. intros E. apply Hextra.
    apply (f_equal (@length byte)) in E. rewrite length_app in E.
    destruct extra; [reflexivity | simpl in E; lia].
  - exact Hcheck.
  - rewrite (readResponse_header _ _ _ _ _ _ _ _ _ _ Hread Hnn Hfull Hdec).
    rewrite (bind_Ok _ _ _ _ _ Hcheck), Hst. cbn [deref].
    unfold bind at 1. cbn [ret]. rewrite Hrest.
    destruct (decide (SUCCESS = SUCCESS)); [reflexivity | congruence].
Qed.

(** C7. The claim: for a status other than SUCCESS the error is built
    from status text, exception class (or placeholder), error message (or
    placeholder) and error detail (or placeholder).  The code stores the
    three optional fields at indices 0, 1 and 2 of [errorDetails] instead
    of 1, 2 and 3: a class name replaces the status text, the message
    lands in the slot of the class placeholder, the detail in the slot of
    the message placeholder, and the detail placeholder is always there.
    What does hold: the error is returned, the payload is not decoded and
    the caller's response message is left as it was. *)
Theorem readResponse_error_status (c : Client) conn (rpcCall : call Req)
    (w w1 w2 : world Resp) got bs off hdr status :
  conn_Read 4 w = (Ok got, w1) ->
  0 <= ConvertBytesToFixed (stored got (zeros 4)) ->
  ReadFull (Z.to_nat (ConvertBytesToFixed (stored got (zeros 4)))) w1 = (Ok bs, w2) ->
  readDelimited bs emptyResponseHeader = (Ok off, hdr) ->
  checkRpcHeader c hdr w2 = (Ok tt, w2) ->
  rsp_Status hdr = Some status ->
  status <> SUCCESS ->
  readResponse c conn rpcCall w = (Err (strings_Join (errorDetails hdr status) ":"), w2)
  /\ response w2 = response w
  /\ errorDetails hdr status =
       [default (RpcStatusProto_String status) (rsp_ExceptionClassName hdr);
        default "ServerDidNotSetExceptionClassName" (rsp_ErrorMsg hdr);
        default "ServerDidNotSetErrorMsg" (rsp_ErrorDetail hdr);
        "ServerDidNotSetErrorDetail"].
Proof.
  intros Hread Hnn Hfull Hdec Hcheck Hst Hne. split; [|split].
  - rewrite (readResponse_header _ _ _ _ _ _ _ _ _ _ Hread Hnn Hfull Hdec).
    rewrite (bind_Ok _ _ _ _ _ Hcheck), Hst. cbn [deref].
    unfold bind at 1. cbn [ret].
    destruct (decide (status = SUCCESS)); [contradiction | reflexivity].
  - pose proof (conn_Read_response 4 w) as E1. rewrite Hread in E1.
    pose proof (ReadFull_loop_response
                  (Z.to_nat (ConvertBytesToFixed (stored got (zeros 4))))
                  (Z.to_nat (ConvertBytesToFixed (stored got (zeros 4)))) [] w1) as E2.
    fold (ReadFull (Resp := Resp) (Z.to_nat (ConvertBytesToFixed (stored got (zeros 4)))))
      in E2.
    rewrite Hfull in E2. simpl in E1, E2. congruence.
  - unfold errorDetails.
    destruct (rsp_ExceptionClassName hdr), (rsp_ErrorMsg hdr), (rsp_ErrorDetail hdr);
      reflexivity.
Qed.

(** C10. A response header whose client id is present with fewer than
    sixteen bytes of capacity (the decoder gives a zero-length field
    capacity 0) makes [checkRpcHeader] panic on [headerClientId[0:16]]. *)
Theorem checkRpcHeader_short_clientId_panics (c : Client) (u : UUID) (w : world Resp) :
  c_ClientId c = Some u ->
  exists hdr,
    rsp_ClientId hdr = Some (GoSlice [] [])
    /\ checkRpcHeader c hdr w = (Panic sliceBounds, w).
Proof.
  intros Hc.
  exists {| rsp_Status := Some SUCCESS; rsp_ExceptionClassName := None;
            rsp_ErrorMsg := None; rsp_ErrorDetail := None;
            rsp_ClientId := Some (GoSlice [] []) |}.
  split; [reflexivity|].
  unfold checkRpcHeader. rewrite Hc. reflexivity.
Qed.

(** The same for every client id whose capacity is below sixteen. *)
Lemma checkRpcHeader_small_capacity_panics (c : Client) (u : UUID) hdr s (w : world Resp) :
  c_ClientId c = Some u ->
  rsp_ClientId hdr = Some s ->
  cap s < 16 ->
  checkRpcHeader c hdr w = (Panic sliceBounds, w).
Proof.
  intros Hc Hid Hcap. unfold checkRpcHeader. rewrite Hc, Hid. cbn [deref].
  unfold bind at 1. cbn [ret]. unfold reslice.
  destruct (Z.leb_spec 16 (cap s)); [lia|]. reflexivity.
Qed.

(** A client id of exactly sixteen bytes that differs from the caller's is
    rejected. *)
Lemma checkRpcHeader_rejects_16 (c : Client) (u : UUID) hdr s (w : world Resp) :
  c_ClientId c = Some u ->
  rsp_ClientId hdr = Some s ->
  length (sl_data s) = 16%nat ->
  sl_data s <> uuid_bytes u ->
  checkRpcHeader c hdr w = (Err "Incorrect clientId", w).
Proof.
  intros Hc Hid Hlen Hne. unfold checkRpcHeader. rewrite Hc, Hid. cbn [deref].
  unfold bind at 1. cbn [ret]. unfold reslice, cap, len. rewrite Hlen.
  pose proof (len_nonneg (sl_spare s)) as Hs. unfold len in Hs.
  destruct (Z.leb_spec 16 (Z.of_nat 16 + Z.of_nat (length (sl_spare s)))); [|lia].
  cbn [andb Z.leb Z.compare]. change (Z.to_nat 16) with 16%nat.
  rewrite take_app_length' by (symmetry; exact Hlen).
  rewrite firstn_all2 by (rewrite (uuid_len u); lia).
  unfold bytes_Equal. rewrite bool_decide_eq_false_2 by congruence.
  reflexivity.
Qed.

End ReceiveClaims.

(** C3. The claim: a buffer that starts with a varint which does not end
    within the buffer makes [readDelimited] signal an error, never a panic.
    The code: [ConsumeVarint] reports a negative length, which the guard
    [off == 0] does not catch, and the slice expression
    [rawData[off : off+int(headerLength)]] panics with a negative bound.
    This holds for every buffer whose leading bytes, up to the ten a varint
    may span, all carry the continuation bit; the empty buffer is one. *)
Theorem readDelimited_unterminated_varint_panics {T} `{!ProtoMessage T}
    (rawData : list byte) (msg : T) :
  Forall (fun y => 128 <= byte_val y) (take 10 rawData) ->
  readDelimited rawData msg = (Panic sliceBounds, msg).
Proof.
  intros Hall. apply readDelimited_undecodable.
  apply ConsumeVarint_loop_unterminated; [lia | exact Hall].
Qed.

(** ** Sending a frame *)


Lemma exactTotalLength_bytes (parts : list (list byte)) :
  exactTotalLength parts = len (delimitedParts parts).
Proof.
  unfold delimitedParts. induction parts as [|p ps IH]; simpl; [reflexivity|].
  rewrite !len_app, IH. lia.
Qed.

Lemma exactTotalLength_nonneg (parts : list (list byte)) : 0 <= exactTotalLength parts.
Proof. rewrite exactTotalLength_bytes. apply len_nonneg. Qed.

Lemma sizeVarint_boundary :
  sizeVarint 127 = Some 1 /\ sizeVarint 128 = Some 2
  /\ AppendVarint 127 = [x7f] /\ AppendVarint 128 = [x80; x01]
  /\ sizeVarint 16383 = Some 2 /\ sizeVarint 16384 = Some 3.
Proof. repeat split; reflexivity. Qed.

(** The field depends on the total length modulo 2^32 only. *)
Lemma to_int32_mod (z : Z) : to_int32 z mod 2 ^ 32 = z mod 2 ^ 32.
Proof.
  unfold to_int32. rewrite Zminus_mod_idemp_l. f_equal. lia.
Qed.

Lemma to_int_mod (z : Z) : to_int z mod 2 ^ 32 = z mod 2 ^ 32.
Proof.
  assert (Hd : (2 ^ 32 | 2 ^ 64)) by (exists (2 ^ 32); reflexivity).
  unfold to_int.
  rewrite <- (Z.mod_mod_divide _ (2 ^ 64) (2 ^ 32)) by exact Hd.
  rewrite Zminus_mod_idemp_l.
  rewrite Z.mod_mod_divide by exact Hd.
  f_equal. lia.
Qed.

Lemma ConvertFixedToBytes_wrap (z : Z) :
  ConvertFixedToBytes (to_int32 (to_int z)) = ConvertFixedToBytes z.
Proof.
  unfold ConvertFixedToBytes. now rewrite to_int32_mod, to_int_mod.
Qed.

Lemma sizeVarintM_len {Resp} (part : list byte) (w : world Resp) :
  len part < 2 ^ 63 ->
  sizeVarintM (len part) w = (Ok (len (AppendVarint (len part))), w).
Proof.
  intros Hlt. unfold sizeVarintM.
  rewrite sizeVarint_AppendVarint by (pose proof (len_nonneg part); lia).
  reflexivity.
Qed.

Section Send.
Context {Req Resp : Type}.
Context `{!ProtoMessage RpcRequestHeaderProto,
          !ProtoMessage IpcConnectionContextProto,
          !ProtoMessage RequestHeaderProto,
          !ProtoMessage RpcSaslProto,
          !ProtoMessage Req}.
Variable ext : Externals.


Lemma sendRequest_frame (c : Client) conn (rpcCall : call Req) (w : world Resp) u a b p :
  c_ClientId c = Some u ->
  Marshal {| req_RpcKind := RPC_PROTOCOL_BUFFFER ext; req_RpcOp := RPC_FINAL_PACKET ext;
             req_CallId := callId rpcCall; req_ClientId := uuid_bytes u;
             req_RetryCount := retryCount rpcCall |} = Ok a ->
  Marshal (procedure rpcCall) = Ok b ->
  Marshal (request rpcCall) = Ok p ->
  len a < 2 ^ 63 -> len b < 2 ^ 63 -> len p < 2 ^ 63 ->
  sendRequest ext c conn rpcCall w =
    (SetDeadline rwDefaultTimeout;;
     Write (ConvertFixedToBytes (exactTotalLength [a; b; p]));;
     writeParts conn [a; b; p]) w.
Proof.
  intros Hc Ha Hb Hp La Lb Lp. unfold sendRequest.
  apply bind_ext. intros [] w'.
  rewrite Hc. cbn [deref]. unfold bind at 1. cbn [ret].
  rewrite Ha, Hb, Hp.
  unfold bind at 1. cbn [lift]. unfold bind at 1. cbn [lift].
  unfold bind at 1. cbn [lift].
  rewrite (bind_Ok _ _ _ _ _ (sizeVarintM_len a w' La)).
  rewrite (bind_Ok _ _ _ _ _ (sizeVarintM_len b w' Lb)).
  rewrite (bind_Ok _ _ _ _ _ (sizeVarintM_len p w' Lp)).
  rewrite ConvertFixedToBytes_wrap. cbn [writeParts exactTotalLength fold_right].
  do 3 f_equal. lia.
Qed.

Lemma writeConnectionContext_frame (c : Client) conn cid auth (w : world Resp) u a b :
  c_ClientId c = Some u ->
  Marshal {| req_RpcKind := RPC_PROTOCOL_BUFFFER ext; req_RpcOp := RPC_FINAL_PACKET ext;
             req_CallId := -3; req_ClientId := uuid_bytes u;
             req_RetryCount := RPC_DEFAULT_RETRY_COUNT ext |} = Ok a ->
  Marshal {| ctx_UserInfo := CreateSimpleUGIProto ext;
             ctx_Protocol := Some (cid_protocol cid) |} = Ok b ->
  len a < 2 ^ 63 -> len b < 2 ^ 63 ->
  writeConnectionContext ext c conn cid auth w =
    (SetDeadline rwDefaultTimeout;;
     Write (ConvertFixedToBytes (exactTotalLength [a; b]));;
     writeParts conn [a; b]) w.
Proof.
  intros Hc Ha Hb La Lb. unfold writeConnectionContext.
  apply bind_ext. intros [] w'.
  rewrite Hc. cbn [deref]. unfold bind at 1. cbn [ret].
  rewrite Ha, Hb.
  unfold bind at 1. cbn [lift]. unfold bind at 1. cbn [lift].
  rewrite (bind_Ok _ _ _ _ _ (sizeVarintM_len a w' La)).
  rewrite (bind_Ok _ _ _ _ _ (sizeVarintM_len b w' Lb)).
  rewrite ConvertFixedToBytes_wrap. cbn [writeParts exactTotalLength fold_right].
  do 3 f_equal. lia.
Qed.

Lemma sendSaslMessage_frame (c : Client) conn message (w : world Resp) a b :
  Marshal {| req_RpcKind := RPC_PROTOCOL_BUFFFER ext; req_RpcOp := RPC_FINAL_PACKET ext;
             req_CallId := SASL_RPC_CALL_ID; req_ClientId := SASL_RPC_DUMMY_CLIENT_ID;
             req_RetryCount := SASL_RPC_INVALID_RETRY_COUNT |} = Ok a ->
  Marshal message = Ok b ->
  len a < 2 ^ 63 -> len b < 2 ^ 63 ->
  sendSaslMessage ext c conn message w =
    (SetDeadline rwDefaultTimeout;;
     Write (ConvertFixedToBytes (exactTotalLength [a; b]));;
     writeParts conn [a; b]) w.
Proof.
  intros Ha Hb La Lb. unfold sendSaslMessage.
  rewrite Ha, Hb.
  unfold bind at 1. cbn [lift]. unfold bind at 1. cbn [lift].
  rewrite (bind_Ok _ _ _ _ _ (sizeVarintM_len a w La)).
  rewrite (bind_Ok _ _ _ _ _ (sizeVarintM_len b w Lb)).
  rewrite ConvertFixedToBytes_wrap. cbn [writeParts exactTotalLength fold_right].
  apply bind_ext. intros [] w'. do 3 f_equal. lia.
Qed.

End Send.

Lemma exactTotalLength_part_bound (parts : list (list byte)) (part : list byte) :
  In part parts -> len part <= exactTotalLength parts.
Proof.
  induction parts as [|q qs IH]; simpl; [tauto|].
  pose proof (len_nonneg (AppendVarint (len q))).
  pose proof (len_nonneg q). pose proof (exactTotalLength_nonneg qs).
  intros [->|Hin]; [lia | specialize (IH Hin); lia].
Qed.

Lemma total_length_roundtrip (parts : list (list byte)) :
  exactTotalLength parts <= 2 ^ 31 - 1 ->
  ConvertBytesToFixed (ConvertFixedToBytes (exactTotalLength parts)) = exactTotalLength parts.
Proof.
  intros Hfit. rewrite ConvertBytesToFixed_ConvertFixedToBytes.
  apply to_int32_small. pose proof (exactTotalLength_nonneg parts). lia.
Qed.

(** C6, as the code has it.  Each of the three send functions arms the
    deadline, writes the total-length field and then every part behind the
    varint of its length.  When the sum over the parts of varint size plus
    length fits a signed 32-bit integer, the field read back as a big-endian
    int32 is exactly that sum, which is the number of bytes that follow it:
    [sizeVarint] agrees with the varint actually written at every size
    class.  (Beyond 2^31-1 the conversion [int32(totalLength)] wraps.) *)
Theorem total_length_field_exact {Req Resp : Type}
    `{!ProtoMessage RpcRequestHeaderProto, !ProtoMessage IpcConnectionContextProto,
      !ProtoMessage RequestHeaderProto, !ProtoMessage RpcSaslProto, !ProtoMessage Req}
    (ext : Externals) (conn : connection) (w : world Resp) :
  (forall (c : Client) (rpcCall : call Req) u a b p,
      c_ClientId c = Some u ->
      Marshal {| req_RpcKind := RPC_PROTOCOL_BUFFFER ext;
                 req_RpcOp := RPC_FINAL_PACKET ext;
                 req_CallId := callId rpcCall; req_ClientId := uuid_bytes u;
                 req_RetryCount := retryCount rpcCall |} = Ok a ->
      Marshal (procedure rpcCall) = Ok b ->
      Marshal (request rpcCall) = Ok p ->
      exactTotalLength [a; b; p] <= 2 ^ 31 - 1 ->
      sendRequest ext c conn rpcCall w =
        (SetDeadline rwDefaultTimeout;;
         Write (ConvertFixedToBytes (exactTotalLength [a; b; p]));;
         writeParts conn [a; b; p]) w
      /\ ConvertBytesToFixed (ConvertFixedToBytes (exactTotalLength [a; b; p]))
         = len (delimitedParts [a; b; p]))
  /\ (forall (c : Client) cid auth u a b,
      c_ClientId c = Some u ->
      Marshal {| req_RpcKind := RPC_PROTOCOL_BUFFFER ext;
                 req_RpcOp := RPC_FINAL_PACKET ext;
                 req_CallId := -3; req_ClientId := uuid_bytes u;
                 req_RetryCount := RPC_DEFAULT_RETRY_COUNT ext |} = Ok a ->
      Marshal {| ctx_UserInfo := CreateSimpleUGIProto ext;
                 ctx_Protocol := Some (cid_protocol cid) |} = Ok b ->
      exactTotalLength [a; b] <= 2 ^ 31 - 1 ->
      writeConnectionContext ext c conn cid auth w =
        (SetDeadline rwDefaultTimeout;;
         Write (ConvertFixedToBytes (exactTotalLength [a; b]));;
         writeParts conn [a; b]) w
      /\ ConvertBytesToFixed (ConvertFixedToBytes (exactTotalLength [a; b]))
         = len (delimitedParts [a; b]))
  /\ (forall (c : Client) message a b,
      Marshal {| req_RpcKind := RPC_PROTOCOL_BUFFFER ext;
                 req_RpcOp := RPC_FINAL_PACKET ext;
                 req_CallId := SASL_RPC_CALL_ID; req_ClientId := SASL_RPC_DUMMY_CLIENT_ID;
                 req_RetryCount := SASL_RPC_INVALID_RETRY_COUNT |} = Ok a ->
      Marshal message = Ok b ->
      exactTotalLength [a; b] <= 2 ^ 31 - 1 ->
      sendSaslMessage ext c conn message w =
        (SetDeadline rwDefaultTimeout;;
         Write (ConvertFixedToBytes (exactTotalLength [a; b]));;
         writeParts conn [a; b]) w
      /\ ConvertBytesToFixed (ConvertFixedToBytes (exactTotalLength [a; b]))
         = len (delimitedParts [a; b])).
Proof.
  split; [|split].
  - intros c rpcCall u a b p Hc Ha Hb Hp Hfit.
    pose proof (exactTotalLength_part_bound [a; b; p] a ltac:(simpl; tauto)).
    pose proof (exactTotalLength_part_bound [a; b; p] b ltac:(simpl; tauto)).
    pose proof (exactTotalLength_part_bound [a; b; p] p ltac:(simpl; tauto)).
    split.
    + apply (sendRequest_frame ext c conn rpcCall w u a b p); auto; lia.
    + rewrite total_length_roundtrip by exact Hfit. apply exactTotalLength_bytes.
  - intros c cid auth u a b Hc Ha Hb Hfit.
    pose proof (exactTotalLength_part_bound [a; b] a ltac:(simpl; tauto)).
    pose proof (exactTotalLength_part_bound [a; b] b ltac:(simpl; tauto)).
    split.
    + apply (writeConnectionContext_frame ext c conn cid auth w u a b); auto; lia.
    + rewrite total_length_roundtrip by exact Hfit. apply exactTotalLength_bytes.
  - intros c message a b Ha Hb Hfit.
    pose proof (exactTotalLength_part_bound [a; b] a ltac:(simpl; tauto)).
    pose proof (exactTotalLength_part_bound [a; b] b ltac:(simpl; tauto)).
    split.
    + apply (sendSaslMessage_frame ext c conn message w a b); auto; lia.
    + rewrite total_length_roundtrip by exact Hfit. apply exactTotalLength_bytes.
Qed.


(** ** The handshake and the call *)


Lemma written_app (l k : list event) : written (l ++ k) = written l ++ written k.
Proof. unfold written. apply flat_map_app. Qed.

Lemma written_no_write (l : list event) :
  Forall (fun ev => forall data, ev <> EvWrite data) l -> written l = [].
Proof.
  induction 1 as [|ev l Hev _ IH]; [reflexivity|].
  unfold written in *. simpl. rewrite IH.
  destruct ev; try reflexivity. now destruct (Hev data).
Qed.


Lemma no_close_not_In (evs : list event) : Forall no_close evs -> ~ In EvClose evs.
Proof.
  intros Hall Hin. rewrite Forall_forall in Hall.
  apply list_elem_of_In in Hin. now apply (Hall EvClose Hin).
Qed.

(** The five dereferences at the head of [Call]. *)
Ltac enter_Call Hugi Huser Hrpc Hproto Hid :=
  rewrite Hugi; cbn [deref]; unfold bind at 1; cbn [ret];
  rewrite Huser; cbn [deref]; unfold bind at 1; cbn [ret];
  rewrite Hrpc; cbn [deref]; unfold bind at 1; cbn [ret];
  rewrite Hproto; cbn [deref]; unfold bind at 1; cbn [ret];
  rewrite Hid; cbn [deref]; unfold bind at 1; cbn [ret].

Section Handshake.
Context {Req Resp : Type}.
Context `{!ProtoMessage RpcRequestHeaderProto,
          !ProtoMessage IpcConnectionContextProto,
          !ProtoMessage RequestHeaderProto,
          !ProtoMessage RpcSaslProto,
          !ProtoMessage RpcResponseHeaderProto,
          !ProtoMessage Req,
          !ProtoMessage Resp}.
Variable ext : Externals.


(** C5. Once the NEGOTIATE request is out and its response is in: an
    offer of no mechanism fails the negotiation; an offer whose first
    mechanism is not TOKEN with DIGEST-MD5 fails it with the
    unsupported-mechanism error whatever else is offered; in both cases
    the run ends in the world in which the response arrived, and that
    world has the same writes as the one in which the request had just
    been sent, so no INITIATE went out; and a failed negotiation fails
    [getConnection] in that same world, with no connection context
    written and no unauthenticated retry. *)
Theorem negotiate_rejects_offer (c : Client) (con : connection)
    (w1 w2 w3 : world Resp) (offer : RpcSaslProto) :
  sendSaslMessage ext c con saslNegotiateMessage w1 = (Ok tt, w2) ->
  receiveSaslMessage c con w2 = (Ok offer, w3) ->
  written (log w3) = written (log w2)
  /\ (GetAuths offer = [] ->
      negotiateSimpleTokenAuth ext c con w1 = (Err "No supported auth mechanisms!", w3))
  /\ (forall auth more,
        GetAuths offer = auth :: more ->
        ~ (GetMethod auth = "TOKEN" /\ GetMechanism auth = "DIGEST-MD5") ->
        negotiateSimpleTokenAuth ext c con w1
        = (Err "yarnauth only supports TOKEN/DIGEST-MD5 auth!", w3))
  /\ (forall e w w0 w' cid,
        setupConnection c w = (Ok con, w0) ->
        snd (findUsableTokenForService ext (c_ServerAddress c)) = true ->
        writeConnectionHeader ext con AUTH_PROTOCOL_SASL w0 = (Ok tt, w1) ->
        negotiateSimpleTokenAuth ext c con w1 = (Err e, w') ->
        getConnection ext c cid w = (Err e, w')).
Proof.
  intros Hsend Hrecv. split; [|split; [|split]].
  - destruct (emits_receiveSaslMessage (fun ev => forall data, ev <> EvWrite data)
                c con ltac:(discriminate) ltac:(discriminate) w2) as (evs & E & Hevs).
    rewrite Hrecv in E. simpl in E.
    rewrite E, written_app, (written_no_write evs Hevs). apply app_nil_r.
  - intros Hnone. unfold negotiateSimpleTokenAuth.
    fold saslNegotiateMessage.
    rewrite (bind_Ok _ _ _ _ _ Hsend), (bind_Ok _ _ _ _ _ Hrecv), Hnone.
    reflexivity.
  - intros auth more Hoffer Hnot. unfold negotiateSimpleTokenAuth.
    fold saslNegotiateMessage.
    rewrite (bind_Ok _ _ _ _ _ Hsend), (bind_Ok _ _ _ _ _ Hrecv), Hoffer.
    destruct (Z.leb_spec (len (auth :: more)) 0) as [Hle|_].
    { rewrite len_cons in Hle. pose proof (len_nonneg more). lia. }
    cbn [lookup list_lookup].
    destruct (String.eqb_spec (GetMethod auth) "TOKEN") as [Hm|_];
      destruct (String.eqb_spec (GetMechanism auth) "DIGEST-MD5") as [Hk|_];
      try reflexivity.
    destruct Hnot. now split.
  - intros e w w0 w' cid Hsetup Htoken Hheader Hneg. unfold getConnection.
    rewrite (bind_Ok _ _ _ _ _ Hsetup), Htoken.
    rewrite (bind_Ok _ _ _ _ _ Hheader).
    destruct (decide (AUTH_PROTOCOL_SASL = AUTH_PROTOCOL_SASL)); [|congruence].
    now rewrite (bind_Err _ _ _ _ _ Hneg).
Qed.

(** C1. The claim: the connection, once open, is closed before [Call]
    returns on every path.  The code closes it after [readResponse] only:
    when [getConnection] has returned the open connection and
    [sendRequest] fails, [Call] returns that error at once, and nothing
    it has done on the socket is a Close. *)
Theorem Call_send_failure_leaves_connection_open (c : Client) rpc (rpcRequest : Req)
    (w w1 w2 : world Resp) ugi user header protocol clientId conn e :
  c_Ugi c = Some ugi ->
  RealUser ugi = Some user ->
  rpc = Some header ->
  DeclaringClassProtocolName header = Some protocol ->
  c_ClientId c = Some clientId ->
  getConnection ext c
    {| cid_user := user; cid_protocol := protocol; cid_address := c_ServerAddress c;
       cid_ClientId := clientId |} w = (Ok conn, w1) ->
  sendRequest ext c conn
    {| callId := 0; procedure := header; request := rpcRequest; retryCount := 0 |} w1
    = (Err e, w2) ->
  Call ext c rpc rpcRequest w = (Err e, w2)
  /\ exists evs, log w2 = log w ++ evs /\ ~ In EvClose evs.
Proof.
  intros Hugi Huser Hrpc Hproto Hid Hconn Hsend. split.
  - unfold Call. enter_Call Hugi Huser Hrpc Hproto Hid.
    rewrite (bind_Ok _ _ _ _ _ Hconn).
    now rewrite (bind_Err _ _ _ _ _ Hsend).
  - destruct (emits_getConnection ext no_close c
                {| cid_user := user; cid_protocol := protocol;
                   cid_address := c_ServerAddress c; cid_ClientId := clientId |}
                ltac:(discriminate) ltac:(discriminate) ltac:(discriminate)
                ltac:(discriminate) ltac:(discriminate) w) as (evs1 & E1 & H1).
    destruct (emits_sendRequest ext no_close c conn
                {| callId := 0; procedure := header; request := rpcRequest;
                   retryCount := 0 |}
                ltac:(discriminate) ltac:(discriminate) w1) as (evs2 & E2 & H2).
    rewrite Hconn in E1. rewrite Hsend in E2. simpl in E1, E2.
    exists (evs1 ++ evs2). split.
    + now rewrite E2, E1, app_assoc.
    + apply no_close_not_In. apply Forall_app. now split.
Qed.

(** The same when the handshake fails on the open connection. *)
Lemma Call_handshake_failure_leaves_connection_open (c : Client) rpc (rpcRequest : Req)
    (w w0 w1 : world Resp) ugi user header protocol clientId conn e :
  c_Ugi c = Some ugi ->
  RealUser ugi = Some user ->
  rpc = Some header ->
  DeclaringClassProtocolName header = Some protocol ->
  c_ClientId c = Some clientId ->
  setupConnection c w = (Ok conn, w0) ->
  getConnection ext c
    {| cid_user := user; cid_protocol := protocol; cid_address := c_ServerAddress c;
       cid_ClientId := clientId |} w = (Err e, w1) ->
  Call ext c rpc rpcRequest w = (Err e, w1)
  /\ exists evs, log w1 = log w ++ evs /\ ~ In EvClose evs.
Proof.
  intros Hugi Huser Hrpc Hproto Hid Hsetup Hconn. split.
  - unfold Call. enter_Call Hugi Huser Hrpc Hproto Hid.
    now rewrite (bind_Err _ _ _ _ _ Hconn).
  - destruct (emits_getConnection ext no_close c
                {| cid_user := user; cid_protocol := protocol;
                   cid_address := c_ServerAddress c; cid_ClientId := clientId |}
                ltac:(discriminate) ltac:(discriminate) ltac:(discriminate)
                ltac:(discriminate) ltac:(discriminate) w) as (evs1 & E1 & H1).
    rewrite Hconn in E1. simpl in E1.
    exists evs1. split; [assumption | now apply no_close_not_In].
Qed.

(** Where the code does close: once the request is sent, whatever
    [readResponse] returns, the last call on the socket is Close. *)
Lemma Call_closes_after_receive (c : Client) rpc (rpcRequest : Req)
    (w w1 w2 w3 : world Resp) ugi user header protocol clientId conn r :
  c_Ugi c = Some ugi ->
  RealUser ugi = Some user ->
  rpc = Some header ->
  DeclaringClassProtocolName header = Some protocol ->
  c_ClientId c = Some clientId ->
  getConnection ext c
    {| cid_user := user; cid_protocol := protocol; cid_address := c_ServerAddress c;
       cid_ClientId := clientId |} w = (Ok conn, w1) ->
  sendRequest ext c conn
    {| callId := 0; procedure := header; request := rpcRequest; retryCount := 0 |} w1
    = (Ok tt, w2) ->
  readResponse c conn
    {| callId := 0; procedure := header; request := rpcRequest; retryCount := 0 |} w2
    = (r, w3) ->
  (forall msg, r <> Panic msg) -> r <> Diverge ->
  Call ext c rpc rpcRequest w = (r, step EvClose (inbox w3) w3).
Proof.
  intros Hugi Huser Hrpc Hproto Hid Hconn Hsend Hread Hpanic Hdiv.
  unfold Call. enter_Call Hugi Huser Hrpc Hproto Hid.
  rewrite (bind_Ok _ _ _ _ _ Hconn), (bind_Ok _ _ _ _ _ Hsend).
  unfold bind at 1, attempt. rewrite Hread.
  destruct r as [[]|e|msg|]; try reflexivity; [now destruct (Hpanic msg) | now destruct Hdiv].
Qed.

End Handshake.

Section Deadlines.
Context {Req Resp : Type}.
Context `{!ProtoMessage RpcRequestHeaderProto,
          !ProtoMessage IpcConnectionContextProto,
          !ProtoMessage RequestHeaderProto,
          !ProtoMessage RpcSaslProto,
          !ProtoMessage RpcResponseHeaderProto,
          !ProtoMessage Req,
          !ProtoMessage Resp}.
Variable ext : Externals.

(** [sendRequest] arms the deadline and then only writes. *)
Lemma sendRequest_log (c : Client) conn (rpcCall : call Req) (w : world Resp) :
  exists sent,
    log (snd (sendRequest ext c conn rpcCall w))
    = log w ++ EvSetDeadline rwDefaultTimeout :: sent
    /\ Forall is_write sent.
Proof.
  unfold sendRequest. unfold bind at 1. unfold SetDeadline at 1, conn_call at 1.
  destruct (injected w).
  { exists []. split; [reflexivity | constructor]. }
  match goal with
  | |- context [log (snd (?k ?w0))] =>
      assert (Hk : emits is_write k)
  end.
  { assert (Hw : forall data, is_write (EvWrite data)) by (intros; eexists; reflexivity).
    unfold Write.
    repeat first [apply emits_sizeVarintM | apply emits_writeDelimitedBytes; assumption
                 | emits_tac]. }
  destruct (Hk (step (EvSetDeadline rwDefaultTimeout) (inbox w) w)) as (sent & E & Hs).
  exists sent. split; [|assumption].
  rewrite E. simpl. now rewrite <- app_assoc.
Qed.

(** [readResponse] starts with the read of the prefix and arms no
    deadline at any point. *)
Lemma readResponse_log (c : Client) conn (rpcCall : call Req) (w : world Resp) :
  exists got more,
    log (snd (readResponse c conn rpcCall w)) = log w ++ EvRead 4 got :: more
    /\ Forall no_deadline more.
Proof.
  assert (Hr : forall k got, no_deadline (EvRead k got)) by (intros k got s; discriminate).
  unfold readResponse. unfold bind at 1.
  destruct (conn_Read 4 w) as [o w0] eqn:Eread.
  assert (Hlog : exists got, log w0 = log w ++ [EvRead 4 got]).
  { unfold conn_Read in Eread. destruct (injected w).
    - inversion Eread; subst. eexists. reflexivity.
    - destruct (inbox w) as [|[|x seg] rest]; inversion Eread; subst;
        eexists; reflexivity. }
  destruct Hlog as (got & Hlog).
  destruct o as [bs|e|msg|];
    try (exists got, []; split; [exact Hlog | constructor]).
  match goal with
  | |- context [log (snd (?k w0))] => assert (Hk : emits no_deadline k)
  end.
  { unfold ReadFull.
    repeat first [apply emits_checkRpcHeader | apply emits_readDelimited_response
                 | emits_tac]. }
  destruct (Hk w0) as (more & E & Hmore).
  exists got, more. split; [|assumption].
  rewrite E, Hlog. now rewrite <- app_assoc.
Qed.

(** C9. The claim: a fresh deadline is armed before every read or write
    phase, the response receive included.  The code arms one in
    [sendRequest] and none in [readResponse]: in a call that gets as far
    as sending its request, the socket sees the deadline, then the writes
    of the request, then the read of the response prefix and whatever
    follows, with no deadline armed in between or after.  The receive
    phase runs under what is left of the deadline of the send phase. *)
Theorem Call_receives_under_send_deadline (c : Client) rpc (rpcRequest : Req)
    (w w1 w2 : world Resp) ugi user header protocol clientId conn :
  c_Ugi c = Some ugi ->
  RealUser ugi = Some user ->
  rpc = Some header ->
  DeclaringClassProtocolName header = Some protocol ->
  c_ClientId c = Some clientId ->
  getConnection ext c
    {| cid_user := user; cid_protocol := protocol; cid_address := c_ServerAddress c;
       cid_ClientId := clientId |} w = (Ok conn, w1) ->
  sendRequest ext c conn
    {| callId := 0; procedure := header; request := rpcRequest; retryCount := 0 |} w1
    = (Ok tt, w2) ->
  exists sent got more,
    log (snd (Call ext c rpc rpcRequest w))
    = log w1 ++ EvSetDeadline rwDefaultTimeout :: sent ++ EvRead 4 got :: more
    /\ Forall is_write sent
    /\ Forall no_deadline more.
Proof.
  intros Hugi Huser Hrpc Hproto Hid Hconn Hsend.
  pose (rpcCall := {| callId := 0; procedure := header; request := rpcRequest;
                      retryCount := 0 |}).
  destruct (sendRequest_log c conn rpcCall w1) as (sent & Esent & Hsent).
  destruct (readResponse_log c conn rpcCall w2) as (got & more & Eread & Hmore).
  subst rpcCall. rewrite Hsend in Esent. simpl in Esent.
  unfold Call. enter_Call Hugi Huser Hrpc Hproto Hid.
  rewrite (bind_Ok _ _ _ _ _ Hconn), (bind_Ok _ _ _ _ _ Hsend).
  unfold bind at 1, attempt.
  destruct (readResponse c conn _ w2) as [[[]|e|msg|] w3]; simpl in Eread |- *.
  1,2: exists sent, got, (more ++ [EvClose]); split; [|split; [assumption|]];
    [ rewrite Eread, Esent, <- !app_assoc; reflexivity
    | apply Forall_app; split; [assumption | repeat constructor; intros s; discriminate] ].
  all: exists sent, got, more; split; [|split; assumption];
    rewrite Eread, Esent, <- !app_assoc; reflexivity.
Qed.

End Deadlines.

(** ** Short reads *)

Section ShortReads.
Context {Resp : Type}.
Context `{!ProtoMessage RpcSaslProto, !ProtoMessage RpcResponseHeaderProto}.

Lemma drop_zeros (k n : nat) : drop k (zeros n) = zeros (n - k).
Proof.
  revert n. induction k as [|k IH]; intros [|n]; simpl; try reflexivity. apply IH.
Qed.

Lemma stored_all (got : list byte) (n : nat) :
  length got = n -> stored got (zeros n) = got.
Proof.
  intros <-. unfold stored. rewrite drop_zeros, Nat.sub_diag. apply app_nil_r.
Qed.

Lemma stored_short (got : list byte) (n : nat) :
  (length got <= n)%nat -> stored got (zeros n) = got ++ zeros (n - length got).
Proof.
  intros Hle. unfold stored. now rewrite drop_zeros.
Qed.

(** A read that finds a whole segment no longer than the buffer. *)
Lemma conn_Read_segment (n : nat) (seg : list byte) segments lg (resp : Resp) :
  seg <> [] -> (length seg <= n)%nat ->
  conn_Read n (World (seg :: segments) [] lg resp)
  = (Ok seg, World segments [] (lg ++ [EvRead n seg]) resp).
Proof.
  intros Hseg Hle. destruct seg as [|x seg]; [congruence|].
  destruct n as [|n]; [simpl in Hle; lia|].
  unfold conn_Read, injected, step. cbn [faults inbox log response tail].
  rewrite take_ge, drop_ge by exact Hle. reflexivity.
Qed.


Lemma pure_lift {A} (o : outcome A) : pure (lift (Resp := Resp) o).
Proof. exists o. reflexivity. Qed.

Lemma pure_bind {A B} (m : M Resp A) (f : A -> M Resp B) :
  pure m -> (forall a, pure (f a)) -> pure (bind m f).
Proof.
  intros (o & Ho) Hf. unfold bind.
  destruct o as [a|e|msg|].
  - destruct (Hf a) as (o' & Ho'). exists o'. intros w. now rewrite Ho, Ho'.
  - exists (Err e). intros w. now rewrite Ho.
  - exists (Panic msg). intros w. now rewrite Ho.
  - exists Diverge. intros w. now rewrite Ho.
Qed.


Lemma saslFrame_pure (responseBytes : list byte) (w w' : world Resp) :
  fst (saslFrame responseBytes w) = fst (saslFrame responseBytes w')
  /\ snd (saslFrame responseBytes w) = w.
Proof.
  assert (Hpure : pure (saslFrame (Resp := Resp) responseBytes)).
  { unfold saslFrame, checkSaslRpcHeader, fail, panic, deref.
    repeat first
      [ apply pure_lift | apply pure_bind; [|intros ?]
      | match goal with
        | |- pure (match ?x with _ => _ end) => destruct x
        end ]. }
  destruct Hpure as (o & Ho). now rewrite !Ho.
Qed.

Lemma receiveSaslMessage_single_read (c : Client) conn
    (prefix seg : list byte) (segments : list (list byte)) (lg : list event)
    (resp : Resp) :
  length prefix = 4%nat ->
  seg <> [] ->
  (length seg <= Z.to_nat (ConvertBytesToFixed prefix))%nat ->
  let n := Z.to_nat (ConvertBytesToFixed prefix) in
  receiveSaslMessage c conn (World (prefix :: seg :: segments) [] lg resp)
  = saslFrame (stored seg (zeros n))
      (World segments []
         (lg ++ [EvSetDeadline rwDefaultTimeout; EvRead 4 prefix; EvRead n seg]) resp).
Proof.
  intros Hp Hseg Hle n.
  assert (Hn : (0 < n)%nat).
  { destruct seg; [congruence | simpl in Hle; subst n; lia]. }
  assert (Hnn : (ConvertBytesToFixed prefix <? 0) = false).
  { apply Z.ltb_ge. subst n. lia. }
  assert (Hpre : prefix <> []) by (intros ->; discriminate).
  unfold receiveSaslMessage, SetDeadline.
  unfold bind at 1. unfold conn_call, injected, step.
  cbn [faults inbox log response tail].
  rewrite (bind_Ok _ _ _ _ _
             (conn_Read_segment 4 prefix (seg :: segments) _ resp Hpre
                ltac:(rewrite Hp; lia))).
  rewrite (stored_all prefix 4 Hp), Hnn.
  rewrite (bind_Ok _ _ _ _ _
             (conn_Read_segment n seg segments _ resp Hseg Hle)).
  rewrite <- !app_assoc. reflexivity.
Qed.

(** C8. The claim: every receive reads exactly the four bytes of the
    prefix and exactly total-length bytes after it, retrying short reads,
    and never takes a partial frame for a whole one.  The code does so for
    the body of a call response only ([io.ReadFull]); the prefixes and the
    body of a SASL response are read with a single [Read].  When a SASL
    frame announces [n] bytes and the segment at hand holds fewer,
    [receiveSaslMessage] reads once, and answers exactly as it would had
    the peer sent those bytes followed by zeros. *)
Theorem receiveSaslMessage_takes_partial_frame (c : Client) conn
    (prefix seg : list byte) (segments : list (list byte)) (lg : list event)
    (resp : Resp) :
  length prefix = 4%nat ->
  seg <> [] ->
  (length seg < Z.to_nat (ConvertBytesToFixed prefix))%nat ->
  let n := Z.to_nat (ConvertBytesToFixed prefix) in
  fst (receiveSaslMessage c conn (World (prefix :: seg :: segments) [] lg resp))
  = fst (receiveSaslMessage c conn
           (World (prefix :: (seg ++ zeros (n - length seg)) :: segments) [] lg resp))
  /\ log (snd (receiveSaslMessage c conn (World (prefix :: seg :: segments) [] lg resp)))
     = lg ++ [EvSetDeadline rwDefaultTimeout; EvRead 4 prefix; EvRead n seg]
  /\ inbox (snd (receiveSaslMessage c conn (World (prefix :: seg :: segments) [] lg resp)))
     = segments.
Proof.
  intros Hp Hseg Hshort n.
  assert (Hfull : length (seg ++ zeros (n - length seg)) = n).
  { unfold zeros. rewrite length_app, repeat_length. subst n. lia. }
  rewrite (receiveSaslMessage_single_read c conn prefix seg segments lg resp Hp Hseg
             ltac:(lia)).
  rewrite (receiveSaslMessage_single_read c conn prefix (seg ++ zeros (n - length seg))
             segments lg resp Hp
             ltac:(destruct seg; [congruence | discriminate])
             ltac:(fold n; lia)).
  fold n.
  rewrite (stored_short seg n ltac:(lia)), (stored_all _ n Hfull).
  split; [apply saslFrame_pure|].
  rewrite (proj2 (saslFrame_pure _ _ (World segments [] lg resp))).
  split; reflexivity.
Qed.

End ShortReads.

(** ** The client run against the stand-in codec *)

Section Examples.
#[local] Existing Instance Demo.requestHeader.
#[local] Existing Instance Demo.connectionContext.
#[local] Existing Instance Demo.procedureHeader.
#[local] Existing Instance Demo.sasl.
#[local] Existing Instance Demo.responseHeader.
#[local] Existing Instance Demo.payload.

(** A successful anonymous call, written out: one deadline before the
    seven writes of the request, none before the two reads of the
    response, and the Close at the end. *)
Lemma Call_log_of_a_successful_call :
  fst (Demo.call_anonymous Demo.client Demo.rpc [x61] Demo.echo) = Ok tt
  /\ response (snd (Demo.call_anonymous Demo.client Demo.rpc [x61] Demo.echo)) = [x07; x07]
  /\ drop 13 (log (snd (Demo.call_anonymous Demo.client Demo.rpc [x61] Demo.echo)))
     = [EvSetDeadline 5;
        EvWrite [x00; x00; x00; x18];
        EvWrite [x11]; EvWrite Demo.requestHeaderBytes;
        EvWrite [x03]; EvWrite Demo.procedureBytes;
        EvWrite [x01]; EvWrite [x61];
        EvRead 4 [x00; x00; x00; x06];
        EvRead 4096 [x02; x00; x00; x02; x07; x07];
        EvClose].
Proof. repeat split; vm_compute; reflexivity. Qed.

(** C1 at a failing input: no token, the handshake goes through, and the
    write of the request's length field fails.  [Call] returns the write
    error; the log shows the dial and no Close. *)
Lemma Call_send_failure_leaves_connection_open_witness :
  fst (Demo.call_anonymous Demo.client Demo.rpc [x61] Demo.writeFails)
  = Err "write: broken pipe"
  /\ In (EvDial "rm:8032" 10)
        (log (snd (Demo.call_anonymous Demo.client Demo.rpc [x61] Demo.writeFails)))
  /\ ~ In EvClose
        (log (snd (Demo.call_anonymous Demo.client Demo.rpc [x61] Demo.writeFails))).
Proof.
  pose (w1 := snd (getConnection (Resp := list byte) Demo.anonymous Demo.client
                     Demo.connectionId Demo.writeFails)).
  pose (w2 := snd (sendRequest Demo.anonymous Demo.client TCPConn (Demo.rpcCall [x61]) w1)).
  assert (Hconn : getConnection Demo.anonymous Demo.client Demo.connectionId
                    Demo.writeFails = (Ok TCPConn, w1))
    by (vm_compute; reflexivity).
  assert (Hsend : sendRequest Demo.anonymous Demo.client TCPConn (Demo.rpcCall [x61]) w1
                  = (Err "write: broken pipe", w2))
    by (vm_compute; reflexivity).
  destruct (Call_send_failure_leaves_connection_open Demo.anonymous Demo.client Demo.rpc
              [x61] Demo.writeFails w1 w2 Demo.ugi "yarn" Demo.header
              "ApplicationClientProtocol" Demo.clientId
              TCPConn "write: broken pipe"
              eq_refl eq_refl eq_refl eq_refl eq_refl Hconn Hsend)
    as (Hcall & evs & Hlog & Hopen).
  unfold Demo.call_anonymous. rewrite Hcall. cbn [fst snd].
  split; [reflexivity|]. split.
  - vm_compute. tauto.
  - rewrite Hlog. exact Hopen.
Defined.

(** C2 at a failing input: the peer answers the request with the four
    bytes 00 00 00 00. *)
Lemma readResponse_empty_frame_panics_witness :
  readResponse Demo.client TCPConn (Demo.rpcCall [x61]) Demo.emptyFrame
  = (Panic "slice bounds out of range",
     World [] [] [EvRead 4 [x00; x00; x00; x00]] []).
Proof.
  exact (readResponse_empty_frame_panics Demo.client TCPConn (Demo.rpcCall [x61])
           Demo.emptyFrame
           (World [] [] [EvRead 4 [x00; x00; x00; x00]] []) [x00; x00; x00; x00]
           eq_refl eq_refl).
Defined.

(** C3 at a failing input: a buffer that holds the single byte 80. *)
Lemma readDelimited_unterminated_varint_panics_witness :
  Forall (fun y => 128 <= byte_val y) (take 10 [x80])
  /\ readDelimited [x80] ([] : list byte) = (Panic "slice bounds out of range", []).
Proof.
  assert (H : Forall (fun y => 128 <= byte_val y) (take 10 [x80])).
  { repeat constructor. vm_compute. discriminate. }
  split; [exact H|].
  exact (readDelimited_unterminated_varint_panics [x80] [] H).
Defined.

(** C4 at a failing input: the response header echoes the caller's
    sixteen bytes followed by one more byte; the call succeeds and the
    payload 07 07 is in the caller's response message. *)
Lemma readResponse_accepts_longer_clientId_witness :
  Demo.id17 <> uuid_bytes Demo.clientId
  /\ fst (readResponse Demo.client TCPConn (Demo.rpcCall [x61]) Demo.longerId) = Ok tt
  /\ response (snd (readResponse Demo.client TCPConn (Demo.rpcCall [x61]) Demo.longerId))
     = [x07; x07].
Proof.
  pose (w1 := snd (conn_Read 4 Demo.longerId)).
  pose (w2 := snd (ReadFull 23 w1)).
  pose (hdr := fst (Demo.header_of (x00 :: x08 :: Demo.id17))).
  assert (Hfull : ReadFull (Z.to_nat (ConvertBytesToFixed
                     (stored [x00; x00; x00; x17] (zeros 4)))) w1
                  = (Ok Demo.frame17, w2))
    by (vm_compute; reflexivity).
  assert (Hdec : readDelimited Demo.frame17 emptyResponseHeader = (Ok 20, hdr))
    by (vm_compute; reflexivity).
  destruct (readResponse_accepts_longer_clientId Demo.client TCPConn (Demo.rpcCall [x61])
              Demo.longerId w1 w2 [x00; x00; x00; x17] Demo.frame17 20 hdr Demo.clientId
              (GoSlice Demo.id17 []) [x10] [x02; x07; x07]
              eq_refl ltac:(vm_compute; discriminate) Hfull Hdec eq_refl eq_refl eq_refl
              ltac:(discriminate) eq_refl ltac:(vm_compute; reflexivity))
    as (Hne & _ & Hrun).
  split; [exact Hne|]. rewrite Hrun. split; vm_compute; reflexivity.
Defined.

(** C6: a request whose payload marshals to 128 bytes, one past the
    one-byte varint class: the field is 18 + 4 + (2 + 128). *)
Lemma total_length_field_exact_witness :
  exactTotalLength [Demo.requestHeaderBytes; Demo.procedureBytes; Demo.payload128]
  <= 2 ^ 31 - 1
  /\ sendRequest Demo.anonymous Demo.client TCPConn (Demo.rpcCall Demo.payload128)
       (Demo.start [] [] []) =
       (SetDeadline rwDefaultTimeout;;
        Write [x00; x00; x00; x98];;
        writeParts TCPConn
          [Demo.requestHeaderBytes; Demo.procedureBytes; Demo.payload128])
         (Demo.start [] [] [])
  /\ ConvertBytesToFixed [x00; x00; x00; x98]
     = len (delimitedParts
              [Demo.requestHeaderBytes; Demo.procedureBytes; Demo.payload128]).
Proof.
  assert (Hfit : exactTotalLength
                   [Demo.requestHeaderBytes; Demo.procedureBytes; Demo.payload128]
                 <= 2 ^ 31 - 1) by (vm_compute; discriminate).
  split; [exact Hfit|].
  exact (proj1 (total_length_field_exact (Req := list byte) Demo.anonymous TCPConn
                  (Demo.start [] [] []))
           Demo.client (Demo.rpcCall Demo.payload128) Demo.clientId
           Demo.requestHeaderBytes Demo.procedureBytes Demo.payload128
           eq_refl eq_refl eq_refl eq_refl Hfit).
Defined.

(** Once the parts no longer fit the field: with a payload of 2^32 bytes
    the exact sum is 2^32 + 27 and the field written is 00 00 00 1b, which
    is 27 under either reading of the four bytes. *)
Lemma sendRequest_field_of_4GiB (p : list byte) :
  len p = 2 ^ 32 ->
  log (snd (sendRequest Demo.anonymous Demo.client TCPConn (Demo.rpcCall p)
              (Demo.start [] [] []))) !! 1%nat
    = Some (EvWrite [x00; x00; x00; x1b])
  /\ exactTotalLength [Demo.requestHeaderBytes; Demo.procedureBytes; p] = 2 ^ 32 + 27.
Proof.
  intros Hlen.
  assert (HT : exactTotalLength [Demo.requestHeaderBytes; Demo.procedureBytes; p]
               = 2 ^ 32 + 27).
  { cbn [exactTotalLength fold_right]. rewrite Hlen. reflexivity. }
  split; [|exact HT].
  rewrite (sendRequest_frame Demo.anonymous Demo.client TCPConn (Demo.rpcCall p)
             (Demo.start [] [] []) Demo.clientId
             Demo.requestHeaderBytes Demo.procedureBytes p);
    try reflexivity; try (rewrite Hlen; reflexivity).
  rewrite HT. reflexivity.
Qed.

Lemma len_payload4GiB : len Demo.payload4GiB = 2 ^ 32.
Proof.
  unfold len, Demo.payload4GiB. rewrite repeat_length.
  apply Z2Nat.id. apply Z.pow_nonneg. lia.
Qed.

(** C6 as stated, at a payload of 2^32 bytes: the field that [sendRequest]
    writes differs from the exact sum, read as int32 or as uint32. *)
Lemma total_length_field_wraps :
  exists field,
    log (snd (sendRequest Demo.anonymous Demo.client TCPConn
                (Demo.rpcCall Demo.payload4GiB) (Demo.start [] [] []))) !! 1%nat
      = Some (EvWrite field)
    /\ ConvertBytesToFixed field
       <> exactTotalLength [Demo.requestHeaderBytes; Demo.procedureBytes; Demo.payload4GiB]
    /\ be_uint32 field
       <> exactTotalLength [Demo.requestHeaderBytes; Demo.procedureBytes; Demo.payload4GiB].
Proof.
  destruct (sendRequest_field_of_4GiB Demo.payload4GiB len_payload4GiB) as [Hfield HT].
  exists [x00; x00; x00; x1b]. rewrite HT.
  split; [exact Hfield|]. split; discriminate.
Qed.

(** C7 at a failing input: status ERROR with exception class
    java.io.IOException and a message.  The error returned names the class
    and the message, but not the status, and carries two placeholders; the
    caller's response message still holds 09. *)
Lemma readResponse_error_status_witness :
  readResponse Demo.client TCPConn (Demo.rpcCall [x61]) Demo.ioException
  = (Err "java.io.IOException:disk full:ServerDidNotSetErrorMsg:ServerDidNotSetErrorDetail",
     World [] [] [EvRead 4 [x00; x00; x00; x03]; EvRead 4096 [x02; x01; x03]] [x09]).
Proof.
  pose (w1 := snd (conn_Read 4 Demo.ioException)).
  pose (w2 := snd (ReadFull 3 w1)).
  pose (hdr := fst (Demo.header_of [x01; x03])).
  assert (Hfull : ReadFull (Z.to_nat (ConvertBytesToFixed
                     (stored [x00; x00; x00; x03] (zeros 4)))) w1
                  = (Ok [x02; x01; x03], w2))
    by (vm_compute; reflexivity).
  assert (Hdec : readDelimited [x02; x01; x03] emptyResponseHeader = (Ok 3, hdr))
    by (vm_compute; reflexivity).
  destruct (readResponse_error_status Demo.client TCPConn (Demo.rpcCall [x61])
              Demo.ioException w1 w2 [x00; x00; x00; x03] [x02; x01; x03] 3 hdr ERROR
              eq_refl ltac:(vm_compute; discriminate) Hfull Hdec eq_refl eq_refl
              ltac:(discriminate))
    as (Hrun & _ & _).
  rewrite Hrun. vm_compute. reflexivity.
Defined.

(** C10: the demo client and a header with a zero-length client id. *)
Lemma checkRpcHeader_short_clientId_panics_witness :
  exists hdr,
    rsp_ClientId hdr = Some (GoSlice [] [])
    /\ checkRpcHeader Demo.client hdr (Demo.start [] [] [])
       = (Panic "slice bounds out of range", Demo.start [] [] []).
Proof.
  exact (checkRpcHeader_short_clientId_panics Demo.client Demo.clientId
           (Demo.start [] [] []) eq_refl).
Defined.

(** C5: the server's NEGOTIATE response offers nothing, or offers
    KERBEROS first and TOKEN/DIGEST-MD5 second.  The negotiation fails; in
    the second run, followed from the dial on, [getConnection] fails with
    the same error and all that was written is the connection header (with
    the SASL code) and the NEGOTIATE request. *)
Lemma negotiate_rejects_offer_witness :
  fst (negotiateSimpleTokenAuth Demo.withToken Demo.client TCPConn Demo.noOffer)
  = Err "No supported auth mechanisms!"
  /\ fst (getConnection (Resp := list byte) Demo.withToken Demo.client Demo.connectionId
            Demo.kerberosFirst)
     = Err "yarnauth only supports TOKEN/DIGEST-MD5 auth!"
  /\ written (log (snd (getConnection (Resp := list byte) Demo.withToken Demo.client
                          Demo.connectionId Demo.kerberosFirst)))
     = [[x68; x72; x70; x63]; [x09]; [x00]; [xdf];
        [x00; x00; x00; x04]; [x01]; [xdf]; [x01]; [x01]].
Proof.
  pose (sent := fun w : world (list byte) =>
          snd (sendSaslMessage Demo.withToken Demo.client TCPConn saslNegotiateMessage w)).
  pose (received := fun w : world (list byte) =>
          snd (receiveSaslMessage Demo.client TCPConn (sent w))).
  pose (offer := fun w : world (list byte) =>
          match fst (receiveSaslMessage Demo.client TCPConn (sent w)) with
          | Ok m => m
          | _ => emptyRpcSaslProto
          end).
  pose (w0 := snd (setupConnection Demo.client Demo.kerberosFirst)).
  pose (w1 := snd (writeConnectionHeader Demo.withToken TCPConn AUTH_PROTOCOL_SASL w0)).
  assert (Hs1 : sendSaslMessage Demo.withToken Demo.client TCPConn saslNegotiateMessage
                  Demo.noOffer = (Ok tt, sent Demo.noOffer))
    by (vm_compute; reflexivity).
  assert (Hr1 : receiveSaslMessage Demo.client TCPConn (sent Demo.noOffer)
                = (Ok (offer Demo.noOffer), received Demo.noOffer))
    by (vm_compute; reflexivity).
  assert (Hsetup : setupConnection Demo.client Demo.kerberosFirst = (Ok TCPConn, w0))
    by (vm_compute; reflexivity).
  assert (Hheader : writeConnectionHeader Demo.withToken TCPConn AUTH_PROTOCOL_SASL w0
                    = (Ok tt, w1))
    by (vm_compute; reflexivity).
  assert (Htoken : snd (findUsableTokenForService Demo.withToken
                          (c_ServerAddress Demo.client)) = true)
    by (vm_compute; reflexivity).
  assert (Hs2 : sendSaslMessage Demo.withToken Demo.client TCPConn saslNegotiateMessage w1
                = (Ok tt, sent w1))
    by (vm_compute; reflexivity).
  assert (Hr2 : receiveSaslMessage Demo.client TCPConn (sent w1)
                = (Ok (offer w1), received w1))
    by (vm_compute; reflexivity).
  destruct (negotiate_rejects_offer Demo.withToken Demo.client TCPConn
              Demo.noOffer (sent Demo.noOffer) (received Demo.noOffer)
              (offer Demo.noOffer) Hs1 Hr1)
    as (_ & Hnone & _ & _).
  destruct (negotiate_rejects_offer Demo.withToken Demo.client TCPConn
              w1 (sent w1) (received w1) (offer w1) Hs2 Hr2)
    as (Hwritten & _ & Hfirst & Hfallback).
  rewrite (Hnone eq_refl).
  rewrite (Hfallback _ Demo.kerberosFirst w0 _ Demo.connectionId Hsetup Htoken Hheader
             (Hfirst (Demo.auth_of x02) [Demo.auth_of x01] eq_refl
                ltac:(intros [Hm _]; discriminate Hm))).
  cbn [fst snd]. split; [reflexivity|]. split; [reflexivity|].
  rewrite Hwritten. vm_compute. reflexivity.
Defined.

(** C8 at a failing input: a SASL response announces six bytes whose
    last, the mechanism byte 01 (TOKEN), is still on its way.  The client
    does not wait for it: it reads a zero byte in its place, which the
    stand-in codec takes for SIMPLE. *)
Lemma receiveSaslMessage_takes_partial_frame_witness :
  fst (receiveSaslMessage Demo.client TCPConn Demo.partialSasl)
  = Ok {| sasl_State := Some SaslState_NEGOTIATE; sasl_Token := [];
          sasl_Auths := [Demo.auth_of x00] |}
  /\ log (snd (receiveSaslMessage Demo.client TCPConn Demo.partialSasl))
     = [EvSetDeadline 5; EvRead 4 [x00; x00; x00; x06]; EvRead 6 [x02; x00; x00; x02; x01]]
  /\ inbox (snd (receiveSaslMessage Demo.client TCPConn Demo.partialSasl)) = [[x01]].
Proof.
  destruct (receiveSaslMessage_takes_partial_frame Demo.client TCPConn
              [x00; x00; x00; x06] [x02; x00; x00; x02; x01] [[x01]] [] ([] : list byte)
              eq_refl ltac:(discriminate) ltac:(vm_compute; lia))
    as (Hsame & Hlog & Hinbox).
  split; [|split].
  - unfold Demo.partialSasl, Demo.start. rewrite Hsame. vm_compute. reflexivity.
  - exact Hlog.
  - exact Hinbox.
Defined.

(** C8, the prefix: two of its four bytes arrive first.  [readResponse]
    reads once, takes the prefix to be 00 00 00 00 and ends as on an empty
    frame; the rest of the prefix and the frame stay unread. *)
Lemma readResponse_short_prefix :
  readResponse Demo.client TCPConn (Demo.rpcCall [x61]) Demo.shortPrefix
  = (Panic "slice bounds out of range",
     World [[x00; x06]; [x02; x00; x00; x02; x07; x07]] [] [EvRead 4 [x00; x00]] []).
Proof. vm_compute. reflexivity. Qed.

(** C9 at a failing input: an anonymous call whose request is answered.
    The last deadline was armed before the request was written. *)
Lemma Call_receives_under_send_deadline_witness :
  exists sent got more,
    log (snd (Demo.call_anonymous Demo.client Demo.rpc [x61] Demo.echo))
    = log (snd (getConnection (Resp := list byte) Demo.anonymous Demo.client
                  Demo.connectionId Demo.echo))
      ++ EvSetDeadline rwDefaultTimeout :: sent ++ EvRead 4 got :: more
    /\ Forall is_write sent
    /\ Forall no_deadline more.
Proof.
  pose (w1 := snd (getConnection (Resp := list byte) Demo.anonymous Demo.client
                     Demo.connectionId Demo.echo)).
  pose (w2 := snd (sendRequest Demo.anonymous Demo.client TCPConn (Demo.rpcCall [x61]) w1)).
  assert (Hconn : getConnection Demo.anonymous Demo.client Demo.connectionId Demo.echo
                  = (Ok TCPConn, w1)) by (vm_compute; reflexivity).
  assert (Hsend : sendRequest Demo.anonymous Demo.client TCPConn (Demo.rpcCall [x61]) w1
                  = (Ok tt, w2)) by (vm_compute; reflexivity).
  exact (Call_receives_under_send_deadline Demo.anonymous Demo.client Demo.rpc [x61]
           Demo.echo w1 w2 Demo.ugi "yarn" Demo.header "ApplicationClientProtocol"
           Demo.clientId TCPConn eq_refl eq_refl eq_refl eq_refl eq_refl Hconn Hsend).
Defined.

End Examples.

(** * Further properties of the client *)

(** ** Varints and delimited messages *)

Lemma lor_continuation_bit (a : Z) : 0 <= a < 128 -> Z.lor a 128 = a + 128.
Proof.
  intros Ha.
  assert (Hdisj : Z.land a 128 = 0).
  { apply Z.bits_inj'. intros n Hn. rewrite Z.land_spec, Z.bits_0.
    change 128 with (2 ^ 7). rewrite Z.pow2_bits_eqb by lia.
    destruct (Z.eqb_spec 7 n) as [<-|_]; [|apply andb_false_r].
    rewrite andb_true_r.
    destruct (Z.eq_dec a 0) as [->|Hnz]; [apply Z.bits_0|].
    apply Z.bits_above_log2; [lia|].
    apply Z.log2_lt_pow2; lia. }
  rewrite <- Z.lxor_lor by exact Hdisj.
  symmetry. apply Z.add_nocarry_lxor. exact Hdisj.
Qed.

Lemma byte_val_byte_of_small (z : Z) : 0 <= z < 256 -> byte_val (byte_of z) = z.
Proof. intros Hz. rewrite byte_val_byte_of. apply Z.mod_small. exact Hz. Qed.

(** Decoding what [AppendVarint_loop] wrote, at byte position [i]. *)
Lemma ConsumeVarint_loop_AppendVarint_loop (k : nat) :
  forall i v x rest,
    (i + k = 9)%nat ->
    0 <= v < 2 ^ (7 * Z.of_nat i) ->
    0 <= x < 2 ^ (64 - 7 * Z.of_nat i) ->
    ConsumeVarint_loop i v (AppendVarint_loop k x ++ rest)
    = (v + x * 2 ^ (7 * Z.of_nat i), Z.of_nat i + len (AppendVarint_loop k x)).
Proof.
  induction k as [|k IH]; intros i v x rest Hik Hv Hx.
  - assert (i = 9%nat) by lia. subst i.
    change (64 - 7 * Z.of_nat 9) with 1 in Hx. change (2 ^ 1) with 2 in Hx.
    change (7 * Z.of_nat 9) with 63 in *.
    cbn [AppendVarint_loop app ConsumeVarint_loop Nat.eqb].
    rewrite byte_val_byte_of_small by lia.
    destruct (Z.ltb_spec x 2); [|lia].
    rewrite Z.shiftl_mul_pow2 by lia.
    rewrite to_uint64_small.
    + reflexivity.
    + change (2 ^ 64) with (2 * 2 ^ 63). nia.
  - assert (Hi : (i < 9)%nat) by lia.
    cbn [AppendVarint_loop].
    destruct (Z.ltb_spec x 128) as [Hlt|Hge].
    + cbn [app ConsumeVarint_loop].
      destruct (Nat.eqb_spec i 9); [lia|].
      rewrite byte_val_byte_of_small by lia.
      destruct (Z.ltb_spec x 128); [|lia].
      rewrite Z.shiftl_mul_pow2 by lia. reflexivity.
    + cbn [app ConsumeVarint_loop].
      destruct (Nat.eqb_spec i 9); [lia|].
      change 127 with (Z.ones 7). rewrite Z.land_ones by lia.
      assert (Hm : 0 <= x mod 2 ^ 7 < 128) by (apply Z.mod_pos_bound; lia).
      rewrite lor_continuation_bit by exact Hm.
      rewrite byte_val_byte_of_small by lia.
      destruct (Z.ltb_spec (x mod 2 ^ 7 + 128) 128); [lia|].
      replace (x mod 2 ^ 7 + 128 - 128) with (x mod 2 ^ 7) by lia.
      rewrite Z.shiftl_mul_pow2, Z.shiftr_div_pow2 by lia.
      assert (Hpow : 2 ^ (7 * Z.of_nat (S i)) = 2 ^ 7 * 2 ^ (7 * Z.of_nat i)).
      { rewrite <- Z.pow_add_r by lia. f_equal. lia. }
      assert (Hsplit : 2 ^ (64 - 7 * Z.of_nat i) = 2 ^ 7 * 2 ^ (64 - 7 * Z.of_nat (S i))).
      { rewrite <- Z.pow_add_r by lia. f_equal. lia. }
      assert (Hp : 0 < 2 ^ (7 * Z.of_nat i)) by (apply Z.pow_pos_nonneg; lia).
      rewrite IH.
      * rewrite len_cons. f_equal; [|lia].
        rewrite Hpow. pose proof (Z.div_mod x (2 ^ 7) ltac:(lia)) as Hdm.
        rewrite Hdm at 3. ring.
      * lia.
      * rewrite Hpow. split; [nia|]. nia.
      * split; [apply Z.div_pos; lia|].
        apply Z.div_lt_upper_bound; [lia|]. rewrite <- Hsplit. lia.
Qed.

Lemma ConsumeVarint_AppendVarint (x : Z) (rest : list byte) :
  0 <= x < 2 ^ 64 ->
  ConsumeVarint (AppendVarint x ++ rest) = (x, len (AppendVarint x)).
Proof.
  intros Hx. unfold ConsumeVarint, AppendVarint. rewrite to_uint64_small by exact Hx.
  rewrite (ConsumeVarint_loop_AppendVarint_loop 9 0 0 x rest); [|lia|simpl; lia|simpl; lia].
  change (2 ^ (7 * Z.of_nat 0)) with 1. change (Z.of_nat 0) with 0.
  rewrite Z.mul_1_r. reflexivity.
Qed.

Lemma AppendVarint_loop_length (k : nat) (x : Z) :
  1 <= len (AppendVarint_loop k x) <= Z.of_nat k + 1.
Proof.
  revert x. induction k as [|k IH]; intros x; cbn [AppendVarint_loop].
  - unfold len. simpl. lia.
  - destruct (x <? 128); [unfold len; simpl; lia|].
    rewrite len_cons. specialize (IH (Z.shiftr x 7)). lia.
Qed.

Lemma slice_range_app {A} (pre mid post : list A) :
  slice_range (pre ++ mid ++ post) (len pre) (len pre + len mid) = Some mid.
Proof.
  unfold slice_range. rewrite !len_app.
  pose proof (len_nonneg pre). pose proof (len_nonneg mid). pose proof (len_nonneg post).
  destruct (Z.leb_spec 0 (len pre)); [|lia].
  destruct (Z.leb_spec (len pre) (len pre + len mid)); [|lia].
  destruct (Z.leb_spec (len pre + len mid) (len pre + (len mid + len post))); [|lia].
  cbn [andb]. f_equal. unfold len.
  rewrite Nat2Z.id, drop_app_length.
  replace (Z.to_nat (Z.of_nat (length pre) + Z.of_nat (length mid) - Z.of_nat (length pre)))
    with (length mid) by lia.
  apply take_app_length.
Qed.

(** X1. [sizeVarint] of a length is the number of bytes of the varint that
    [writeDelimitedBytes] writes for it, between 1 and 9, for every
    non-negative 64-bit length. *)
Theorem sizeVarint_counts_varint_bytes (x : Z) :
  0 <= x < 2 ^ 63 ->
  exists n, sizeVarint x = Some n /\ n = len (AppendVarint x) /\ 1 <= n <= 9.
Proof.
  intros Hx. exists (len (AppendVarint x)).
  split; [now apply sizeVarint_AppendVarint|]. split; [reflexivity|].
  unfold AppendVarint. rewrite to_uint64_small by lia.
  (* the tenth byte is for values of 2^63 and more *)
  assert (E8 : sizeVarint_loop 64 x 0 = Some (0 + len (AppendVarint_loop 8 x))).
  { apply sizeVarint_loop_AppendVarint; [lia|].
    change (2 ^ (7 * (Z.of_nat 8 + 1))) with (2 ^ 63). lia. }
  assert (E9 : sizeVarint_loop 64 x 0 = Some (0 + len (AppendVarint_loop 9 x))).
  { apply sizeVarint_loop_AppendVarint; [lia|].
    change (2 ^ (7 * (Z.of_nat 9 + 1))) with (2 ^ 70). lia. }
  assert (E : len (AppendVarint_loop 8 x) = len (AppendVarint_loop 9 x)).
  { rewrite E8 in E9. apply (inj Some) in E9. rewrite !Z.add_0_l in E9. exact E9. }
  pose proof (AppendVarint_loop_length 8 x) as H8.
  change (Z.of_nat 8) with 8 in H8. rewrite <- E. lia.
Qed.

(** X2. On a negative argument the loop of [sizeVarint] never ends: the
    arithmetic shift keeps [x] negative, so [x == 0] is never reached. *)
Theorem sizeVarint_negative_diverges (x : Z) :
  x < 0 -> forall fuel n, sizeVarint_loop fuel x n = None.
Proof.
  intros Hx fuel. revert x Hx.
  induction fuel as [|fuel IH]; intros x Hx n; [reflexivity|].
  cbn [sizeVarint_loop].
  assert (Hs : Z.shiftr x 7 < 0) by (apply Z.shiftr_neg; exact Hx).
  destruct (Z.eqb_spec (Z.shiftr x 7) 0); [lia|]. now apply IH.
Qed.

Lemma to_int_range (z : Z) : - 2 ^ 63 <= to_int z < 2 ^ 63.
Proof.
  unfold to_int. pose proof (Z.mod_pos_bound (z + 2 ^ 63) (2 ^ 64)). lia.
Qed.

Lemma to_int_wrap_down (z : Z) : 2 ^ 63 <= z < 2 ^ 64 -> to_int z = z - 2 ^ 64.
Proof.
  intros Hz. unfold to_int.
  replace (z + 2 ^ 63) with (z - 2 ^ 63 + 1 * 2 ^ 64) by lia.
  rewrite Z.mod_add by lia. rewrite Z.mod_small by lia. lia.
Qed.

(** The upper bound of the slice that [readDelimited] takes, for a length
    prefix [n] decoded from [off] bytes: either [off + n], or a value below
    [off] when the conversion to [int] or the sum wraps. *)
Lemma readDelimited_high (off n : Z) :
  1 <= off <= 10 -> 0 <= n < 2 ^ 64 ->
  (off + n < 2 ^ 63 /\ to_int (off + to_int n) = off + n)
  \/ to_int (off + to_int n) < off.
Proof.
  intros Hoff Hn.
  destruct (Z.lt_ge_cases n (2 ^ 63)) as [Hlt|Hge].
  - rewrite (to_int_small n) by lia.
    destruct (Z.lt_ge_cases (off + n) (2 ^ 63)) as [Hs|Hs].
    + left. split; [exact Hs|]. apply to_int_small. lia.
    + right. rewrite to_int_wrap_down by lia. lia.
  - right. rewrite (to_int_wrap_down n) by lia.
    rewrite to_int_small by lia. lia.
Qed.

Lemma len_AppendVarint (n : Z) : 1 <= len (AppendVarint n) <= 10.
Proof.
  unfold AppendVarint. pose proof (AppendVarint_loop_length 9 (to_uint64 n)) as H.
  change (Z.of_nat 9) with 9 in H. lia.
Qed.

Section Delimited.
Context {T : Type} `{!ProtoMessage T}.

Lemma readDelimited_delimited (data rest : list byte) (msg : T) :
  len data < 2 ^ 62 ->
  readDelimited (AppendVarint (len data) ++ data ++ rest) msg
  = match Unmarshal data msg with
    | (msg', Some err) => (Err err, msg')
    | (msg', None) => (Ok (len (AppendVarint (len data)) + len data), msg')
    end.
Proof.
  intros Hlen.
  pose proof (len_nonneg data) as Hnn. pose proof (len_AppendVarint (len data)) as Hv.
  unfold readDelimited.
  rewrite ConsumeVarint_AppendVarint by lia.
  destruct (Z.eqb_spec (len (AppendVarint (len data))) 0) as [E|_]; [lia|].
  rewrite (to_int_small (len data)) by lia.
  rewrite to_int_small by lia.
  rewrite slice_range_app. reflexivity.
Qed.

Lemma readDelimited_Ok_bounds (rawData : list byte) (msg msg' : T) (off : Z) :
  readDelimited rawData msg = (Ok off, msg') ->
  1 <= off <= len rawData
  /\ slice_range rawData off (len rawData) = Some (drop (Z.to_nat off) rawData).
Proof.
  unfold readDelimited.
  pose proof (ConsumeVarint_loop_nonzero rawData 0 0) as Hnz.
  unfold ConsumeVarint. destruct (ConsumeVarint_loop 0 0 rawData) as [hl n].
  cbn [snd] in Hnz.
  destruct (Z.eqb_spec n 0) as [|_]; [contradiction|].
  destruct (slice_range rawData n (to_int (n + to_int hl))) as [b|] eqn:Hs;
    [|discriminate].
  unfold slice_range in Hs.
  destruct (Z.leb_spec 0 n); [|discriminate].
  destruct (Z.leb_spec n (to_int (n + to_int hl))); [|discriminate].
  destruct (Z.leb_spec (to_int (n + to_int hl)) (len rawData)); [|discriminate].
  destruct (Unmarshal b msg) as [m [e|]]; intros E; inversion E; subst.
  split; [lia|].
  unfold slice_range.
  destruct (Z.leb_spec 0 (to_int (n + to_int hl))); [|lia].
  destruct (Z.leb_spec (to_int (n + to_int hl)) (len rawData)); [|lia].
  rewrite Z.leb_refl. cbn [andb]. f_equal.
  apply take_ge. rewrite length_drop. unfold len. lia.
Qed.

(** X3. What [writeDelimitedBytes] writes, [readDelimited] reads back: on
    the varint of the length followed by the data (and anything after it),
    [readDelimited] hands exactly the data to [proto.Unmarshal] and returns
    the number of bytes written, or the decoder's error. *)
Theorem readDelimited_reads_writeDelimitedBytes {Resp : Type} (conn : connection)
    (data rest : list byte) (msg : T) (segments : list (list byte)) (resp : Resp) :
  len data < 2 ^ 62 ->
  written (log (snd (writeDelimitedBytes conn data (World segments [] [] resp))))
  = [AppendVarint (len data); data]
  /\ readDelimited (AppendVarint (len data) ++ data ++ rest) msg
     = match Unmarshal data msg with
       | (msg', Some err) => (Err err, msg')
       | (msg', None) => (Ok (len (AppendVarint (len data)) + len data), msg')
       end.
Proof.
  intros Hlen. split; [reflexivity | now apply readDelimited_delimited].
Qed.

(** X4. When [readDelimited] returns an offset, the offset lies within the
    buffer and behind at least one byte: it never returns -1 with a nil
    error, and the re-slice [responseBytes[off:]] that follows it in
    [readResponse] and [receiveSaslMessage] is always in range. *)
Theorem readDelimited_offset_in_range (rawData : list byte) (msg msg' : T) (off : Z) :
  readDelimited rawData msg = (Ok off, msg') ->
  1 <= off <= len rawData
  /\ slice_range rawData off (len rawData) = Some (drop (Z.to_nat off) rawData).
Proof. apply readDelimited_Ok_bounds. Qed.

(** X5. A length prefix that announces more bytes than the buffer holds
    behind it makes [readDelimited] panic on the slice expression; it is
    not reported as an error. *)
Theorem readDelimited_overlong_length_panics (n : Z) (body : list byte) (msg : T) :
  0 <= n < 2 ^ 64 ->
  len body < n ->
  readDelimited (AppendVarint n ++ body) msg = (Panic sliceBounds, msg).
Proof.
  intros Hn Hshort. unfold readDelimited.
  rewrite ConsumeVarint_AppendVarint by exact Hn.
  pose proof (len_AppendVarint n) as Hv.
  destruct (Z.eqb_spec (len (AppendVarint n)) 0) as [E|_]; [lia|].
  unfold slice_range. rewrite len_app.
  destruct (readDelimited_high (len (AppendVarint n)) n Hv Hn) as [[_ ->]|Hlow].
  - destruct (Z.leb_spec (len (AppendVarint n) + n) (len (AppendVarint n) + len body));
      [lia|].
    rewrite !andb_false_r. reflexivity.
  - destruct (Z.leb_spec (len (AppendVarint n))
                (to_int (len (AppendVarint n) + to_int n))); [lia|].
    rewrite andb_false_r. reflexivity.
Qed.

End Delimited.

Section HeaderChecks.
Context {Resp : Type}.

Lemma checkRpcHeader_accepts (c : Client) (u : UUID)
    (hdr : RpcResponseHeaderProto) (w : world Resp) :
  c_ClientId c = Some u ->
  rsp_ClientId hdr = None
  \/ (exists s, rsp_ClientId hdr = Some s /\ sl_data s = uuid_bytes u) ->
  checkRpcHeader c hdr w = (Ok tt, w).
Proof.
  intros Hc [Hnone|(s & Hid & Hs)]; unfold checkRpcHeader; rewrite Hc.
  - rewrite Hnone. reflexivity.
  - rewrite Hid. cbn [deref]. unfold bind at 1. cbn [ret].
    unfold reslice, cap, len. rewrite Hs, (uuid_len u).
    destruct (Z.leb_spec 16 (Z.of_nat 16 + Z.of_nat (length (sl_spare s)))); [|lia].
    cbn [andb Z.leb Z.compare]. change (Z.to_nat 16) with 16%nat.
    rewrite take_app_length' by (symmetry; apply uuid_len).
    rewrite firstn_all2 by (rewrite (uuid_len u); lia).
    unfold bytes_Equal. rewrite bool_decide_eq_true_2 by reflexivity. reflexivity.
Qed.

(** X6. [checkRpcHeader] lets a response without client id pass, and for a
    client id of exactly sixteen bytes it returns nil if the bytes are the
    caller's and the error "Incorrect clientId" if they are not. *)
Theorem checkRpcHeader_sixteen_bytes (c : Client) (u : UUID)
    (hdr : RpcResponseHeaderProto) (w : world Resp) :
  c_ClientId c = Some u ->
  (rsp_ClientId hdr = None -> checkRpcHeader c hdr w = (Ok tt, w))
  /\ (forall s, rsp_ClientId hdr = Some s -> length (sl_data s) = 16%nat ->
        checkRpcHeader c hdr w
        = (if bool_decide (sl_data s = uuid_bytes u) then Ok tt
           else Err "Incorrect clientId", w)).
Proof.
  intros Hc. split.
  - intros Hnone. unfold checkRpcHeader. rewrite Hc, Hnone. reflexivity.
  - intros s Hid Hlen. unfold checkRpcHeader. rewrite Hc, Hid. cbn [deref].
    unfold bind at 1. cbn [ret]. unfold reslice, cap, len. rewrite Hlen.
    destruct (Z.leb_spec 16 (Z.of_nat 16 + Z.of_nat (length (sl_spare s)))); [|lia].
    cbn [andb Z.leb Z.compare]. change (Z.to_nat 16) with 16%nat.
    rewrite take_app_length' by (symmetry; exact Hlen).
    rewrite firstn_all2 by (rewrite (uuid_len u); lia).
    unfold bytes_Equal.
    destruct (decide (sl_data s = uuid_bytes u)) as [E|E].
    + rewrite (bool_decide_eq_true_2 _ E).
      rewrite bool_decide_eq_true_2 by (symmetry; exact E). reflexivity.
    + rewrite (bool_decide_eq_false_2 _ E).
      rewrite bool_decide_eq_false_2 by congruence. reflexivity.
Qed.

End HeaderChecks.

(** X7. [findUsableTokenForService] returns the entry of the user's token
    map for the service, and reports it found exactly when there is one;
    the test for an empty map changes nothing. *)
Theorem findUsableTokenForService_lookup (ext : Externals) (service : string) :
  findUsableTokenForService ext service
  = (GetUserTokens ext !! service, bool_decide (is_Some (GetUserTokens ext !! service))).
Proof.
  unfold findUsableTokenForService.
  destruct (decide (size (GetUserTokens ext) = 0%nat)) as [E|_].
  - apply map_size_empty_inv in E. rewrite E, lookup_empty.
    rewrite bool_decide_eq_false_2; [reflexivity|]. intros [? ?]. discriminate.
  - destruct (GetUserTokens ext !! service) as [t|].
    + rewrite bool_decide_eq_true_2 by eauto. reflexivity.
    + rewrite bool_decide_eq_false_2; [reflexivity|]. intros [? ?]. discriminate.
Qed.

(** ** The receive path on a socket without faults *)

Section ReceiveRuns.
Context {Resp : Type}.

Lemma conn_Read_take (n : nat) (seg : list byte) segments lg (resp : Resp) :
  seg <> [] -> (0 < n)%nat ->
  conn_Read n (World (seg :: segments) [] lg resp)
  = (Ok (take n seg),
     World (match drop n seg with [] => segments | more => more :: segments end) []
       (lg ++ [EvRead n (take n seg)]) resp).
Proof.
  intros Hseg Hn. destruct seg as [|x seg]; [congruence|].
  destruct n as [|n]; [lia|]. reflexivity.
Qed.

Lemma conn_Read_eof (n : nat) lg (resp : Resp) :
  (0 < n)%nat ->
  conn_Read n (World [] [] lg resp) = (Err "EOF", World [] [] (lg ++ [EvRead n []]) resp).
Proof. intros Hn. destruct n as [|n]; [lia|]. reflexivity. Qed.

(** [ReadFull] over any segmentation: it returns the first [min] bytes when
    the segments hold that many, and end of file when the segments run out
    before; in both cases the response message is untouched and no fault
    script is left behind. *)
Lemma ReadFull_loop_segments (segs : list (list byte)) :
  Forall (fun seg => seg <> []) segs ->
  forall rounds min buf lg (resp : Resp),
    (min - length buf <= rounds)%nat ->
    exists ib' lg',
      ReadFull_loop rounds min buf (World segs [] lg resp)
      = (if (min <=? length buf + length (concat segs))%nat
         then Ok (buf ++ take (min - length buf) (concat segs))
         else Err (if (0 <? length buf + length (concat segs))%nat
                   then "unexpected EOF" else "EOF"),
         World ib' [] lg' resp).
Proof.
  induction 1 as [|seg segs Hseg _ IH]; intros rounds min buf lg resp Hrounds.
  - cbn [concat]. rewrite Nat.add_0_r, take_nil, app_nil_r.
    destruct rounds as [|k]; cbn [ReadFull_loop];
      destruct (Nat.leb_spec min (length buf)) as [Hle|Hgt]; try (do 2 eexists; reflexivity).
    + lia.
    + rewrite conn_Read_eof by (unfold bufioSize; lia).
      change (String.eqb "EOF" "EOF") with true. rewrite andb_true_r.
      do 2 eexists. reflexivity.
  - cbn [concat]. rewrite length_app.
    destruct rounds as [|k]; cbn [ReadFull_loop];
      destruct (Nat.leb_spec min (length buf)) as [Hle|Hgt].
    + destruct (Nat.leb_spec min (length buf + (length seg + length (concat segs))));
        [|lia].
      replace (min - length buf)%nat with 0%nat by lia.
      rewrite take_0, app_nil_r. do 2 eexists. reflexivity.
    + lia.
    + destruct (Nat.leb_spec min (length buf + (length seg + length (concat segs))));
        [|lia].
      replace (min - length buf)%nat with 0%nat by lia.
      rewrite take_0, app_nil_r. do 2 eexists. reflexivity.
    + rewrite conn_Read_take by (unfold bufioSize; first [exact Hseg | lia]).
      rewrite take_take.
      replace (Nat.min (min - length buf) (Nat.max (min - length buf) bufioSize))
        with (min - length buf)%nat by lia.
      destruct (Nat.le_gt_cases (min - length buf) (length seg)) as [Hfits|Hmore].
      * (* the segment completes the buffer *)
        destruct (Nat.leb_spec min (length buf + (length seg + length (concat segs))));
          [|lia].
        rewrite (take_app_le seg) by exact Hfits.
        destruct k as [|k]; cbn [ReadFull_loop];
          rewrite length_app, length_take;
          (destruct (Nat.leb_spec min (length buf + Nat.min (min - length buf) (length seg)));
           [|lia]); do 2 eexists; reflexivity.
      * (* the segment is taken whole and more is needed *)
        rewrite (take_ge seg) by lia.
        rewrite drop_ge by lia.
        destruct (IH k min (buf ++ seg)
                    (lg ++ [EvRead (Nat.max (min - length buf) bufioSize)
                              (take (Nat.max (min - length buf) bufioSize) seg)]) resp)
          as (ib' & lg' & E).
        { rewrite length_app. destruct seg; [congruence | simpl; lia]. }
        rewrite E. rewrite length_app, <- Nat.add_assoc.
        exists ib', lg'. f_equal.
        destruct (Nat.leb_spec min (length buf + (length seg + length (concat segs)))).
        -- f_equal. rewrite <- app_assoc. f_equal.
           rewrite take_app_ge by lia. f_equal. f_equal. lia.
        -- reflexivity.
Qed.

Lemma to_int32_wrap_down (z : Z) : 2 ^ 31 <= z < 2 ^ 32 -> to_int32 z = z - 2 ^ 32.
Proof.
  intros Hz. unfold to_int32.
  replace (z + 2 ^ 31) with (z - 2 ^ 31 + 1 * 2 ^ 32) by lia.
  rewrite Z.mod_add by lia. rewrite Z.mod_small by lia. lia.
Qed.

Lemma ConvertBytesToFixed_negative (b0 b1 b2 b3 : byte) :
  128 <= byte_val b0 -> ConvertBytesToFixed [b0; b1; b2; b3] < 0.
Proof.
  intros Hb. unfold ConvertBytesToFixed, be_uint32. cbn [fold_left].
  pose proof (byte_val_range b0). pose proof (byte_val_range b1).
  pose proof (byte_val_range b2). pose proof (byte_val_range b3).
  rewrite to_int32_wrap_down; lia.
Qed.

End ReceiveRuns.

Section ReceiveFrames.
Context {Req Resp : Type}.
Context `{!ProtoMessage RpcResponseHeaderProto, !ProtoMessage Resp}.

(** X8. A response frame made of a delimited header and a delimited
    payload, announced by its exact length and delivered in segments of any
    sizes, is read whole: when the header decodes to status SUCCESS with no
    client id or the caller's, [readResponse] returns what [proto.Unmarshal]
    returns on exactly the payload bytes, and the caller's response message
    is what that decoding left in it. *)
Theorem readResponse_decodes_frame (c : Client) conn (rpcCall : call Req) (u : UUID)
    (hb pb : list byte) (hdr : RpcResponseHeaderProto)
    (segs : list (list byte)) (lg : list event) (resp : Resp) :
  c_ClientId c = Some u ->
  Forall (fun seg => seg <> []) segs ->
  concat segs = delimitedParts [hb; pb] ->
  len (delimitedParts [hb; pb]) <= 2 ^ 31 - 1 ->
  Unmarshal hb emptyResponseHeader = (hdr, None) ->
  rsp_Status hdr = Some SUCCESS ->
  rsp_ClientId hdr = None
  \/ (exists s, rsp_ClientId hdr = Some s /\ sl_data s = uuid_bytes u) ->
  let w := World (ConvertFixedToBytes (len (delimitedParts [hb; pb])) :: segs) [] lg resp in
  fst (readResponse c conn rpcCall w)
  = match snd (Unmarshal pb resp) with Some err => Err err | None => Ok tt end
  /\ response (snd (readResponse c conn rpcCall w)) = fst (Unmarshal pb resp).
Proof.
  intros Hc Hsegs Hframe Hfit Hhdr Hst Hid w.
  set (frame := delimitedParts [hb; pb]) in *.
  assert (Hparts : frame = AppendVarint (len hb) ++ hb ++ AppendVarint (len pb) ++ pb ++ []).
  { unfold frame, delimitedParts. cbn [map concat]. now rewrite <- !app_assoc. }
  pose proof (len_nonneg hb). pose proof (len_nonneg pb).
  pose proof (len_AppendVarint (len hb)). pose proof (len_AppendVarint (len pb)).
  assert (Hlen : len frame = len (AppendVarint (len hb)) + len hb
                             + (len (AppendVarint (len pb)) + len pb)).
  { rewrite Hparts, !len_app. change (len (@nil byte)) with 0. lia. }
  assert (Hprefix : ConvertBytesToFixed
                      (stored (ConvertFixedToBytes (len frame)) (zeros 4)) = len frame).
  { rewrite stored_all by reflexivity.
    rewrite ConvertBytesToFixed_ConvertFixedToBytes. apply to_int32_small. lia. }
  assert (Hread : conn_Read 4 w
                  = (Ok (ConvertFixedToBytes (len frame)),
                     World segs [] (lg ++ [EvRead 4 (ConvertFixedToBytes (len frame))]) resp)).
  { apply conn_Read_segment; [discriminate | simpl; lia]. }
  destruct (ReadFull_loop_segments segs Hsegs (Z.to_nat (len frame)) (Z.to_nat (len frame))
              [] (lg ++ [EvRead 4 (ConvertFixedToBytes (len frame))]) resp ltac:(simpl; lia))
    as (ib' & lg' & Hfull).
  rewrite Hframe in Hfull. cbn [length Nat.add app] in Hfull.
  rewrite Nat.sub_0_r in Hfull.
  assert (Hn : Z.to_nat (len frame) = length frame) by (unfold len; lia).
  rewrite Hn in Hfull.
  rewrite Nat.leb_refl, firstn_all in Hfull.
  assert (Hdec : readDelimited frame emptyResponseHeader
                 = (Ok (len (AppendVarint (len hb)) + len hb), hdr)).
  { rewrite Hparts, readDelimited_delimited by lia. now rewrite Hhdr. }
  assert (Hrest : slice_range frame (len (AppendVarint (len hb)) + len hb) (len frame)
                  = Some (AppendVarint (len pb) ++ pb ++ [])).
  { destruct (readDelimited_Ok_bounds _ _ _ _ Hdec) as [_ ->]. f_equal.
    rewrite Hparts at 1. rewrite app_assoc.
    replace (Z.to_nat (len (AppendVarint (len hb)) + len hb))
      with (length (AppendVarint (len hb) ++ hb))
      by (rewrite length_app; unfold len; lia).
    apply drop_app_length. }
  assert (Hrun : readResponse c conn rpcCall w
                 = (match snd (Unmarshal pb resp) with Some err => Err err | None => Ok tt end,
                    World ib' [] lg' (fst (Unmarshal pb resp)))).
  { rewrite (readResponse_header c conn rpcCall w _ _ _ _ _ hdr Hread
               ltac:(rewrite Hprefix; lia)
               ltac:(rewrite Hprefix, Hn; unfold ReadFull; exact Hfull) Hdec).
    rewrite (bind_Ok _ _ _ _ _ (checkRpcHeader_accepts c u hdr _ Hc Hid)), Hst.
    cbn [deref]. unfold bind at 1. cbn [ret].
    destruct (decide (SUCCESS = SUCCESS)); [|congruence].
    rewrite Hrest. unfold bind, readDelimited_response. cbn [response inbox faults log].
    rewrite readDelimited_delimited by lia.
    destruct (Unmarshal pb resp) as [m [err|]]; reflexivity. }
  rewrite Hrun. split; reflexivity.
Qed.

(** X9. When the peer stops after delivering less of the body than the
    prefix announced, [readResponse] returns an end-of-file error
    ("unexpected EOF" if part of the body had arrived, "EOF" if none had),
    and the caller's response message is untouched. *)
Theorem readResponse_truncated_body (c : Client) conn (rpcCall : call Req)
    (prefix : list byte) (segs : list (list byte)) (lg : list event) (resp : Resp) :
  length prefix = 4%nat ->
  Forall (fun seg => seg <> []) segs ->
  0 <= ConvertBytesToFixed prefix ->
  (length (concat segs) < Z.to_nat (ConvertBytesToFixed prefix))%nat ->
  let w := World (prefix :: segs) [] lg resp in
  fst (readResponse c conn rpcCall w)
  = Err (if bool_decide (segs = []) then "EOF" else "unexpected EOF")
  /\ response (snd (readResponse c conn rpcCall w)) = resp.
Proof.
  intros Hp Hsegs Hnn Hshort w.
  assert (Hread : conn_Read 4 w
                  = (Ok prefix, World segs [] (lg ++ [EvRead 4 prefix]) resp)).
  { apply conn_Read_segment; [intros ->; discriminate | lia]. }
  destruct (ReadFull_loop_segments segs Hsegs (Z.to_nat (ConvertBytesToFixed prefix))
              (Z.to_nat (ConvertBytesToFixed prefix))
              [] (lg ++ [EvRead 4 prefix]) resp ltac:(simpl; lia))
    as (ib' & lg' & Hfull).
  cbn [length Nat.add] in Hfull.
  destruct (Nat.leb_spec (Z.to_nat (ConvertBytesToFixed prefix)) (length (concat segs)));
    [lia|].
  assert (Hrun : readResponse c conn rpcCall w
                 = (Err (if (0 <? length (concat segs))%nat then "unexpected EOF" else "EOF"),
                    World ib' [] lg' resp)).
  { unfold readResponse. rewrite (bind_Ok _ _ _ _ _ Hread).
    rewrite (stored_all prefix 4 Hp).
    destruct (Z.ltb_spec (ConvertBytesToFixed prefix) 0); [lia|].
    unfold ReadFull. now rewrite (bind_Err _ _ _ _ _ Hfull). }
  rewrite Hrun. cbn [fst snd response].
  split; [|reflexivity]. f_equal.
  destruct segs as [|seg segs'].
  - reflexivity.
  - rewrite bool_decide_eq_false_2 by discriminate.
    apply Forall_cons in Hsegs as [Hne _].
    cbn [concat]. rewrite length_app.
    destruct seg; [congruence|]. reflexivity.
Qed.

End ReceiveFrames.

Section NegativePrefix.
Context {Req Resp : Type}.
Context `{!ProtoMessage RpcSaslProto, !ProtoMessage RpcResponseHeaderProto,
          !ProtoMessage Resp}.

(** X10. A total-length prefix whose first byte has its top bit set is a
    negative int32: both [readResponse] and [receiveSaslMessage] then panic
    in [make([]byte, totalLength)], right after the read of the prefix. *)
Theorem negative_total_length_panics (c : Client) conn (rpcCall : call Req)
    (b0 b1 b2 b3 : byte) (segs : list (list byte)) (lg : list event) (resp : Resp) :
  128 <= byte_val b0 ->
  let w := World ([b0; b1; b2; b3] :: segs) [] lg resp in
  readResponse c conn rpcCall w
  = (Panic makesliceLen, World segs [] (lg ++ [EvRead 4 [b0; b1; b2; b3]]) resp)
  /\ receiveSaslMessage c conn w
     = (Panic makesliceLen,
        World segs [] (lg ++ [EvSetDeadline rwDefaultTimeout; EvRead 4 [b0; b1; b2; b3]])
          resp).
Proof.
  intros Hb w.
  pose proof (ConvertBytesToFixed_negative b0 b1 b2 b3 Hb) as Hneg.
  split.
  - unfold readResponse.
    rewrite (bind_Ok _ _ _ _ _
               (conn_Read_segment 4 [b0; b1; b2; b3] segs lg resp
                  ltac:(discriminate) ltac:(simpl; lia))).
    rewrite (stored_all [b0; b1; b2; b3] 4 eq_refl).
    destruct (Z.ltb_spec (ConvertBytesToFixed [b0; b1; b2; b3]) 0); [reflexivity | lia].
  - unfold receiveSaslMessage, SetDeadline.
    unfold bind at 1. unfold conn_call, injected, step.
    cbn [faults inbox log response tail].
    rewrite (bind_Ok _ _ _ _ _
               (conn_Read_segment 4 [b0; b1; b2; b3] segs _ resp
                  ltac:(discriminate) ltac:(simpl; lia))).
    rewrite (stored_all [b0; b1; b2; b3] 4 eq_refl).
    destruct (Z.ltb_spec (ConvertBytesToFixed [b0; b1; b2; b3]) 0); [|lia].
    rewrite <- app_assoc. reflexivity.
Qed.

End NegativePrefix.

(** ** The call and the handshake *)

Lemma findUsableTokenForService_fst (ext : Externals) (service : string) :
  fst (findUsableTokenForService ext service) = GetUserTokens ext !! service.
Proof.
  unfold findUsableTokenForService.
  destruct (decide (size (GetUserTokens ext) = 0%nat)) as [E|_].
  - apply map_size_empty_inv in E. now rewrite E, lookup_empty.
  - now destruct (GetUserTokens ext !! service).
Qed.

Lemma findUsableTokenForService_snd_None (ext : Externals) (service : string) :
  GetUserTokens ext !! service = None ->
  snd (findUsableTokenForService ext service) = false.
Proof.
  intros Hnone. unfold findUsableTokenForService.
  destruct (decide (size (GetUserTokens ext) = 0%nat)); [reflexivity|].
  now rewrite Hnone.
Qed.

Section CallRuns.
Context {Req Resp : Type}.
Context `{!ProtoMessage RpcRequestHeaderProto,
          !ProtoMessage IpcConnectionContextProto,
          !ProtoMessage RequestHeaderProto,
          !ProtoMessage RpcSaslProto,
          !ProtoMessage RpcResponseHeaderProto,
          !ProtoMessage Req,
          !ProtoMessage Resp}.
Variable ext : Externals.

(** X11. [Call] dereferences [c.Ugi], [c.Ugi.RealUser], [rpc],
    [rpc.DeclaringClassProtocolName] and [c.ClientId] before it dials: if
    one of them is nil it panics with a nil dereference and has made no
    call on the socket. *)
Theorem Call_nil_pointer_panics (c : Client) rpc (rpcRequest : Req) (w : world Resp) :
  c_Ugi c = None
  \/ (exists ugi, c_Ugi c = Some ugi /\ RealUser ugi = None)
  \/ rpc = None
  \/ (exists header, rpc = Some header /\ DeclaringClassProtocolName header = None)
  \/ c_ClientId c = None ->
  Call ext c rpc rpcRequest w = (Panic nilDeref, w).
Proof.
  intros Hnil. unfold Call.
  destruct (c_Ugi c) as [ugi|] eqn:Hugi; [|reflexivity].
  cbn [deref]. unfold bind at 1. cbn [ret].
  destruct (RealUser ugi) as [user|] eqn:Huser; [|reflexivity].
  cbn [deref]. unfold bind at 1. cbn [ret].
  destruct rpc as [header|]; [|reflexivity].
  cbn [deref]. unfold bind at 1. cbn [ret].
  destruct (DeclaringClassProtocolName header) as [protocol|] eqn:Hproto; [|reflexivity].
  cbn [deref]. unfold bind at 1. cbn [ret].
  destruct (c_ClientId c) as [clientId|] eqn:Hid; [|reflexivity].
  exfalso.
  destruct Hnil as [H|[(ugi' & H1 & H2)|[H|[(h' & H1 & H2)|H]]]]; congruence.
Qed.

(** X12. Once the connection is set up and the request is sent, [Call]
    returns what [readResponse] returns, value or error, leaves the
    caller's response message as [readResponse] left it, and its last call
    on the socket is the Close. *)
Theorem Call_returns_readResponse_result (c : Client) rpc (rpcRequest : Req)
    (w w1 w2 w3 : world Resp) ugi user header protocol clientId conn r :
  c_Ugi c = Some ugi ->
  RealUser ugi = Some user ->
  rpc = Some header ->
  DeclaringClassProtocolName header = Some protocol ->
  c_ClientId c = Some clientId ->
  getConnection ext c
    {| cid_user := user; cid_protocol := protocol; cid_address := c_ServerAddress c;
       cid_ClientId := clientId |} w = (Ok conn, w1) ->
  sendRequest ext c conn
    {| callId := 0; procedure := header; request := rpcRequest; retryCount := 0 |} w1
    = (Ok tt, w2) ->
  readResponse c conn
    {| callId := 0; procedure := header; request := rpcRequest; retryCount := 0 |} w2
    = (r, w3) ->
  (r = Ok tt \/ exists e, r = Err e) ->
  fst (Call ext c rpc rpcRequest w) = r
  /\ log (snd (Call ext c rpc rpcRequest w)) = log w3 ++ [EvClose]
  /\ response (snd (Call ext c rpc rpcRequest w)) = response w3.
Proof.
  intros Hugi Huser Hrpc Hproto Hid Hconn Hsend Hread Hr.
  rewrite (Call_closes_after_receive ext c rpc rpcRequest w w1 w2 w3 ugi user header
             protocol clientId conn r Hugi Huser Hrpc Hproto Hid Hconn Hsend Hread).
  - repeat split; reflexivity.
  - intros msg E. destruct Hr as [->|(e & ->)]; discriminate.
  - intros E. destruct Hr as [->|(e & ->)]; discriminate.
Qed.

(** X13. Without a token for the server address in the user's token map,
    [getConnection] is the dial, the connection header with the auth
    protocol NONE and the connection context: there is no SASL exchange,
    and it reads nothing from the socket. *)
Theorem getConnection_without_token (c : Client) (cid : connection_id) (w : world Resp) :
  GetUserTokens ext !! c_ServerAddress c = None ->
  getConnection ext c cid w
  = (con <- setupConnection c;;
     writeConnectionHeader ext con AUTH_PROTOCOL_NONE;;
     writeConnectionContext ext c con cid AUTH_PROTOCOL_NONE;;
     ret con) w
  /\ exists evs,
       log (snd (getConnection ext c cid w)) = log w ++ evs /\ Forall no_read evs.
Proof.
  intros Hnone.
  assert (Heq : forall w0 : world Resp, getConnection ext c cid w0
                = (con <- setupConnection c;;
                   writeConnectionHeader ext con AUTH_PROTOCOL_NONE;;
                   writeConnectionContext ext c con cid AUTH_PROTOCOL_NONE;;
                   ret con) w0).
  { intros w0. unfold getConnection.
    rewrite (findUsableTokenForService_snd_None ext _ Hnone).
    apply bind_ext. intros con w'. apply bind_ext. intros [] w''. reflexivity. }
  split; [apply Heq|].
  rewrite Heq.
  assert (Hemits : emits no_read
                     ((con <- setupConnection c;;
                       writeConnectionHeader ext con AUTH_PROTOCOL_NONE;;
                       writeConnectionContext ext c con cid AUTH_PROTOCOL_NONE;;
                       ret con) : M Resp connection)).
  { repeat first
      [ apply emits_setupConnection; intros; intros ? ?; discriminate
      | apply emits_writeConnectionHeader; intros; intros ? ?; discriminate
      | apply emits_writeConnectionContext; intros; intros ? ?; discriminate
      | emits_tac ]. }
  apply Hemits.
Qed.

(** X14. The second half of the SASL negotiation.  When the server's first
    offer is TOKEN with DIGEST-MD5: if the challenge response cannot be
    computed, the negotiation fails with that error in the world in which
    the offer arrived, so no INITIATE is sent; otherwise the INITIATE
    message carries the response as its token and echoes method, mechanism,
    protocol and server id of the offer (not its challenge), and the
    negotiation succeeds exactly when the state of the server's answer,
    read through its getter, is SUCCESS. *)
Theorem negotiate_after_offer (c : Client) (con : connection)
    (w1 w2 w3 : world Resp) (offer : RpcSaslProto) (auth : SaslAuth) more :
  sendSaslMessage ext c con saslNegotiateMessage w1 = (Ok tt, w2) ->
  receiveSaslMessage c con w2 = (Ok offer, w3) ->
  GetAuths offer = auth :: more ->
  GetMethod auth = "TOKEN" ->
  GetMechanism auth = "DIGEST-MD5" ->
  (forall e,
      GetDigestMD5ChallengeResponse ext (GetProtocol auth) (GetServerId auth)
        (GetChallenge auth) (GetUserTokens ext !! c_ServerAddress c) = Err e ->
      negotiateSimpleTokenAuth ext c con w1 = (Err e, w3))
  /\ (forall token w4 w5 answer,
      GetDigestMD5ChallengeResponse ext (GetProtocol auth) (GetServerId auth)
        (GetChallenge auth) (GetUserTokens ext !! c_ServerAddress c) = Ok token ->
      sendSaslMessage ext c con (saslInitiateMessage auth token) w3 = (Ok tt, w4) ->
      receiveSaslMessage c con w4 = (Ok answer, w5) ->
      negotiateSimpleTokenAuth ext c con w1
      = (if bool_decide (GetState answer = SaslState_SUCCESS) then Ok tt
         else Err "expected SASL SUCCESS response!", w5)).
Proof.
  intros Hsend Hrecv Hoffer Hmethod Hmech.
  split.
  - intros e Hdigest. unfold negotiateSimpleTokenAuth. fold saslNegotiateMessage.
    rewrite (bind_Ok _ _ _ _ _ Hsend), (bind_Ok _ _ _ _ _ Hrecv), Hoffer.
    destruct (Z.leb_spec (len (auth :: more)) 0) as [Hle|_].
    { rewrite len_cons in Hle. pose proof (len_nonneg more). lia. }
    cbn [lookup list_lookup]. rewrite Hmethod, Hmech. cbn [String.eqb Ascii.eqb Bool.eqb andb negb].
    rewrite findUsableTokenForService_fst, Hdigest. reflexivity.
  - intros token w4 w5 answer Hdigest Hsend2 Hrecv2.
    unfold negotiateSimpleTokenAuth. fold saslNegotiateMessage.
    rewrite (bind_Ok _ _ _ _ _ Hsend), (bind_Ok _ _ _ _ _ Hrecv), Hoffer.
    destruct (Z.leb_spec (len (auth :: more)) 0) as [Hle|_].
    { rewrite len_cons in Hle. pose proof (len_nonneg more). lia. }
    cbn [lookup list_lookup]. rewrite Hmethod, Hmech. cbn [String.eqb Ascii.eqb Bool.eqb andb negb].
    rewrite findUsableTokenForService_fst, Hdigest.
    unfold bind at 1. cbn [lift].
    unfold saslInitiateMessage in Hsend2. rewrite Hmethod, Hmech in Hsend2.
    rewrite (bind_Ok _ _ _ _ _ Hsend2), (bind_Ok _ _ _ _ _ Hrecv2).
    destruct (bool_decide (GetState answer = SaslState_SUCCESS)); reflexivity.
Qed.

End CallRuns.

(** ** Faults stop a phase *)

Section FailStop.
Context {Resp : Type}.

Lemma clean_no_fault (fs : list (option error)) (k i : nat) (e : error) :
  clean (take k fs) -> fs !! i = Some (Some e) -> (k <= i)%nat.
Proof.
  intros Hc Hi. destruct (decide (k <= i)%nat) as [|Hlt]; [assumption|]. exfalso.
  assert (Ht : take k fs !! i = Some (Some e)) by (rewrite lookup_take_lt; [assumption|lia]).
  unfold clean in Hc. rewrite Forall_lookup in Hc.
  specialize (Hc _ _ Ht). discriminate.
Qed.

Lemma failstop_lift {A} (o : outcome A) : failstop (lift (Resp := Resp) o).
Proof.
  intros w. exists []. simpl. rewrite app_nil_r.
  repeat split; constructor.
Qed.

Lemma failstop_ret {A} (a : A) : failstop (ret (Resp := Resp) a).
Proof. apply failstop_lift. Qed.

Lemma failstop_deref {A} (p : option A) : failstop (deref (Resp := Resp) p).
Proof. destruct p; apply failstop_lift. Qed.

Lemma failstop_step {A} (o : outcome A) (ev : event) ib (w : world Resp) :
  (forall a, o = Ok a -> injected w = None) ->
  exists evs,
    log (snd (o, step ev ib w)) = log w ++ evs
    /\ faults (snd (o, step ev ib w)) = drop (length evs) (faults w)
    /\ clean (take (length evs - 1) (faults w))
    /\ (forall a, fst (o, step ev ib w) = Ok a -> clean (take (length evs) (faults w))).
Proof.
  intros Hok. exists [ev]. simpl.
  split; [reflexivity|]. split; [now destruct (faults w)|]. split; [constructor|].
  intros a Ea. specialize (Hok a Ea). unfold injected in Hok.
  destruct (faults w) as [|[e|] fs]; simpl; try discriminate; repeat constructor.
Qed.

Lemma failstop_conn_call (ev : event) : failstop (conn_call (Resp := Resp) ev).
Proof.
  intros w. unfold conn_call. apply failstop_step.
  intros a. destruct (injected w); [discriminate|reflexivity].
Qed.

Lemma failstop_conn_Read (n : nat) : failstop (conn_Read (Resp := Resp) n).
Proof.
  intros w. unfold conn_Read.
  destruct (injected w) eqn:Einj.
  { apply failstop_step. intros a Ea. discriminate. }
  destruct n; [now apply failstop_step|].
  destruct (inbox w) as [|[|x seg] rest]; now apply failstop_step.
Qed.

Lemma failstop_bind {A B} (m : M Resp A) (f : A -> M Resp B) :
  failstop m -> (forall a, failstop (f a)) -> failstop (bind m f).
Proof.
  intros Hm Hf w. unfold bind.
  destruct (Hm w) as (evs & E & Ef & Hc & Hok).
  destruct (m w) as [[a|e|msg|] w'] eqn:Em; simpl in E, Ef, Hok;
    try (exists evs; simpl; repeat split; try assumption; intros ? ?; discriminate).
  specialize (Hok a eq_refl).
  destruct (Hf a w') as (evs' & E' & Ef' & Hc' & Hok').
  exists (evs ++ evs'). rewrite E', E, Ef', Ef, app_assoc, drop_drop, length_app.
  repeat split.
  - destruct evs' as [|ev' evs'].
    + simpl. rewrite Nat.add_0_r. assumption.
    + replace (length evs + length (ev' :: evs') - 1)%nat
        with (length evs + (length (ev' :: evs') - 1))%nat by (simpl; lia).
      rewrite <- take_take_drop. apply Forall_app. split; [assumption|].
      rewrite <- Ef. assumption.
  - intros b Eb. rewrite <- take_take_drop. apply Forall_app. split; [assumption|].
    rewrite <- Ef. now apply (Hok' b).
Qed.

Lemma failstop_ReadFull_loop (rounds min : nat) :
  forall buf, failstop (ReadFull_loop (Resp := Resp) rounds min buf).
Proof.
  induction rounds as [|k IH]; intros buf; simpl.
  - destruct (min <=? length buf)%nat; [apply failstop_ret | apply failstop_lift].
  - destruct (min <=? length buf)%nat; [apply failstop_ret|].
    intros w.
    pose proof (failstop_bind (conn_Read (Nat.max (min - length buf) bufioSize))
                  (fun got => ReadFull_loop k min (buf ++ take (min - length buf) got))
                  (failstop_conn_Read _) (fun got => IH _) w) as Hb.
    unfold bind in Hb.
    destruct (failstop_conn_Read (Nat.max (min - length buf) bufioSize) w)
      as (evs & E & Ef & Hc & Hok).
    destruct (conn_Read _ w) as [[got|e|msg|] w']; simpl in *;
      try assumption.
    exists evs. repeat split; try assumption. intros ? ?; discriminate.
Qed.

End FailStop.

Ltac failstop_tac :=
  lazymatch goal with
  | |- failstop (bind _ _) => apply failstop_bind; [|intros ?]
  | |- failstop (ret _) => apply failstop_ret
  | |- failstop (lift _) => apply failstop_lift
  | |- failstop (fail _) => apply failstop_lift
  | |- failstop (panic _) => apply failstop_lift
  | |- failstop (deref _) => apply failstop_deref
  | |- failstop (conn_call _) => apply failstop_conn_call
  | |- failstop (conn_Read _) => apply failstop_conn_Read
  | |- failstop (ReadFull_loop _ _ _) => apply failstop_ReadFull_loop
  | |- failstop (match ?x with _ => _ end) => destruct x
  end.

Section EngineFailStop.
Context {Req Resp : Type}.
Context `{!ProtoMessage RpcRequestHeaderProto,
          !ProtoMessage IpcConnectionContextProto,
          !ProtoMessage RequestHeaderProto,
          !ProtoMessage RpcSaslProto,
          !ProtoMessage RpcResponseHeaderProto,
          !ProtoMessage Req,
          !ProtoMessage Resp}.
Variable ext : Externals.

Lemma failstop_sizeVarintM (x : Z) : failstop (sizeVarintM (Resp := Resp) x).
Proof. unfold sizeVarintM. repeat failstop_tac. Qed.

Lemma failstop_writeDelimitedBytes conn data :
  failstop (writeDelimitedBytes (Resp := Resp) conn data).
Proof. unfold writeDelimitedBytes, Write. repeat failstop_tac. Qed.

Lemma failstop_writeConnectionHeader conn a :
  failstop (writeConnectionHeader (Resp := Resp) ext conn a).
Proof. unfold writeConnectionHeader, SetDeadline, Write. repeat failstop_tac. Qed.

Lemma failstop_writeConnectionContext c conn cid a :
  failstop (writeConnectionContext (Resp := Resp) ext c conn cid a).
Proof.
  unfold writeConnectionContext, SetDeadline, Write.
  repeat first [apply failstop_sizeVarintM | apply failstop_writeDelimitedBytes
               | failstop_tac].
Qed.

Lemma failstop_sendRequest c conn (rpcCall : call Req) :
  failstop (sendRequest (Resp := Resp) ext c conn rpcCall).
Proof.
  unfold sendRequest, SetDeadline, Write.
  repeat first [apply failstop_sizeVarintM | apply failstop_writeDelimitedBytes
               | failstop_tac].
Qed.

Lemma failstop_sendSaslMessage c conn m :
  failstop (sendSaslMessage (Resp := Resp) ext c conn m).
Proof.
  unfold sendSaslMessage, SetDeadline, Write.
  repeat first [apply failstop_sizeVarintM | apply failstop_writeDelimitedBytes
               | failstop_tac].
Qed.

Lemma failstop_checkRpcHeader c h : failstop (checkRpcHeader (Resp := Resp) c h).
Proof. unfold checkRpcHeader. repeat failstop_tac. Qed.

Lemma failstop_checkSaslRpcHeader h : failstop (checkSaslRpcHeader (Resp := Resp) h).
Proof. unfold checkSaslRpcHeader. repeat failstop_tac. Qed.

Lemma failstop_readDelimited_response raw :
  failstop (readDelimited_response (Resp := Resp) raw).
Proof.
  intros w. exists []. unfold readDelimited_response.
  destruct (readDelimited raw (response w)). simpl. rewrite app_nil_r.
  repeat split; constructor.
Qed.

Lemma failstop_readResponse c conn (rpcCall : call Req) :
  failstop (readResponse (Resp := Resp) c conn rpcCall).
Proof.
  unfold readResponse, ReadFull.
  repeat first [apply failstop_checkRpcHeader | apply failstop_readDelimited_response
               | failstop_tac].
Qed.

Lemma failstop_receiveSaslMessage c conn :
  failstop (receiveSaslMessage (Resp := Resp) c conn).
Proof.
  unfold receiveSaslMessage, SetDeadline.
  repeat first [apply failstop_checkSaslRpcHeader | failstop_tac].
Qed.

Lemma failstop_negotiateSimpleTokenAuth c conn :
  failstop (negotiateSimpleTokenAuth (Resp := Resp) ext c conn).
Proof.
  unfold negotiateSimpleTokenAuth.
  repeat first [apply failstop_sendSaslMessage
               | apply failstop_receiveSaslMessage
               | failstop_tac].
Qed.

Lemma failstop_setupConnection c : failstop (setupConnection (Resp := Resp) c).
Proof. unfold setupConnection. repeat failstop_tac. Qed.

Lemma failstop_getConnection c cid : failstop (getConnection (Resp := Resp) ext c cid).
Proof.
  unfold getConnection.
  repeat first [apply failstop_setupConnection
               | apply failstop_writeConnectionHeader
               | apply failstop_writeConnectionContext
               | apply failstop_negotiateSimpleTokenAuth
               | failstop_tac].
Qed.

(** X15. No phase of a call retries or carries on after a failed call on
    the socket.  For the handshake, the sending of the request and the
    receiving of the response alike: every call on the socket takes one
    entry of the fault script, the entries taken before the last call
    injected no fault, and when the phase returns without error none of its
    calls met a fault. *)
Theorem phases_stop_at_first_fault (c : Client) (cid : connection_id) conn
    (rpcCall : call Req) :
  failstop (getConnection (Resp := Resp) ext c cid)
  /\ failstop (sendRequest (Resp := Resp) ext c conn rpcCall)
  /\ failstop (readResponse (Resp := Resp) c conn rpcCall).
Proof.
  split; [apply failstop_getConnection|].
  split; [apply failstop_sendRequest | apply failstop_readResponse].
Qed.

(** X16. In a whole [Call], the only call on the socket that can follow a
    failed one is the final Close: if the [i]-th call of the run met an
    injected fault and the run went on, then exactly one more call was
    made, and it is the Close. *)
Theorem Call_after_fault_only_closes (c : Client) rpc (rpcRequest : Req) (w : world Resp) :
  exists evs,
    log (snd (Call ext c rpc rpcRequest w)) = log w ++ evs
    /\ forall (i : nat) (e : error),
         faults w !! i = Some (Some e) ->
         (i + 1 < length evs)%nat ->
         length evs = (i + 2)%nat /\ evs !! (i + 1)%nat = Some EvClose.
Proof.
  assert (Hnone : exists evs,
             log w = log w ++ evs
             /\ forall (i : nat) (e : error),
                  faults w !! i = Some (Some e) ->
                  (i + 1 < length evs)%nat ->
                  length evs = (i + 2)%nat /\ evs !! (i + 1)%nat = Some EvClose).
  { exists []. rewrite app_nil_r. split; [reflexivity|]. simpl. intros; lia. }
  unfold Call.
  destruct (c_Ugi c) as [ugi|]; [|exact Hnone].
  cbn [deref]. unfold bind at 1. cbn [ret].
  destruct (RealUser ugi) as [user|]; [|exact Hnone].
  cbn [deref]. unfold bind at 1. cbn [ret].
  destruct rpc as [header|]; [|exact Hnone].
  cbn [deref]. unfold bind at 1. cbn [ret].
  destruct (DeclaringClassProtocolName header) as [protocol|]; [|exact Hnone].
  cbn [deref]. unfold bind at 1. cbn [ret].
  destruct (c_ClientId c) as [clientId|]; [|exact Hnone].
  cbn [deref]. unfold bind at 1. cbn [ret].
  clear Hnone.
  set (cid := {| cid_user := user; cid_protocol := protocol;
                 cid_address := c_ServerAddress c; cid_ClientId := clientId |}).
  set (rpcCall := {| callId := 0; procedure := header; request := rpcRequest;
                     retryCount := 0 |}).
  unfold bind at 1.
  destruct (failstop_getConnection c cid w) as (evs1 & E1 & F1 & C1 & K1).
  destruct (getConnection ext c cid w) as [[conn|e1|msg1|] w1]; simpl in E1, F1, K1;
    try (exists evs1; split; [exact E1|]; intros i e Hi Hlt;
         pose proof (clean_no_fault _ _ _ _ C1 Hi); lia).
  specialize (K1 conn eq_refl).
  unfold bind at 1.
  destruct (failstop_sendRequest c conn rpcCall w1) as (evs2 & E2 & F2 & C2 & K2).
  rewrite F1 in C2, K2.
  destruct (sendRequest ext c conn rpcCall w1) as [[[]|e2|msg2|] w2]; simpl in E2, F2, K2;
    try (exists (evs1 ++ evs2); rewrite app_assoc, <- E1; split; [exact E2|];
         intros i e Hi Hlt; rewrite length_app in *;
         pose proof (clean_no_fault _ _ _ _ K1 Hi) as Hge;
         assert (Hi' : drop (length evs1) (faults w) !! (i - length evs1)%nat
                       = Some (Some e))
           by (rewrite lookup_drop; replace (length evs1 + (i - length evs1))%nat with i by lia;
               exact Hi);
         pose proof (clean_no_fault _ _ _ _ C2 Hi'); lia).
  specialize (K2 tt eq_refl).
  assert (K12 : clean (take (length evs1 + length evs2) (faults w))).
  { rewrite <- take_take_drop. apply Forall_app. split; assumption. }
  unfold bind at 1, attempt.
  destruct (failstop_readResponse c conn rpcCall w2) as (evs3 & E3 & F3 & C3 & _).
  rewrite F2, F1, drop_drop in C3.
  assert (Hfault : forall (i : nat) (e : error),
             faults w !! i = Some (Some e) ->
             (length evs1 + length evs2 + (length evs3 - 1) <= i)%nat).
  { intros i e Hi. pose proof (clean_no_fault _ _ _ _ K12 Hi) as Hge.
    assert (Hi' : drop (length evs1 + length evs2) (faults w)
                    !! (i - (length evs1 + length evs2))%nat = Some (Some e)).
    { rewrite lookup_drop.
      replace (length evs1 + length evs2 + (i - (length evs1 + length evs2)))%nat
        with i by lia. exact Hi. }
    pose proof (clean_no_fault _ _ _ _ C3 Hi'). lia. }
  assert (Hlog3 : forall w3 : world Resp, log w3 = log w2 ++ evs3 ->
                  log w3 = log w ++ (evs1 ++ evs2 ++ evs3)).
  { intros w3 ->. rewrite E2, E1, <- !app_assoc. reflexivity. }
  destruct (readResponse c conn rpcCall w2) as [[[]|e3|msg3|] w3]; simpl in E3.
  - unfold bind at 1, conn_Close. cbn [ret snd log step].
    exists (evs1 ++ evs2 ++ evs3 ++ [EvClose]).
    split; [rewrite (Hlog3 _ E3), <- !app_assoc; reflexivity|].
    intros i e Hi Hlt. rewrite !length_app in *. simpl in *.
    pose proof (Hfault i e Hi).
    split; [lia|].
    rewrite !app_assoc. rewrite lookup_app_r; rewrite !length_app; [|lia].
    replace (i + 1 - (length evs1 + length evs2 + length evs3))%nat with 0%nat by lia.
    reflexivity.
  - unfold bind at 1, conn_Close. cbn [fail lift snd log step].
    exists (evs1 ++ evs2 ++ evs3 ++ [EvClose]).
    split; [rewrite (Hlog3 _ E3), <- !app_assoc; reflexivity|].
    intros i e Hi Hlt. rewrite !length_app in *. simpl in *.
    pose proof (Hfault i e Hi).
    split; [lia|].
    rewrite !app_assoc. rewrite lookup_app_r; rewrite !length_app; [|lia].
    replace (i + 1 - (length evs1 + length evs2 + length evs3))%nat with 0%nat by lia.
    reflexivity.
  - exists (evs1 ++ evs2 ++ evs3). split; [exact (Hlog3 _ E3)|].
    intros i e Hi Hlt. rewrite !length_app in *. pose proof (Hfault i e Hi). lia.
  - exists (evs1 ++ evs2 ++ evs3). split; [exact (Hlog3 _ E3)|].
    intros i e Hi Hlt. rewrite !length_app in *. pose proof (Hfault i e Hi). lia.
Qed.

End EngineFailStop.

(** ** Deadlines and reads of the phases *)

Section Phases.
Context {Req Resp : Type}.
Context `{!ProtoMessage RpcRequestHeaderProto,
          !ProtoMessage IpcConnectionContextProto,
          !ProtoMessage RequestHeaderProto,
          !ProtoMessage RpcSaslProto,
          !ProtoMessage RpcResponseHeaderProto,
          !ProtoMessage Req,
          !ProtoMessage Resp}.
Variable ext : Externals.


Lemma conn_Read_log (n : nat) (w w' : world Resp) o :
  conn_Read n w = (o, w') -> exists got, log w' = log w ++ [EvRead n got].
Proof.
  unfold conn_Read. destruct (injected w).
  { intros E. inversion E; subst. eexists. reflexivity. }
  destruct n; [intros E; inversion E; subst; eexists; reflexivity|].
  destruct (inbox w) as [|[|x seg] rest]; intros E; inversion E; subst;
    eexists; reflexivity.
Qed.

Lemma silent_log {A} (m : M Resp A) (w : world Resp) :
  emits (fun _ => False) m -> log (snd (m w)) = log w.
Proof.
  intros Hm. destruct (Hm w) as (evs & E & HP).
  destruct evs as [|ev evs]; [now rewrite app_nil_r in E|].
  now inversion HP.
Qed.




(** X18. [receiveSaslMessage] arms the deadline and then reads at most
    twice: once for the prefix and once for the body, whatever the reads
    bring. *)
Theorem receiveSaslMessage_reads_at_most_twice (c : Client) conn (w : world Resp) :
  exists reads,
    log (snd (receiveSaslMessage c conn w))
    = log w ++ EvSetDeadline rwDefaultTimeout :: reads
    /\ Forall is_read reads /\ (length reads <= 2)%nat.
Proof.
  assert (Hr : forall n got, is_read (EvRead n got)) by (intros; do 2 eexists; reflexivity).
  unfold receiveSaslMessage, SetDeadline.
  unfold bind at 1, conn_call at 1.
  destruct (injected w).
  { exists []. split; [reflexivity|]. split; [constructor | simpl; lia]. }
  set (w1 := step (EvSetDeadline rwDefaultTimeout) (inbox w) w).
  assert (E1 : log w1 = log w ++ [EvSetDeadline rwDefaultTimeout]) by reflexivity.
  unfold bind at 1.
  destruct (conn_Read 4 w1) as [o2 w2] eqn:Eread.
  destruct (conn_Read_log _ _ _ _ Eread) as (got1 & E2).
  assert (Hone : exists reads,
             log w2 = log w ++ EvSetDeadline rwDefaultTimeout :: reads
             /\ Forall is_read reads /\ (length reads <= 2)%nat).
  { exists [EvRead 4 got1]. rewrite E2, E1, <- app_assoc.
    split; [reflexivity|]. split; [repeat constructor; apply Hr | simpl; lia]. }
  destruct o2 as [got|e|msg|]; try exact Hone.
  destruct (ConvertBytesToFixed (stored got (zeros 4)) <? 0); [exact Hone|].
  clear Hone.
  unfold bind at 1.
  destruct (conn_Read _ w2) as [o3 w3] eqn:Eread2.
  destruct (conn_Read_log _ _ _ _ Eread2) as (got2 & E3).
  assert (Htwo : exists reads,
             log w3 = log w ++ EvSetDeadline rwDefaultTimeout :: reads
             /\ Forall is_read reads /\ (length reads <= 2)%nat).
  { eexists [EvRead 4 got1; EvRead _ got2]. rewrite E3, E2, E1, <- !app_assoc.
    split; [reflexivity|]. split; [repeat constructor; apply Hr | simpl; lia]. }
  destruct o3 as [body|e|msg|]; try exact Htwo.
  match goal with
  | |- context [log (snd (?k w3))] =>
      assert (Hk : emits (fun _ => False) k)
  end.
  { repeat first [apply emits_checkSaslRpcHeader | emits_tac]. }
  rewrite (silent_log _ w3 Hk). exact Htwo.
Qed.

End Phases.

Section SaslFrames.
Context {Resp : Type}.
Context `{!ProtoMessage RpcSaslProto, !ProtoMessage RpcResponseHeaderProto}.

Lemma checkSaslRpcHeader_accepts (hdr : RpcResponseHeaderProto) (w : world Resp) :
  rsp_ClientId hdr = None
  \/ (exists s, rsp_ClientId hdr = Some s /\ sl_data s = SASL_RPC_DUMMY_CLIENT_ID) ->
  checkSaslRpcHeader hdr w = (Ok tt, w).
Proof.
  intros [Hid|(s & Hid & Hs)]; unfold checkSaslRpcHeader; rewrite Hid; [reflexivity|].
  rewrite Hs. reflexivity.
Qed.

(** X19. A SASL frame made of a delimited header and a delimited message,
    announced by its exact length and arriving whole in one segment, is
    decoded: when the header decodes to status SUCCESS with no client id or
    the empty one, [receiveSaslMessage] returns the message that
    [proto.Unmarshal] builds from exactly the message bytes (or its error),
    after the deadline and two reads, and leaves the later segments in the
    socket. *)
Theorem receiveSaslMessage_decodes_frame (c : Client) conn
    (hb mb : list byte) (hdr : RpcResponseHeaderProto) (msg : RpcSaslProto)
    (merr : option error) (segments : list (list byte)) (lg : list event)
    (resp : Resp) :
  len (delimitedParts [hb; mb]) <= 2 ^ 31 - 1 ->
  Unmarshal hb emptyResponseHeader = (hdr, None) ->
  rsp_Status hdr = Some SUCCESS ->
  rsp_ClientId hdr = None
  \/ (exists s, rsp_ClientId hdr = Some s /\ sl_data s = SASL_RPC_DUMMY_CLIENT_ID) ->
  Unmarshal mb emptyRpcSaslProto = (msg, merr) ->
  receiveSaslMessage c conn
    (World (ConvertFixedToBytes (len (delimitedParts [hb; mb]))
              :: delimitedParts [hb; mb] :: segments) [] lg resp)
  = (match merr with Some err => Err err | None => Ok msg end,
     World segments []
       (lg ++ [EvSetDeadline rwDefaultTimeout;
               EvRead 4 (ConvertFixedToBytes (len (delimitedParts [hb; mb])));
               EvRead (length (delimitedParts [hb; mb])) (delimitedParts [hb; mb])])
       resp).
Proof.
  intros Hfit Hhdr Hst Hid Hmsg.
  set (frame := delimitedParts [hb; mb]) in *.
  assert (Hparts : frame = AppendVarint (len hb) ++ hb ++ AppendVarint (len mb) ++ mb ++ []).
  { unfold frame, delimitedParts. cbn [map concat]. now rewrite <- !app_assoc. }
  pose proof (len_nonneg hb). pose proof (len_nonneg mb).
  pose proof (len_AppendVarint (len hb)). pose proof (len_AppendVarint (len mb)).
  assert (Hlen : len frame = len (AppendVarint (len hb)) + len hb
                             + (len (AppendVarint (len mb)) + len mb)).
  { rewrite Hparts, !len_app. change (len (@nil byte)) with 0. lia. }
  assert (Hprefix : ConvertBytesToFixed (ConvertFixedToBytes (len frame)) = len frame).
  { rewrite ConvertBytesToFixed_ConvertFixedToBytes. apply to_int32_small. lia. }
  assert (Hn : Z.to_nat (len frame) = length frame) by (unfold len; lia).
  assert (Hne : frame <> []).
  { intros E. rewrite E in Hlen. change (len (@nil byte)) with 0 in Hlen. lia. }
  rewrite (receiveSaslMessage_single_read c conn (ConvertFixedToBytes (len frame)) frame
             segments lg resp eq_refl Hne ltac:(rewrite Hprefix, Hn; lia)).
  rewrite Hprefix, Hn.
  rewrite (stored_all frame (length frame) eq_refl).
  assert (Hdec : readDelimited frame emptyResponseHeader
                 = (Ok (len (AppendVarint (len hb)) + len hb), hdr)).
  { rewrite Hparts, readDelimited_delimited by lia. now rewrite Hhdr. }
  assert (Hrest : slice_range frame (len (AppendVarint (len hb)) + len hb) (len frame)
                  = Some (AppendVarint (len mb) ++ mb ++ [])).
  { destruct (readDelimited_Ok_bounds _ _ _ _ Hdec) as [_ ->]. f_equal.
    rewrite Hparts at 1. rewrite app_assoc.
    replace (Z.to_nat (len (AppendVarint (len hb)) + len hb))
      with (length (AppendVarint (len hb) ++ hb))
      by (rewrite length_app; unfold len; lia).
    apply drop_app_length. }
  unfold saslFrame. rewrite Hdec.
  unfold bind at 1. cbn [lift].
  rewrite (bind_Ok _ _ _ _ _ (checkSaslRpcHeader_accepts hdr _ Hid)), Hst.
  cbn [deref]. unfold bind at 1. cbn [ret].
  destruct (decide (SUCCESS = SUCCESS)); [|congruence].
  rewrite Hrest, readDelimited_delimited by lia. rewrite Hmsg.
  destruct merr; reflexivity.
Qed.

End SaslFrames.

(** ** The kill path of the copilot agent *)

Lemma GetContainer_loop_Some (items : list nm.YarnContainer) (containerID : string)
    (c : nm.YarnContainer) :
  nm.GetContainer_loop items containerID = Some c ->
  exists before after,
    items = before ++ c :: after
    /\ nm.Id c = containerID
    /\ Forall (fun c' => nm.Id c' <> containerID) before.
Proof.
  induction items as [|c0 rest IH]; simpl; [discriminate|].
  destruct (String.eqb_spec (nm.Id c0) containerID) as [E|NE].
  - intros [= <-]. exists [], rest. repeat split; [assumption | constructor].
  - intros Hrest. destruct (IH Hrest) as (before & after & -> & Hid & Hb).
    exists (c0 :: before), after. repeat split; [assumption | now constructor].
Qed.

Lemma GetContainer_loop_None (items : list nm.YarnContainer) (containerID : string) :
  nm.GetContainer_loop items containerID = None ->
  Forall (fun c' => nm.Id c' <> containerID) items.
Proof.
  induction items as [|c0 rest IH]; simpl; [constructor|].
  destruct (String.eqb_spec (nm.Id c0) containerID) as [E|NE]; [discriminate|].
  intros Hrest. constructor; auto.
Qed.

Lemma KillContainer_cases (p : nm.Platform) (n : nm.NodeMangerOperator)
    (containerID : string) :
  Forall (fun pid => - 2 ^ 63 <= pid < 2 ^ 63)
    (fst (nm.GetPids p
            (nm.filepath_Join p [nm.CgroupRoot n; "cpu"; nm.CgroupPath n; containerID]))) ->
  (exists err, nm.KillContainer p n containerID = (Some err, []))
  \/ (exists pid rest,
        nm.GetPids p
          (nm.filepath_Join p [nm.CgroupRoot n; "cpu"; nm.CgroupPath n; containerID])
        = (pid :: rest, None)
        /\ 1 < pid
        /\ nm.KillContainer p n containerID
           = (nm.Kill p (- pid) SIGKILL, [(- pid, SIGKILL)])).
Proof.
  intros Hrange. unfold nm.KillContainer, nm.getProcessGroupID.
  destruct (nm.GetPids p _) as [pids [err|]] eqn:Epids.
  { left. eexists. reflexivity. }
  destruct pids as [|pid rest].
  { left. eexists. reflexivity. }
  destruct (Z.leb_spec pid 1) as [Hle|Hgt].
  { left. eexists. reflexivity. }
  right. exists pid, rest.
  simpl in Hrange. inversion Hrange as [|? ? Hpid _]; subst.
  rewrite (to_int_small (- pid)) by lia.
  repeat split; [assumption].
Qed.

(** X20. [GetContainer] answers with a container exactly when the listing
    succeeded with a status from 200 to 299 and lists a container with the
    id asked for; the container it returns is the first such in the
    listing. *)
Theorem GetContainer_returns_first_listed (p : nm.Platform) (n : nm.NodeMangerOperator)
    (containerID : string) (c : nm.YarnContainer) :
  nm.GetContainer p n containerID = inl c
  <-> exists resp before after,
        nm.Get p "/ws/v1/node/containers"
        = (resp, {| nm.Items := before ++ c :: after |}, None)
        /\ 200 <= nm.StatusCode resp <= 299
        /\ nm.Id c = containerID
        /\ Forall (fun c' => nm.Id c' <> containerID) before.
Proof.
  unfold nm.GetContainer, nm.ListContainers, nm.IsSuccess. split.
  - destruct (nm.Get p _) as [[resp [items]] [err|]]; [discriminate|].
    destruct (Z.ltb_spec 199 (nm.StatusCode resp)); [|discriminate].
    destruct (Z.ltb_spec (nm.StatusCode resp) 300); [|discriminate].
    cbn [andb negb nm.Items].
    destruct (nm.GetContainer_loop items containerID) as [c'|] eqn:Eloop; [|discriminate].
    intros [= ->].
    destruct (GetContainer_loop_Some _ _ _ Eloop) as (before & after & -> & Hid & Hb).
    exists resp, before, after. repeat split; try assumption; lia.
  - intros (resp & before & after & -> & [Hlo Hhi] & Hid & Hb).
    destruct (Z.ltb_spec 199 (nm.StatusCode resp)); [|lia].
    destruct (Z.ltb_spec (nm.StatusCode resp) 300); [|lia].
    cbn [andb negb nm.Items].
    assert (Eloop : nm.GetContainer_loop (before ++ c :: after) containerID = Some c).
    { induction Hb as [|c0 before NE _ IH]; simpl.
      - destruct (String.eqb_spec (nm.Id c) containerID); [reflexivity|contradiction].
      - destruct (String.eqb_spec (nm.Id c0) containerID); [contradiction|assumption]. }
    now rewrite Eloop.
Qed.

(** X21. [KillContainer] of package nm sends at most one signal, and never
    to pid 1, to its own group or to every process: the one signal it can
    send is SIGKILL to the group of the first pid in the container's cpu
    cgroup, and only when that pid is above 1; in every other case,
    including a cgroup that cannot be read or is empty, it returns an error
    and has sent nothing. *)
Theorem KillContainer_signals_one_group (p : nm.Platform) (n : nm.NodeMangerOperator)
    (containerID : string) :
  Forall (fun pid => - 2 ^ 63 <= pid < 2 ^ 63)
    (fst (nm.GetPids p
            (nm.filepath_Join p [nm.CgroupRoot n; "cpu"; nm.CgroupPath n; containerID]))) ->
  match snd (nm.KillContainer p n containerID) with
  | [] => exists err, fst (nm.KillContainer p n containerID) = Some err
  | [(target, sig)] =>
      target < - 1 /\ sig = SIGKILL
      /\ (exists rest,
            nm.GetPids p
              (nm.filepath_Join p [nm.CgroupRoot n; "cpu"; nm.CgroupPath n; containerID])
            = (- target :: rest, None))
      /\ fst (nm.KillContainer p n containerID) = nm.Kill p target SIGKILL
  | _ => False
  end.
Proof.
  intros Hrange.
  destruct (KillContainer_cases p n containerID Hrange)
    as [(err & ->)|(pid & rest & Hpids & Hpid & ->)]; cbn [fst snd].
  - now exists err.
  - rewrite Z.opp_involutive. repeat split; [lia|]. now exists rest.
Qed.

Section KillHandler.
Context {ContainerInfo : Type}.
Variable ParseContainerInfo : nm.YarnContainer -> nm.NodeMangerOperator -> ContainerInfo.


End KillHandler.

(** ** The further properties at concrete inputs *)

Section FurtherExamples.
#[local] Existing Instance Demo.requestHeader.
#[local] Existing Instance Demo.connectionContext.
#[local] Existing Instance Demo.procedureHeader.
#[local] Existing Instance Demo.sasl.
#[local] Existing Instance Demo.responseHeader.
#[local] Existing Instance Demo.payload.

(** X1 at 300, which takes two bytes. *)
Lemma sizeVarint_counts_varint_bytes_witness :
  0 <= 300 < 2 ^ 63
  /\ exists n, sizeVarint 300 = Some n /\ n = len (AppendVarint 300) /\ 1 <= n <= 9.
Proof.
  assert (H : 0 <= 300 < 2 ^ 63) by lia.
  split; [exact H|]. exact (sizeVarint_counts_varint_bytes 300 H).
Defined.

(** X2 at -1, with the fuel of [sizeVarint]. *)
Lemma sizeVarint_negative_diverges_witness :
  -1 < 0 /\ sizeVarint_loop 64 (-1) 0 = None.
Proof.
  assert (H : -1 < 0) by lia.
  split; [exact H|]. exact (sizeVarint_negative_diverges (-1) H 64%nat 0).
Defined.

(** X3: the byte 61 written and read back, with 07 behind it. *)
Lemma readDelimited_reads_writeDelimitedBytes_witness :
  len [x61] < 2 ^ 62
  /\ written (log (snd (writeDelimitedBytes TCPConn [x61] (Demo.start [] [] []))))
     = [[x01]; [x61]]
  /\ readDelimited [x01; x61; x07] ([] : list byte) = (Ok 2, [x61]).
Proof.
  assert (H : len [x61] < 2 ^ 62) by (vm_compute; reflexivity).
  split; [exact H|].
  exact (readDelimited_reads_writeDelimitedBytes (T := list byte) (Resp := list byte)
           TCPConn [x61] [x07] [] [] [] H).
Defined.

(** X4: the offset behind a delimited message of one byte. *)
Lemma readDelimited_offset_in_range_witness :
  readDelimited [x01; x61; x07] ([] : list byte) = (Ok 2, [x61])
  /\ 1 <= 2 <= len [x01; x61; x07]
  /\ slice_range [x01; x61; x07] 2 (len [x01; x61; x07]) = Some [x07].
Proof.
  assert (H : readDelimited [x01; x61; x07] ([] : list byte) = (Ok 2, [x61]))
    by (vm_compute; reflexivity).
  split; [exact H|].
  exact (readDelimited_offset_in_range (T := list byte) [x01; x61; x07] [] [x61] 2 H).
Defined.

(** X5: five bytes announced, one there. *)
Lemma readDelimited_overlong_length_panics_witness :
  0 <= 5 < 2 ^ 64
  /\ len [x61] < 5
  /\ readDelimited [x05; x61] ([] : list byte) = (Panic "slice bounds out of range", []).
Proof.
  assert (H : 0 <= 5 < 2 ^ 64) by lia.
  assert (Hshort : len [x61] < 5) by (vm_compute; reflexivity).
  split; [exact H|]. split; [exact Hshort|].
  exact (readDelimited_overlong_length_panics (T := list byte) 5 [x61] [] H Hshort).
Defined.

(** X6: a header with exactly the caller's sixteen bytes is accepted. *)
Lemma checkRpcHeader_sixteen_bytes_witness :
  checkRpcHeader Demo.client Scenarios.ownIdHeader Demo.echo = (Ok tt, Demo.echo).
Proof.
  exact (proj2 (checkRpcHeader_sixteen_bytes Demo.client Demo.clientId
                  Scenarios.ownIdHeader Demo.echo eq_refl)
           (GoSlice (uuid_bytes Demo.clientId) []) eq_refl eq_refl).
Defined.

(** X8: the response of [Demo.echo] delivered in three segments. *)
Lemma readResponse_decodes_frame_witness :
  concat Scenarios.threeSegments = delimitedParts [Scenarios.okHeader; Scenarios.payload]
  /\ fst (readResponse Demo.client TCPConn (Demo.rpcCall [x61])
            (World ([x00; x00; x00; x06] :: Scenarios.threeSegments) [] [] []))
     = Ok tt
  /\ response (snd (readResponse Demo.client TCPConn (Demo.rpcCall [x61])
                      (World ([x00; x00; x00; x06] :: Scenarios.threeSegments) [] [] [])))
     = [x07; x07].
Proof.
  assert (Hsegs : Forall (fun seg : list byte => seg <> []) Scenarios.threeSegments)
    by (repeat constructor; discriminate).
  assert (Hframe : concat Scenarios.threeSegments
                   = delimitedParts [Scenarios.okHeader; Scenarios.payload])
    by (vm_compute; reflexivity).
  assert (Hfit : len (delimitedParts [Scenarios.okHeader; Scenarios.payload]) <= 2 ^ 31 - 1)
    by (vm_compute; discriminate).
  split; [exact Hframe|].
  exact (readResponse_decodes_frame (Resp := list byte) Demo.client TCPConn
           (Demo.rpcCall [x61]) Demo.clientId Scenarios.okHeader Scenarios.payload
           (fst (Demo.header_of Scenarios.okHeader)) Scenarios.threeSegments [] []
           eq_refl Hsegs Hframe Hfit eq_refl eq_refl (or_introl eq_refl)).
Defined.

(** X9: six bytes announced, two delivered before the peer closes; the
    caller's response message 09 is untouched. *)
Lemma readResponse_truncated_body_witness :
  (length (concat [[x02; x00]]) < Z.to_nat (ConvertBytesToFixed [x00; x00; x00; x06]))%nat
  /\ fst (readResponse Demo.client TCPConn (Demo.rpcCall [x61])
            (World [[x00; x00; x00; x06]; [x02; x00]] [] [] [x09]))
     = Err "unexpected EOF"
  /\ response (snd (readResponse Demo.client TCPConn (Demo.rpcCall [x61])
                      (World [[x00; x00; x00; x06]; [x02; x00]] [] [] [x09])))
     = [x09].
Proof.
  assert (Hsegs : Forall (fun seg : list byte => seg <> []) [[x02; x00]])
    by (repeat constructor; discriminate).
  assert (Hnn : 0 <= ConvertBytesToFixed [x00; x00; x00; x06])
    by (vm_compute; discriminate).
  assert (Hshort : (length (concat [[x02; x00]])
                    < Z.to_nat (ConvertBytesToFixed [x00; x00; x00; x06]))%nat)
    by (vm_compute; lia).
  split; [exact Hshort|].
  exact (readResponse_truncated_body (Resp := list byte) Demo.client TCPConn
           (Demo.rpcCall [x61]) [x00; x00; x00; x06] [[x02; x00]] [] [x09]
           eq_refl Hsegs Hnn Hshort).
Defined.

(** X10: the prefix ff 00 00 00. *)
Lemma negative_total_length_panics_witness :
  128 <= byte_val xff
  /\ readResponse Demo.client TCPConn (Demo.rpcCall [x61])
       (World [[xff; x00; x00; x00]] [] [] [])
     = (Panic makesliceLen, World [] [] [EvRead 4 [xff; x00; x00; x00]] [])
  /\ receiveSaslMessage (Resp := list byte) Demo.client TCPConn
       (World [[xff; x00; x00; x00]] [] [] [])
     = (Panic makesliceLen,
        World [] [] [EvSetDeadline rwDefaultTimeout; EvRead 4 [xff; x00; x00; x00]] []).
Proof.
  assert (H : 128 <= byte_val xff) by (vm_compute; discriminate).
  split; [exact H|].
  exact (negative_total_length_panics (Resp := list byte) Demo.client TCPConn
           (Demo.rpcCall [x61]) xff x00 x00 x00 [] [] [] H).
Defined.

(** X11: a call with a nil [rpc]. *)
Lemma Call_nil_pointer_panics_witness :
  Demo.call_anonymous Demo.client None [x61] Demo.echo = (Panic nilDeref, Demo.echo).
Proof.
  exact (Call_nil_pointer_panics (Req := list byte) (Resp := list byte) Demo.anonymous
           Demo.client None [x61] Demo.echo
           (or_intror (or_intror (or_introl eq_refl)))).
Defined.

(** X12: the successful call of [Demo.echo]. *)
Lemma Call_returns_readResponse_result_witness :
  fst (Demo.call_anonymous Demo.client Demo.rpc [x61] Demo.echo) = Ok tt
  /\ last (log (snd (Demo.call_anonymous Demo.client Demo.rpc [x61] Demo.echo)))
     = Some EvClose
  /\ response (snd (Demo.call_anonymous Demo.client Demo.rpc [x61] Demo.echo))
     = [x07; x07].
Proof.
  pose (w1 := snd (getConnection (Resp := list byte) Demo.anonymous Demo.client
                     Demo.connectionId Demo.echo)).
  pose (w2 := snd (sendRequest Demo.anonymous Demo.client TCPConn (Demo.rpcCall [x61]) w1)).
  pose (w3 := snd (readResponse Demo.client TCPConn (Demo.rpcCall [x61]) w2)).
  assert (Hconn : getConnection Demo.anonymous Demo.client Demo.connectionId Demo.echo
                  = (Ok TCPConn, w1))
    by (vm_compute; reflexivity).
  assert (Hsend : sendRequest Demo.anonymous Demo.client TCPConn (Demo.rpcCall [x61]) w1
                  = (Ok tt, w2))
    by (vm_compute; reflexivity).
  assert (Hread : readResponse Demo.client TCPConn (Demo.rpcCall [x61]) w2 = (Ok tt, w3))
    by (vm_compute; reflexivity).
  destruct (Call_returns_readResponse_result Demo.anonymous Demo.client Demo.rpc
              [x61] Demo.echo w1 w2 w3 Demo.ugi "yarn" Demo.header
              "ApplicationClientProtocol" Demo.clientId TCPConn (Ok tt)
              eq_refl eq_refl eq_refl eq_refl eq_refl Hconn Hsend Hread
              (or_introl eq_refl))
    as (Hres & Hlog & Hresp).
  unfold Demo.call_anonymous. rewrite Hres, Hlog, Hresp.
  split; [reflexivity|]. split; [apply last_snoc | vm_compute; reflexivity].
Defined.

(** X13: the handshake of the anonymous client. *)
Lemma getConnection_without_token_witness :
  GetUserTokens Demo.anonymous !! c_ServerAddress Demo.client = None
  /\ exists evs,
       log (snd (getConnection (Resp := list byte) Demo.anonymous Demo.client
                   Demo.connectionId Demo.echo))
       = log Demo.echo ++ evs
       /\ Forall no_read evs.
Proof.
  assert (H : GetUserTokens Demo.anonymous !! c_ServerAddress Demo.client = None)
    by (vm_compute; reflexivity).
  split; [exact H|].
  exact (proj2 (getConnection_without_token (Resp := list byte) Demo.anonymous Demo.client
                  Demo.connectionId Demo.echo H)).
Defined.

(** X14: the peer offers TOKEN with DIGEST-MD5 and answers SUCCESS. *)
Lemma negotiate_after_offer_witness :
  fst (negotiateSimpleTokenAuth Demo.withToken Demo.client TCPConn Scenarios.tokenHandshake)
  = Ok tt.
Proof.
  pose (offer := fst (Demo.sasl_of Scenarios.tokenOffer)).
  pose (answer := fst (Demo.sasl_of Scenarios.saslSuccess)).
  pose (w2 := snd (sendSaslMessage Demo.withToken Demo.client TCPConn saslNegotiateMessage
                     Scenarios.tokenHandshake)).
  pose (w3 := snd (receiveSaslMessage Demo.client TCPConn w2)).
  pose (w4 := snd (sendSaslMessage Demo.withToken Demo.client TCPConn
                     (saslInitiateMessage (Demo.auth_of x01) [x72; x63]) w3)).
  pose (w5 := snd (receiveSaslMessage Demo.client TCPConn w4)).
  assert (Hsend : sendSaslMessage Demo.withToken Demo.client TCPConn saslNegotiateMessage
                    Scenarios.tokenHandshake = (Ok tt, w2))
    by (vm_compute; reflexivity).
  assert (Hrecv : receiveSaslMessage Demo.client TCPConn w2 = (Ok offer, w3))
    by (vm_compute; reflexivity).
  assert (Hsend2 : sendSaslMessage Demo.withToken Demo.client TCPConn
                     (saslInitiateMessage (Demo.auth_of x01) [x72; x63]) w3 = (Ok tt, w4))
    by (vm_compute; reflexivity).
  assert (Hrecv2 : receiveSaslMessage Demo.client TCPConn w4 = (Ok answer, w5))
    by (vm_compute; reflexivity).
  rewrite (proj2 (negotiate_after_offer Demo.withToken Demo.client TCPConn
                    Scenarios.tokenHandshake w2 w3 offer (Demo.auth_of x01) []
                    Hsend Hrecv eq_refl eq_refl eq_refl)
             [x72; x63] w4 w5 answer eq_refl Hsend2 Hrecv2).
  reflexivity.
Defined.

(** X15 for the anonymous client and the request 61. *)
Lemma phases_stop_at_first_fault_witness :
  failstop (getConnection (Resp := list byte) Demo.anonymous Demo.client Demo.connectionId)
  /\ failstop (sendRequest (Resp := list byte) Demo.anonymous Demo.client TCPConn
                 (Demo.rpcCall [x61]))
  /\ failstop (readResponse (Resp := list byte) Demo.client TCPConn (Demo.rpcCall [x61])).
Proof.
  exact (phases_stop_at_first_fault (Resp := list byte) Demo.anonymous Demo.client
           Demo.connectionId TCPConn (Demo.rpcCall [x61])).
Defined.


(** X18 on the answer without offer of [Demo.noOffer]. *)
Lemma receiveSaslMessage_reads_at_most_twice_witness :
  exists reads,
    log (snd (receiveSaslMessage Demo.client TCPConn Demo.noOffer))
    = log Demo.noOffer ++ EvSetDeadline rwDefaultTimeout :: reads
    /\ Forall is_read reads /\ (length reads <= 2)%nat.
Proof.
  exact (receiveSaslMessage_reads_at_most_twice Demo.client TCPConn Demo.noOffer).
Defined.

(** X19: the offer of TOKEN with DIGEST-MD5, arriving whole. *)
Lemma receiveSaslMessage_decodes_frame_witness :
  len (delimitedParts [Scenarios.okHeader; Scenarios.tokenOffer]) <= 2 ^ 31 - 1
  /\ receiveSaslMessage (Resp := list byte) Demo.client TCPConn
       (World [[x00; x00; x00; x06]; [x02; x00; x00; x02; x01; x01]] [] [] [])
     = (Ok (fst (Demo.sasl_of Scenarios.tokenOffer)),
        World [] []
          [EvSetDeadline rwDefaultTimeout; EvRead 4 [x00; x00; x00; x06];
           EvRead 6 [x02; x00; x00; x02; x01; x01]] []).
Proof.
  assert (Hfit : len (delimitedParts [Scenarios.okHeader; Scenarios.tokenOffer])
                 <= 2 ^ 31 - 1) by (vm_compute; discriminate).
  split; [exact Hfit|].
  exact (receiveSaslMessage_decodes_frame (Resp := list byte) Demo.client TCPConn
           Scenarios.okHeader Scenarios.tokenOffer
           (fst (Demo.header_of Scenarios.okHeader))
           (fst (Demo.sasl_of Scenarios.tokenOffer)) None [] [] []
           Hfit eq_refl eq_refl (or_introl eq_refl) eq_refl).
Defined.

(** X21: the first container of the example machine; its group 4711 gets
    the signal. *)
Lemma KillContainer_signals_one_group_witness :
  Forall (fun pid => - 2 ^ 63 <= pid < 2 ^ 63) [4711; 4712]
  /\ snd (nm.KillContainer CopilotDemo.platform CopilotDemo.operator "container_1")
     = [(-4711, SIGKILL)]
  /\ (-4711 < -1 /\ SIGKILL = SIGKILL
      /\ (exists rest,
            nm.GetPids CopilotDemo.platform
              (nm.filepath_Join CopilotDemo.platform
                 [nm.CgroupRoot CopilotDemo.operator; "cpu";
                  nm.CgroupPath CopilotDemo.operator; "container_1"])
            = (- -4711 :: rest, None))
      /\ fst (nm.KillContainer CopilotDemo.platform CopilotDemo.operator "container_1")
         = nm.Kill CopilotDemo.platform (-4711) SIGKILL).
Proof.
  assert (H : Forall (fun pid => - 2 ^ 63 <= pid < 2 ^ 63) [4711; 4712])
    by (repeat (constructor; [lia|]); constructor).
  split; [exact H|]. split; [vm_compute; reflexivity|].
  exact (KillContainer_signals_one_group CopilotDemo.platform CopilotDemo.operator
           "container_1" H).
Defined.


End FurtherExamples.
